(** * spotifyleave: YouTube Music playlist bridge

    A shallow embedding of [server/ytmusic_load.py] and
    [server/ytmusic_migrate.py], and the properties of the position
    reconciliation protocol, the step planners, the search-result ranking
    and the migration batch that the specification states.

    Python values are embedded as follows.
    - [str] is a sequence of Unicode code points ([list N]).
    - A value of type [Any] is a [pyval]; a [dict] is an association list
      whose first binding of a key is the one [dict.get] sees.
    - The remote client ([ytmusicapi.YTMusic]) is an arbitrary state machine
      answering each call with a value or an exception; every call the code
      issues is appended to a log.
    - [emit_error] (which raises [SystemExit]) ends a handler with [Failed];
      a handler that returns a payload ends with [Done]. *)

From Stdlib Require Import ZArith NArith String Ascii List Permutation DecimalString.
From Stdlib Require Import Lia ZifyBool ZifyN.
From stdpp Require Import base decidable option list gmap sets.

Set Warnings "-register-all".
Local Open Scope Z_scope.
Local Open Scope list_scope.

(** ** Python strings *)

Definition char : Type := N.
Definition str : Type := list char.

(** A literal of the source, as code points. *)
Definition py (s : string) : str := map N_of_ascii (list_ascii_of_string s).
Arguments py _%_string : simpl never.

(** Truthiness of a [str]: [if s] / [if not s]. *)
Definition truthy (s : str) : bool :=
  match s with [] => false | _ :: _ => true end.

Definition str_eqb (a b : str) : bool := bool_decide (a = b).

(** [str.isspace] on one code point: the Unicode white-space characters. *)
Definition isspace (c : char) : bool :=
  ((9 <=? c) && (c <=? 13) || (28 <=? c) && (c <=? 32)
   || (c =? 133) || (c =? 160) || (c =? 5760)
   || (8192 <=? c) && (c <=? 8202)
   || (c =? 8232) || (c =? 8233) || (c =? 8239) || (c =? 8287)
   || (c =? 12288))%N.

Fixpoint lstrip (s : str) : str :=
  match s with
  | c :: r => if isspace c then lstrip r else s
  | [] => []
  end.

(** [s.strip()] *)
Definition strip (s : str) : str := rev (lstrip (rev (lstrip s))).

(** [s.split()]: the maximal runs of non-space characters. [cur] is the run
    being read, kept in order. *)
Fixpoint split_runs (cur : str) (s : str) : list str :=
  match s with
  | [] => match cur with [] => [] | _ => [cur] end
  | c :: r =>
      if isspace c
      then match cur with [] => split_runs [] r | _ => cur :: split_runs [] r end
      else split_runs (cur ++ [c]) r
  end.

Definition split_ws (s : str) : list str := split_runs [] s.

(** [s.split(sep)] for a one-character separator: empty fields are kept. *)
Fixpoint split_fields (sep : char) (cur : str) (s : str) : list str :=
  match s with
  | [] => [cur]
  | c :: r =>
      if (c =? sep)%N then cur :: split_fields sep [] r
      else split_fields sep (cur ++ [c]) r
  end.

Definition split_on (sep : char) (s : str) : list str := split_fields sep [] s.

(** [sep.join(parts)] *)
Fixpoint join (sep : str) (parts : list str) : str :=
  match parts with
  | [] => []
  | [p] => p
  | p :: rest => p ++ sep ++ join sep rest
  end.

Fixpoint starts_with (p s : str) : bool :=
  match p, s with
  | [], _ => true
  | _ :: _, [] => false
  | a :: p', b :: s' => (a =? b)%N && starts_with p' s'
  end.

(** [p in s] on strings: [p] occurs in [s] as a contiguous substring. *)
Fixpoint contains (s p : str) : bool :=
  starts_with p s || match s with [] => false | _ :: r => contains r p end.

(** [f"{n}"] for a non-negative integer. *)
Definition str_of_nat (n : nat) : str := py (NilEmpty.string_of_uint (Nat.to_uint n)).

(** ** The interpreter's builtins that are taken as given

    [str.lower] maps an ASCII letter to its lower case; what it does to a
    code point above 127 (full Unicode case mapping, which may give several
    code points and depends on the context for the final sigma) is
    [lower_ext]. [int(s)] on a string is [int_of_str], [None] standing for
    [ValueError]. *)
Class Builtins := {
  lower_ext : str -> nat -> list char;
  int_of_str : str -> option Z;
}.

Definition is_upper (c : char) : bool := ((65 <=? c) && (c <=? 90))%N.

Definition ascii_lower (c : char) : char := if is_upper c then (c + 32)%N else c.

Section Strings.
Context {builtins : Builtins}.

Definition lower_at (s : str) (i : nat) (c : char) : list char :=
  if (c <? 128)%N then [ascii_lower c] else lower_ext s i.

(** [s.lower()] *)
Definition lower (s : str) : str := concat (imap (lower_at s) s).
End Strings.

(** ** Python values *)

(** A value of type [Any]. A float is kept only as far as the code looks at
    it: whether it is non-zero ([bool(value)] in [is_truthy]); every other
    test of the source ([isinstance] against [str], [dict], [list], [bool],
    [int]) fails on it. *)
Inductive pyval : Type :=
| PNone
| PBool (b : bool)
| PInt (z : Z)
| PFloat (nonzero : bool)
| PStr (s : str)
| PList (l : list pyval)
| PDict (d : list (str * pyval)).

Definition dict : Type := list (str * pyval).

(** [d.get(key)] *)
Fixpoint dict_get (d : dict) (key : str) : pyval :=
  match d with
  | [] => PNone
  | (k, v) :: rest => if str_eqb k key then v else dict_get rest key
  end.

(** Both source files define [safe_str] and [safe_non_negative_int] with the
    same text. *)
Definition safe_str (value : pyval) : str :=
  match value with PStr s => strip s | _ => [] end.

(** The text of a value that is known to be a [str]. *)
Definition str_of (value : pyval) : str :=
  match value with PStr s => s | _ => [] end.

Section SafeInt.
Context {builtins : Builtins}.

Definition safe_non_negative_int (value : pyval) : option Z :=
  match value with
  | PBool _ => None
  | PInt z => if 0 <=? z then Some z else None
  | PStr s =>
      let stripped := strip s in
      if negb (truthy stripped) then None
      else match int_of_str stripped with
           | None => None
           | Some parsed => if 0 <=? parsed then Some parsed else None
           end
  | _ => None
  end.
End SafeInt.

(** [max(items, key=key)]: the first of the items with the greatest key;
    [None] stands for the [ValueError] on an empty list. *)
Fixpoint max_from {A} (key : A -> Z) (best : A) (items : list A) : A :=
  match items with
  | [] => best
  | x :: rest => if key best <? key x then max_from key x rest else max_from key best rest
  end.

Definition py_max {A} (key : A -> Z) (items : list A) : option A :=
  match items with
  | [] => None
  | x :: rest => Some (max_from key x rest)
  end.

(** [items[i]] with Python's indexing: a negative index counts from the end;
    [None] stands for [IndexError]. *)
Definition getitem {A} (items : list A) (i : Z) : option A :=
  let n := Z.of_nat (length items) in
  if (0 <=? i) && (i <? n) then items !! Z.to_nat i
  else if (- n <=? i) && (i <? 0) then items !! Z.to_nat (n + i)
  else None.

(** [items[i] = x] *)
Definition setitem {A} (items : list A) (i : Z) (x : A) : option (list A) :=
  let n := Z.of_nat (length items) in
  if (0 <=? i) && (i <? n) then Some (<[Z.to_nat i := x]> items)
  else if (- n <=? i) && (i <? 0) then Some (<[Z.to_nat (n + i) := x]> items)
  else None.

(** ** The remote client

    The four methods of [ytmusicapi.YTMusic] that the modelled code calls.
    The client answers a call with a value or raises; [Raises exc] carries
    [str(exc)]. [time.sleep] has no effect on any value and is left out. *)
Inductive call : Type :=
| GetPlaylist (playlist_id : str) (limit : Z)
| AddPlaylistItems (playlist_id : str) (video_ids : list str) (duplicates : bool)
| EditPlaylist (playlist_id : str) (moveItem : str * str)
| Search (query : str) (filter : str) (limit : Z).

Inductive reply : Type :=
| Returns (value : pyval)
| Raises (exc : str).

Class YTMusic := {
  world : Type;
  respond : call -> world -> reply * world;
}.

(** A run of a handler: the state of the remote service and the calls issued
    so far, oldest first. *)
Record session {ytmusic : YTMusic} := Session { remote : world; calls : list call }.

Definition invoke {ytmusic : YTMusic} (c : call) (s : session) : reply * session :=
  let '(r, w) := respond c (remote s) in
  (r, {| remote := w; calls := calls s ++ [c] |}).

(** A client whose reorder call never raises. *)
Definition reorder_never_raises {ytmusic : YTMusic} : Prop :=
  ∀ playlist_id moveItem w,
    ∃ v w', respond (EditPlaylist playlist_id moveItem) w = (Returns v, w').

Definition is_reorder (c : call) : bool :=
  match c with EditPlaylist _ _ => true | _ => false end.

(** The reorder calls of a log. *)
Definition reorders (log : list call) : list call := List.filter is_reorder log.

(** How a handler ends: it returns a payload that [main] emits ([Done]),
    [emit_error] emits an error payload and exits ([Failed]), or an exception
    nobody catches ends the process ([Uncaught]). *)
Inductive outcome : Type :=
| Done (payload : dict)
| Failed (payload : dict)
| Uncaught (exc : str).

(** Both source files define [emit_error] with the same text. *)
Definition emit_error (message code : str) (status : Z) (details : str) : outcome :=
  let payload :=
    [(py "ok", PBool false); (py "error", PStr message);
     (py "code", PStr code); (py "status", PInt status)] in
  Failed (if truthy details then payload ++ [(py "details", PStr details)] else payload).

(** ** The reconciler's loops

    [handle_insert_video_at_position] (ytmusic_load.py) and the
    position-preserving branch of [migrate_songs] (ytmusic_migrate.py)
    contain the following loops with the same text. *)

(** [snapshot.get("tracks") if isinstance(snapshot, dict) else []] *)
Definition tracks_field (snapshot : pyval) : pyval :=
  match snapshot with PDict d => dict_get d (py "tracks") | _ => PList [] end.

(** The position token of a row and its external identifier, [""] when the
    row has none or is no object. *)
Definition row_token (track : pyval) : str :=
  match track with
  | PDict t => safe_str (dict_get t (py "setVideoId"))
  | _ => []
  end.

Definition row_video (track : pyval) : str :=
  match track with
  | PDict t => safe_str (dict_get t (py "videoId"))
  | _ => []
  end.

(** The token of the row at index [i] of a snapshot, [""] when there is no
    such row. *)
Definition token_at (tracks : list pyval) (i : Z) : str :=
  match getitem tracks i with Some track => row_token track | None => [] end.

(** A playlist row with the two fields the reconciler reads. *)
Definition entry (video_id set_video_id : pyval) : pyval :=
  PDict [(py "videoId", video_id); (py "setVideoId", set_video_id)].

(** The genuine new row in the words of the specification: its external
    identifier is the appended one, its token is non-empty and absent from
    the before-set. *)
Definition new_row (video_id : str) (before : gset str) (row : pyval) : Prop :=
  row_video row = video_id ∧ row_token row ≠ [] ∧ row_token row ∉ before.

(** The tokens of the rows of the before-snapshot. *)
Definition before_tokens (before_snapshot : pyval) : gset str :=
  match tracks_field before_snapshot with
  | PList before_tracks =>
      foldl (fun acc track =>
               match track with
               | PDict t =>
                   let set_video_id := safe_str (dict_get t (py "setVideoId")) in
                   if truthy set_video_id then {[set_video_id]} ∪ acc else acc
               | _ => acc
               end) ∅ before_tracks
  | _ => ∅
  end.

Record found := Found {
  inserted_set_video_id : str;
  inserted_index : Z;
  fallback_set_video_id : str;
  fallback_index : Z;
}.

Definition nothing_found : found :=
  {| inserted_set_video_id := []; inserted_index := -1;
     fallback_set_video_id := []; fallback_index := -1 |}.

(** [for track_index in range(len(after_tracks) - 1, -1, -1)]: [n] indices
    remain, the next one is [n - 1]. Reaching the end of a branch without a
    recursive call is the [break]. *)
Fixpoint scan_down (video_id : str) (before_set_video_ids : gset str)
    (after_tracks : list pyval) (n : nat) (st : found) : found :=
  match n with
  | O => st
  | S k =>
      match after_tracks !! k with
      | Some (PDict track) =>
          let track_video_id := safe_str (dict_get track (py "videoId")) in
          if negb (str_eqb track_video_id video_id)
          then scan_down video_id before_set_video_ids after_tracks k st
          else
            let track_set_video_id := safe_str (dict_get track (py "setVideoId")) in
            if truthy track_set_video_id
               && negb (bool_decide (track_set_video_id ∈ before_set_video_ids))
            then {| inserted_set_video_id := track_set_video_id;
                    inserted_index := Z.of_nat k;
                    fallback_set_video_id := fallback_set_video_id st;
                    fallback_index := fallback_index st |}
            else if truthy track_set_video_id && negb (truthy (fallback_set_video_id st))
            then scan_down video_id before_set_video_ids after_tracks k
                   {| inserted_set_video_id := inserted_set_video_id st;
                      inserted_index := inserted_index st;
                      fallback_set_video_id := track_set_video_id;
                      fallback_index := Z.of_nat k |}
            else scan_down video_id before_set_video_ids after_tracks k st
      | _ => scan_down video_id before_set_video_ids after_tracks k st
      end
  end.

(** The variables a polling loop leaves behind: the last snapshot read and
    what its scan found. *)
Record polled := Polled { after_tracks : list pyval; hits : found }.

(** One scan of an after-snapshot, the four variables reset before it. *)
Definition scan_after (video_id : str) (before_set_video_ids : gset str)
    (after_tracks : list pyval) : found :=
  scan_down video_id before_set_video_ids after_tracks (length after_tracks)
            nothing_found.

(** [if not inserted_set_video_id and fallback_set_video_id: ...] *)
Definition with_fallback (st : found) : str * Z :=
  if negb (truthy (inserted_set_video_id st)) && truthy (fallback_set_video_id st)
  then (fallback_set_video_id st, fallback_index st)
  else (inserted_set_video_id st, inserted_index st).

(** [for candidate_index in range(successor_index, len(after_tracks))], run
    on the rows from [successor_index] on. *)
Fixpoint successor_scan (inserted : str) (rows : list pyval) : str :=
  match rows with
  | [] => []
  | PDict successor_track :: rest =>
      let candidate_set_video_id := safe_str (dict_get successor_track (py "setVideoId")) in
      if truthy candidate_set_video_id && negb (str_eqb candidate_set_video_id inserted)
      then candidate_set_video_id
      else successor_scan inserted rest
  | _ :: rest => successor_scan inserted rest
  end.

(** The slot whose row the inserted row is to precede. *)
Definition successor_slot (inserted_index bounded_expected_index : Z) : Z :=
  if (0 <=? inserted_index) && (inserted_index <? bounded_expected_index)
  then bounded_expected_index + 1
  else bounded_expected_index.

(** ** Sample instances

    An interpreter whose [lower] leaves the code points above 127 alone and
    whose [int] reads plain decimal digits, and a client that replays a
    script of replies and answers [None] once the script is over. *)
Fixpoint digits_value (acc : Z) (s : str) : option Z :=
  match s with
  | [] => Some acc
  | c :: r =>
      if ((48 <=? c) && (c <=? 57))%N
      then digits_value (10 * acc + Z.of_N (c - 48)) r
      else None
  end.

Definition plain_builtins : Builtins :=
  {| lower_ext := fun s i => match s !! i with Some c => [c] | None => [] end;
     int_of_str := fun s => match s with [] => None | _ => digits_value 0 s end |}.

Definition replay : YTMusic :=
  {| world := list reply;
     respond := fun _ script =>
       match script with
       | [] => (Returns PNone, [])
       | r :: rest => (r, rest)
       end |}.

(** A client whose playlist never changes and whose calls never raise:
    [get_playlist] returns the snapshot the client holds, every other call
    returns [None]. *)
Definition still : YTMusic :=
  {| world := pyval;
     respond := fun c snapshot =>
       match c with
       | GetPlaylist _ _ => (Returns snapshot, snapshot)
       | _ => (Returns PNone, snapshot)
       end |}.

Definition start {ytmusic : YTMusic} (w : world) : session := {| remote := w; calls := [] |}.

(** ** Sample data

    A snapshot as [get_playlist] returns it, and the rows used in the worked
    examples: three rows with tokens t1, t2, t3, the appended row with token
    t4, and a three-row playlist whose middle row has no token. *)
Definition snapshot (rows : list pyval) : pyval := PDict [(py "tracks", PList rows)].

Definition row (video_id set_video_id : string) : pyval :=
  entry (PStr (py video_id)) (PStr (py set_video_id)).

Definition three_rows : list pyval := [row "a" "t1"; row "b" "t2"; row "c" "t3"].

Definition four_rows : list pyval := three_rows ++ [row "abc" "t4"].

Definition gap_rows : list pyval :=
  [row "a" "t1"; PDict [(py "videoId", PStr (py "b"))]; row "c" "t3"].

Definition gap_rows_after : list pyval := gap_rows ++ [row "abc" "t4"].

Definition insert_request (expected_index : Z) : dict :=
  [(py "action", PStr (py "insertVideoAtPosition")); (py "playlistId", PStr (py "PL"));
   (py "videoId", PStr (py "abc")); (py "expectedIndex", PInt expected_index)].

Definition move_request (song : dict) (direction : string) (positions : Z) : dict :=
  [(py "action", PStr (py "movePlaylistSong")); (py "playlistId", PStr (py "PL"));
   (py "song", PDict song); (py "direction", PStr (py direction));
   (py "positions", PInt positions)].

(** * ytmusic_migrate.py: normalizer, match scorer, migration batch *)
Module Migrate.

(** The character class [a-z0-9]. *)
Definition is_az09 (c : char) : bool :=
  ((97 <=? c) && (c <=? 122) || (48 <=? c) && (c <=? 57))%N.

(** [re.sub(r"[^a-z0-9]+", " ", s)]: every maximal run of characters outside
    the class becomes one space. [in_run] tells that the previous character
    was outside the class too. *)
Fixpoint sub_runs (in_run : bool) (s : str) : str :=
  match s with
  | [] => []
  | c :: r =>
      if is_az09 c then c :: sub_runs false r
      else if in_run then sub_runs true r
      else 32%N :: sub_runs true r
  end.

Definition re_sub_non_alnum (s : str) : str := sub_runs false s.

(** The comparison key in the words of the specification: the maximal runs
    of characters of [a-z0-9] in a (lower-cased) string, in order; every run
    of other characters only separates two of them. [cur] is the run being
    read. *)
Fixpoint runs_from (cur : str) (s : str) : list str :=
  match s with
  | [] => match cur with [] => [] | _ => [cur] end
  | c :: r =>
      if is_az09 c then runs_from (cur ++ [c]) r
      else match cur with [] => runs_from [] r | _ => cur :: runs_from [] r end
  end.

Definition alnum_runs (s : str) : list str := runs_from [] s.

(** The shape of a comparison key: a non-empty word over [a-z0-9]. *)
Definition word (w : str) : Prop := w ≠ [] ∧ Forall (fun c => is_az09 c = true) w.

Section Scorer.
Context {builtins : Builtins}.

Definition normalize (value : str) : str :=
  let cleaned := re_sub_non_alnum (lower value) in
  join (py " ") (split_ws cleaned).

Definition is_truthy (value : pyval) : bool :=
  match value with
  | PBool b => b
  | PStr s =>
      let v := lower (strip s) in
      str_eqb v (py "1") || str_eqb v (py "true")
      || str_eqb v (py "yes") || str_eqb v (py "on")
  | PInt z => negb (z =? 0)
  | PFloat nonzero => nonzero
  | _ => false
  end.

(** The names collected by the loop of [extract_artist_text]. *)
Definition artist_names (artists : list pyval) : list str :=
  omap (fun artist =>
          match artist with
          | PDict a =>
              let name := safe_str (dict_get a (py "name")) in
              if truthy name then Some name else None
          | PStr _ =>
              let name := safe_str artist in
              if truthy name then Some name else None
          | _ => None
          end) artists.

Definition extract_artist_text (search_result : dict) : str :=
  let fallback := safe_str (dict_get search_result (py "artist")) in
  match dict_get search_result (py "artists") with
  | PList artists =>
      match artist_names artists with
      | [] => fallback
      | names => join (py ", ") names
      end
  | _ => fallback
  end.

(** [any(token and token in result_artists for token in artist.split(" "))] *)
Definition any_token_in (artist result_artists : str) : bool :=
  existsb (fun token => truthy token && contains result_artists token)
          (split_on 32%N artist).

Definition score_search_result
    (search_result : dict) (target_title target_artist : str) : Z :=
  let score := 0 in
  let result_title := normalize (safe_str (dict_get search_result (py "title"))) in
  let result_artists := normalize (extract_artist_text search_result) in
  let title := normalize target_title in
  let artist := normalize target_artist in
  let score :=
    if truthy title && str_eqb result_title title then score + 8
    else if truthy title && contains result_title title then score + 5
    else score in
  let score :=
    if truthy artist && str_eqb result_artists artist then score + 5
    else if truthy artist && contains result_artists artist then score + 3
    else if truthy artist && any_token_in artist result_artists then score + 1
    else score in
  let score :=
    if truthy (safe_str (dict_get search_result (py "videoId"))) then score + 2
    else score in
  score.

Definition artist_match_level (search_result : dict) (target_artist : str) : Z :=
  let artist := normalize target_artist in
  if negb (truthy artist) then 0 else
  let result_artists := normalize (extract_artist_text search_result) in
  if negb (truthy result_artists) then 0 else
  if str_eqb result_artists artist then 3
  else if contains result_artists artist then 2
  else if any_token_in artist result_artists then 1
  else 0.

Definition album_match_level (search_result : dict) (target_album : str) : Z :=
  let album := normalize target_album in
  if negb (truthy album) then 0 else
  let result_album :=
    match dict_get search_result (py "album") with
    | PDict search_album => normalize (safe_str (dict_get search_album (py "name")))
    | PStr search_album => normalize search_album
    | _ => []
    end in
  if negb (truthy result_album) then 0
  else if str_eqb result_album album then 2
  else if contains result_album album then 1
  else 0.

(** The results that are objects with a usable [videoId]. *)
Definition valid_results_of (results : list pyval) : list dict :=
  omap (fun result =>
          match result with
          | PDict d =>
              if truthy (safe_str (dict_get d (py "videoId"))) then Some d else None
          | _ => None
          end) results.

Definition total_score (title artist album : str) (item : dict) : Z :=
  score_search_result item title artist + album_match_level item album * 4.

Definition pick_best_match
    (results : list pyval) (title artist album : str)
    (require_artist_match : bool) : option dict :=
  let valid_results := valid_results_of results in
  match valid_results with
  | [] => None
  | _ :: _ =>
      if truthy artist then
        let artist_filtered :=
          List.filter (fun result => 0 <? artist_match_level result artist)
                      valid_results in
        match artist_filtered with
        | _ :: _ => py_max (total_score title artist album) artist_filtered
        | [] =>
            if require_artist_match then None
            else py_max (total_score title artist album) valid_results
        end
      else py_max (total_score title artist album) valid_results
  end.
End Scorer.

(** A search result as the client returns it: a title, one artist, a
    [videoId]. *)
Definition candidate (title artist video_id : string) : dict :=
  [(py "title", PStr (py title));
   (py "artists", PList [PDict [(py "name", PStr (py artist))]]);
   (py "videoId", PStr (py video_id))].

(** The same with the artist as the display text of an [artist] field. *)
Definition candidate_text (title artist video_id : string) : dict :=
  [(py "title", PStr (py title)); (py "artist", PStr (py artist));
   (py "videoId", PStr (py video_id))].

(** ** The migration batch *)

(** What [migrate_songs] reads from the process environment: the exception
    of importing [ytmusicapi] if any, [YTMUSIC_AUTH_FILE], [os.path.exists],
    the exception of the client's constructor if any, [YTMUSIC_DEBUG]. *)
Record environment := Environment {
  import_error : option str;
  auth_file_var : option str;
  path_exists : str -> bool;
  init_error : option str;
  debug_var : option str;
}.

Definition opt_str (v : option str) : pyval :=
  match v with Some s => PStr s | None => PNone end.

Definition opt_int (v : option Z) : pyval :=
  match v with Some z => PInt z | None => PNone end.

(** The loop over one list of search results: the objects with a [videoId]
    not seen so far are appended. *)
Fixpoint merge_results (variant_results : list pyval)
    (merged : list pyval) (seen_video_ids : gset str) : list pyval * gset str :=
  match variant_results with
  | [] => (merged, seen_video_ids)
  | PDict result :: rest =>
      let video_id := safe_str (dict_get result (py "videoId")) in
      if negb (truthy video_id) || bool_decide (video_id ∈ seen_video_ids)
      then merge_results rest merged seen_video_ids
      else merge_results rest (merged ++ [PDict result]) ({[video_id]} ∪ seen_video_ids)
  | _ :: rest => merge_results rest merged seen_video_ids
  end.

(** The entry of [failed] for a song that has its four fields. *)
Definition failure (song_key title artist album : pyval) (error : str) : dict :=
  [(py "songKey", song_key); (py "title", title); (py "artist", artist);
   (py "album", album); (py "error", PStr error)].

Definition debug_entry (song_key title artist album query : str)
    (queries : list str) (last : str * pyval) : dict :=
  [(py "songKey", PStr song_key); (py "title", PStr title);
   (py "artist", PStr artist); (py "album", PStr album);
   (py "query", PStr query); (py "queries", PList (map PStr queries)); last].

(** What the first loop of [migrate_songs] does with one song: an entry of
    [failed] or an entry of [pending_migrations]. *)
Inductive resolution : Type :=
| Unresolved (entry : dict)
| Resolved (entry : dict).

Section Orchestrator.
Context {builtins : Builtins} {ytmusic : YTMusic}.

(** [for query_variant in queries] inside the [try]: the results merged so
    far, and the exception that ended the loop if any. *)
Fixpoint search_variants (filter : str) (queries : list str)
    (merged : list pyval) (seen_video_ids : gset str) (s : session)
    : list pyval * option str * session :=
  match queries with
  | [] => (merged, None, s)
  | query_variant :: rest =>
      match invoke (Search query_variant filter 20) s with
      | (Raises exc, s1) => (merged, Some exc, s1)
      | (Returns (PList variant_results), s1) =>
          let '(merged1, seen1) :=
            merge_results variant_results merged seen_video_ids in
          search_variants filter rest merged1 seen1 s1
      | (Returns _, s1) => search_variants filter rest merged seen_video_ids s1
      end
  end.

(** The body of [for index, song in enumerate(normalized_songs)]. *)
Definition resolve_song (debug_enabled : bool) (index : nat) (song : pyval)
    (debug_searches : list dict) (s : session)
    : resolution * list dict * session :=
  match song with
  | PDict song =>
      let song_key :=
        let given := safe_str (dict_get song (py "songKey")) in
        if truthy given then given else py "song-" ++ str_of_nat index in
      let title := safe_str (dict_get song (py "title")) in
      let artist := safe_str (dict_get song (py "artist")) in
      let album := safe_str (dict_get song (py "album")) in
      let fail error :=
        Unresolved (failure (PStr song_key) (PStr title) (PStr artist)
                            (PStr album) error) in
      if negb (truthy title)
      then (fail (py "Song title is required."), debug_searches, s)
      else
        let query := strip (artist ++ py " " ++ title) in
        let queries :=
          if truthy album
          then [query; strip (artist ++ py " " ++ title ++ py " " ++ album)]
          else [query] in
        let note := debug_entry song_key title artist album query queries in
        match search_variants (py "songs") queries [] ∅ s with
        | (_, Some exc, s1) =>
            (fail (py "Search failed: " ++ exc),
             if debug_enabled
             then debug_searches ++ [note (py "error", PStr exc)]
             else debug_searches,
             s1)
        | (merged_results, None, s1) =>
            let debug1 :=
              if debug_enabled
              then debug_searches ++ [note (py "response", PList merged_results)]
              else debug_searches in
            let '(best_match, debug2, s2) :=
              match pick_best_match merged_results title artist album true with
              | Some best => (Some best, debug1, s1)
              | None =>
                  let '(video_results, raised, s2) :=
                    search_variants (py "videos") queries [] ∅ s1 in
                  let debug_exc :=
                    match raised with
                    | Some exc =>
                        if debug_enabled
                        then debug1 ++ [note (py "videoFallbackError", PStr exc)]
                        else debug1
                    | None => debug1
                    end in
                  let debug_resp :=
                    if debug_enabled
                    then debug_exc
                           ++ [note (py "videoFallbackResponse", PList video_results)]
                    else debug_exc in
                  (pick_best_match video_results title artist album false,
                   debug_resp, s2)
              end in
            match best_match with
            | None =>
                (fail (py "No matching song found on YouTube Music."), debug2, s2)
            | Some best_match =>
                let video_id := safe_str (dict_get best_match (py "videoId")) in
                if negb (truthy video_id)
                then (fail (py "Search result did not include a videoId."),
                      debug2, s2)
                else
                  (Resolved
                     [(py "songKey", PStr song_key); (py "title", PStr title);
                      (py "artist", PStr artist); (py "album", PStr album);
                      (py "expectedIndex",
                       opt_int (safe_non_negative_int
                                  (dict_get song (py "expectedIndex"))));
                      (py "videoId", PStr video_id);
                      (py "matchedTitle",
                       PStr (safe_str (dict_get best_match (py "title"))));
                      (py "matchedArtists",
                       PStr (extract_artist_text best_match))],
                   debug2, s2)
            end
        end
  | _ =>
      (Unresolved [(py "songKey", PStr (py "song-" ++ str_of_nat index));
                   (py "error", PStr (py "Song payload must be an object."))],
       debug_searches, s)
  end.

(** The first loop of [migrate_songs], from the song at [index] on. *)
Fixpoint resolve_songs (debug_enabled : bool) (index : nat) (songs : list pyval)
    (pending_migrations failed debug_searches : list dict) (s : session)
    : list dict * list dict * list dict * session :=
  match songs with
  | [] => (pending_migrations, failed, debug_searches, s)
  | song :: rest =>
      match resolve_song debug_enabled index song debug_searches s with
      | (Unresolved entry, debug1, s1) =>
          resolve_songs debug_enabled (S index) rest
                        pending_migrations (failed ++ [entry]) debug1 s1
      | (Resolved entry, debug1, s1) =>
          resolve_songs debug_enabled (S index) rest
                        (pending_migrations ++ [entry]) failed debug1 s1
      end
  end.

(** [for attempt in range(5)] of the position-preserving branch; [None]
    when [get_playlist] raised, which ends the repositioning. *)
Fixpoint poll_after (playlist_id video_id : str) (before_set_video_ids : gset str)
    (attempts : list Z) (st : polled) (s : session) : option polled * session :=
  match attempts with
  | [] => (Some st, s)
  | attempt :: rest =>
      match invoke (GetPlaylist playlist_id 5000) s with
      | (Raises _, s1) => (None, s1)
      | (Returns after_snapshot, s1) =>
          let after_tracks :=
            match tracks_field after_snapshot with
            | PList candidate_tracks => candidate_tracks
            | _ => []
            end in
          match after_tracks with
          | [] =>
              poll_after playlist_id video_id before_set_video_ids rest
                         {| after_tracks := []; hits := hits st |} s1
          | _ :: _ =>
              let st1 :=
                {| after_tracks := after_tracks;
                   hits := scan_after video_id before_set_video_ids after_tracks |} in
              if truthy (inserted_set_video_id (hits st1))
                 || truthy (fallback_set_video_id (hits st1))
              then (Some st1, s1)
              else poll_after playlist_id video_id before_set_video_ids rest st1 s1
          end
      end
  end.

(** The best-effort repositioning: the inner [try] of the
    position-preserving branch. It changes nothing but the remote state. *)
Definition reposition (playlist_id video_id : str) (expected_index : Z)
    (before_set_video_ids : gset str) (s : session) : session :=
  match poll_after playlist_id video_id before_set_video_ids [0; 1; 2; 3; 4]
                   {| after_tracks := []; hits := nothing_found |} s with
  | (None, s1) => s1
  | (Some st, s1) =>
      let after_tracks := after_tracks st in
      let len := Z.of_nat (length after_tracks) in
      match after_tracks with
      | [] => s1
      | _ :: _ =>
          let '(inserted_set_video_id, inserted_index) := with_fallback (hits st) in
          if negb (truthy inserted_set_video_id) then s1
          else
            let bounded_expected_index := Z.min expected_index (len - 1) in
            if inserted_index =? bounded_expected_index then s1
            else
              let successor_index :=
                successor_slot inserted_index bounded_expected_index in
              if len <=? successor_index then s1
              else
                let successor_set_video_id :=
                  successor_scan inserted_set_video_id
                                 (drop (Z.to_nat successor_index) after_tracks) in
                if negb (truthy successor_set_video_id) then s1
                else (invoke (EditPlaylist playlist_id
                                (inserted_set_video_id, successor_set_video_id))
                             s1).2
      end
  end.

(** The body of [for song in pending_migrations] of the position-preserving
    branch: [inl] is the entry appended to [failed], [inr] the song appended
    to [successful_migrations]. *)
Definition add_in_place (playlist_id : str) (song : dict) (s : session)
    : (dict + dict) * session :=
  let '(before_set_video_ids, s1) :=
    match invoke (GetPlaylist playlist_id 5000) s with
    | (Raises _, s1) => (∅, s1)
    | (Returns before_snapshot, s1) => (before_tokens before_snapshot, s1)
    end in
  let video_id := str_of (dict_get song (py "videoId")) in
  match invoke (AddPlaylistItems playlist_id [video_id] false) s1 with
  | (Raises exc, s2) =>
      (inl (failure (dict_get song (py "songKey")) (dict_get song (py "title"))
                    (dict_get song (py "artist")) (dict_get song (py "album"))
                    (py "Failed to add song to playlist: " ++ exc)), s2)
  | (Returns _, s2) =>
      match safe_non_negative_int (dict_get song (py "expectedIndex")) with
      | None => (inr song, s2)
      | Some expected_index =>
          (inr song,
           reposition playlist_id video_id expected_index before_set_video_ids s2)
      end
  end.

Fixpoint add_each_in_place (playlist_id : str) (pending : list dict)
    (successful_migrations failed : list dict) (s : session)
    : list dict * list dict * session :=
  match pending with
  | [] => (successful_migrations, failed, s)
  | song :: rest =>
      match add_in_place playlist_id song s with
      | (inl entry, s1) =>
          add_each_in_place playlist_id rest successful_migrations
                            (failed ++ [entry]) s1
      | (inr song, s1) =>
          add_each_in_place playlist_id rest (successful_migrations ++ [song])
                            failed s1
      end
  end.

(** The second half of [migrate_songs]: what becomes of
    [successful_migrations] and [failed]. *)
Definition add_pending (playlist_id : str) (preserve_position : bool)
    (pending_migrations failed : list dict) (s : session)
    : list dict * list dict * session :=
  match pending_migrations with
  | [] => ([], failed, s)
  | _ :: _ =>
      if negb preserve_position then
        match invoke (AddPlaylistItems playlist_id
                        (map (fun song => str_of (dict_get song (py "videoId")))
                             pending_migrations) false) s with
        | (Returns _, s1) => (pending_migrations, failed, s1)
        | (Raises exc, s1) =>
            let failure_message := py "Failed to add songs to playlist: " ++ exc in
            ([],
             failed ++
               map (fun song =>
                      failure (dict_get song (py "songKey"))
                              (dict_get song (py "title"))
                              (dict_get song (py "artist"))
                              (dict_get song (py "album")) failure_message)
                   pending_migrations,
             s1)
        end
      else add_each_in_place playlist_id pending_migrations [] failed s
  end.

(** [migrate_songs] from the first loop on. *)
Definition migrate_batch (playlist_id : str) (debug_enabled preserve_position : bool)
    (songs : list pyval) (s : session) : dict * session :=
  let '(pending_migrations, failed, debug_searches, s1) :=
    resolve_songs debug_enabled 0 songs [] [] [] s in
  let '(successful_migrations, failed1, s2) :=
    add_pending playlist_id preserve_position pending_migrations failed s1 in
  let result :=
    [(py "ok", PBool true); (py "playlistId", PStr playlist_id);
     (py "migrated", PList (map PDict successful_migrations));
     (py "failed", PList (map PDict failed1))] in
  (if debug_enabled
   then result ++ [(py "debug",
                    PDict [(py "enabled", PBool true);
                           (py "searches", PList (map PDict debug_searches))])]
   else result,
   s2).

Definition migrate_songs (env : environment) (payload : dict) (s : session)
    : outcome * session :=
  match import_error env with
  | Some exc =>
      (emit_error
         (py "ytmusicapi is not installed. Install it with: pip install ytmusicapi")
         (py "missing_dependency") 500 exc, s)
  | None =>
      let auth_file := strip (default [] (auth_file_var env)) in
      if negb (truthy auth_file)
      then (emit_error (py "YTMUSIC_AUTH_FILE is not configured.")
                       (py "missing_auth_file") 500 [], s)
      else if negb (path_exists env auth_file)
      then (emit_error (py "Auth file does not exist: " ++ auth_file)
                       (py "missing_auth_file") 400 [], s)
      else
        let playlist_id := safe_str (dict_get payload (py "playlistId")) in
        if negb (truthy playlist_id)
        then (emit_error (py "playlistId is required.") (py "invalid_input") 400 [], s)
        else
          match dict_get payload (py "songs") with
          | PList (song :: rest) =>
              match init_error env with
              | Some exc =>
                  (emit_error
                     (py "Failed to initialize ytmusicapi. Check your auth file.")
                     (py "auth_init_failed") 400 exc, s)
              | None =>
                  let debug_enabled :=
                    is_truthy (dict_get payload (py "debug"))
                    || is_truthy (opt_str (debug_var env)) in
                  let preserve_position :=
                    is_truthy (dict_get payload (py "preservePosition")) in
                  let '(result, s1) :=
                    migrate_batch playlist_id debug_enabled preserve_position
                                  (song :: rest) s in
                  (Done result, s1)
              end
          | _ =>
              (emit_error (py "songs must be a non-empty array.")
                          (py "invalid_input") 400 [], s)
          end
  end.
(** What [migrate_songs] checks before the first loop, apart from the
    [songs] array. *)
Definition checks_pass (env : environment) (payload : dict) : Prop :=
  import_error env = None
  ∧ truthy (strip (default [] (auth_file_var env))) = true
  ∧ path_exists env (strip (default [] (auth_file_var env))) = true
  ∧ truthy (safe_str (dict_get payload (py "playlistId"))) = true
  ∧ init_error env = None.

(** The batch [migrate_songs] runs on a payload that passes them. *)
Definition batch_of (env : environment) (payload : dict) (songs : list pyval)
    (s : session) : dict * session :=
  migrate_batch (safe_str (dict_get payload (py "playlistId")))
                (is_truthy (dict_get payload (py "debug"))
                 || is_truthy (opt_str (debug_var env)))
                (is_truthy (dict_get payload (py "preservePosition")))
                songs s.
End Orchestrator.

(** The key an entry of [migrated] or [failed] is reported under, and the
    key the song at [index] of the input is given: its own [songKey], or
    [song-<index>] when it has none or is no object. *)
Definition song_key_of (entry : dict) : pyval := dict_get entry (py "songKey").

Definition effective_key (index : nat) (song : pyval) : pyval :=
  match song with
  | PDict d =>
      let given := safe_str (dict_get d (py "songKey")) in
      PStr (if truthy given then given else py "song-" ++ str_of_nat index)
  | _ => PStr (py "song-" ++ str_of_nat index)
  end.

(** The entry of [failed] for the song at [index] when it has no title. *)
Definition title_required (index : nat) (song : dict) : dict :=
  failure (effective_key index (PDict song)) (PStr [])
          (PStr (safe_str (dict_get song (py "artist"))))
          (PStr (safe_str (dict_get song (py "album"))))
          (py "Song title is required.").

End Migrate.

(** * ytmusic_load.py: snapshot reads, insert at a position, relative move *)
Module Load.

Definition extract_artist_text (track : dict) : str :=
  match dict_get track (py "artists") with
  | PList artists =>
      join (py ", ")
           (omap (fun artist =>
                    match artist with
                    | PDict a =>
                        let name := safe_str (dict_get a (py "name")) in
                        if truthy name then Some name else None
                    | _ => None
                    end) artists)
  | _ => []
  end.

Definition extract_album_text (track : dict) : str :=
  match dict_get track (py "album") with
  | PDict album => safe_str (dict_get album (py "name"))
  | _ => []
  end.

Definition build_song_detail (track : dict) : option dict :=
  let title := safe_str (dict_get track (py "title")) in
  if negb (truthy title) then None
  else Some [(py "title", PStr title);
             (py "artist", PStr (extract_artist_text track));
             (py "album", PStr (extract_album_text track));
             (py "videoId", PStr (safe_str (dict_get track (py "videoId"))));
             (py "setVideoId", PStr (safe_str (dict_get track (py "setVideoId"))))].

(** [f"{detail['artist']} - {detail['title']}" if detail.get("artist") else detail["title"]] *)
Definition song_line (detail : dict) : pyval :=
  let artist := str_of (dict_get detail (py "artist")) in
  let title := str_of (dict_get detail (py "title")) in
  if truthy artist then PStr (artist ++ py " - " ++ title) else PStr title.

Definition normalize_playlist_song_ref (value : pyval) : option dict :=
  match value with
  | PDict d =>
      let set_video_id := safe_str (dict_get d (py "setVideoId")) in
      let video_id := safe_str (dict_get d (py "videoId")) in
      if negb (truthy set_video_id) && negb (truthy video_id) then None
      else Some ((if truthy set_video_id
                  then [(py "setVideoId", PStr set_video_id)] else [])
                 ++ (if truthy video_id then [(py "videoId", PStr video_id)] else []))
  | _ => None
  end.

(** The first loop of [locate_playlist_song_index], from row [index] on. *)
Fixpoint locate_by_token (target_set_video_id : str) (index : Z)
    (tracks : list pyval) : option (Z * str) :=
  match tracks with
  | [] => None
  | PDict track :: rest =>
      let candidate_set_video_id := safe_str (dict_get track (py "setVideoId")) in
      if str_eqb candidate_set_video_id target_set_video_id
      then Some (index, candidate_set_video_id)
      else locate_by_token target_set_video_id (index + 1) rest
  | _ :: rest => locate_by_token target_set_video_id (index + 1) rest
  end.

(** Its second loop. *)
Fixpoint locate_by_video (target_video_id : str) (index : Z)
    (tracks : list pyval) : option (Z * str) :=
  match tracks with
  | [] => None
  | PDict track :: rest =>
      let candidate_video_id := safe_str (dict_get track (py "videoId")) in
      let candidate_set_video_id := safe_str (dict_get track (py "setVideoId")) in
      if str_eqb candidate_video_id target_video_id && truthy candidate_set_video_id
      then Some (index, candidate_set_video_id)
      else locate_by_video target_video_id (index + 1) rest
  | _ :: rest => locate_by_video target_video_id (index + 1) rest
  end.

Definition locate_playlist_song_index (tracks : list pyval) (song_ref : dict)
    : Z * str :=
  let target_set_video_id := safe_str (dict_get song_ref (py "setVideoId")) in
  let by_token :=
    if truthy target_set_video_id
    then locate_by_token target_set_video_id 0 tracks else None in
  match by_token with
  | Some hit => hit
  | None =>
      let target_video_id := safe_str (dict_get song_ref (py "videoId")) in
      let by_video :=
        if truthy target_video_id
        then locate_by_video target_video_id 0 tracks else None in
      match by_video with
      | Some hit => hit
      | None => (-1, [])
      end
  end.

(** [items[a], items[b] = items[b], items[a]] *)
Definition swap_items {A} (items : list A) (a b : Z) : option (list A) :=
  x ← getitem items b;
  y ← getitem items a;
  items1 ← setitem items a x;
  setitem items1 b y.

Definition insert_response (playlist_id video_id : str) (index : Z) (moved : bool)
    : dict :=
  [(py "ok", PBool true); (py "playlistId", PStr playlist_id);
   (py "videoId", PStr video_id); (py "insertedIndex", PInt index);
   (py "moved", PBool moved)].

Definition move_response (playlist_id : str) (moved : bool) (from_index to_index : Z)
    : dict :=
  [(py "ok", PBool true); (py "playlistId", PStr playlist_id);
   (py "moved", PBool moved); (py "fromIndex", PInt from_index);
   (py "toIndex", PInt to_index)].

Section Handlers.
Context {builtins : Builtins} {ytmusic : YTMusic}.

Definition handle_playlist_songs (payload : dict) (s : session)
    : outcome * session :=
  let playlist_id := safe_str (dict_get payload (py "playlistId")) in
  if negb (truthy playlist_id)
  then (emit_error (py "playlistId is required.") (py "invalid_input") 400 [], s)
  else
    match invoke (GetPlaylist playlist_id 5000) s with
    | (Raises exc, s1) =>
        (emit_error (py "Failed to load playlist songs.")
                    (py "song_load_failed") 502 exc, s1)
    | (Returns result, s1) =>
        let tracks := tracks_field result in
        let song_details :=
          match tracks with
          | PList rows =>
              omap (fun track =>
                      match track with
                      | PDict t => build_song_detail t
                      | _ => None
                      end) rows
          | _ => []
          end in
        let songs := map song_line song_details in
        (Done [(py "ok", PBool true); (py "songs", PList songs);
               (py "songDetails", PList (map PDict song_details))], s1)
    end.

(** [for attempt in range(5)] of [handle_insert_video_at_position];
    [inl] is the [emit_error] of the last attempt. *)
Fixpoint poll_after (playlist_id video_id : str) (before_set_video_ids : gset str)
    (attempts : list Z) (st : polled) (s : session)
    : (outcome + polled) * session :=
  match attempts with
  | [] => (inr st, s)
  | attempt :: rest =>
      match invoke (GetPlaylist playlist_id 5000) s with
      | (Raises exc, s1) =>
          if attempt <? 4
          then poll_after playlist_id video_id before_set_video_ids rest st s1
          else (inl (emit_error (py "Video was added but playlist reload failed.")
                                (py "song_load_failed") 502 exc), s1)
      | (Returns after_snapshot, s1) =>
          let after_tracks :=
            match tracks_field after_snapshot with
            | PList candidate_tracks => candidate_tracks
            | _ => []
            end in
          match after_tracks with
          | [] =>
              poll_after playlist_id video_id before_set_video_ids rest
                         {| after_tracks := []; hits := hits st |} s1
          | _ :: _ =>
              let st1 :=
                {| after_tracks := after_tracks;
                   hits := scan_after video_id before_set_video_ids after_tracks |} in
              if truthy (inserted_set_video_id (hits st1))
                 || truthy (fallback_set_video_id (hits st1))
              then (inr st1, s1)
              else poll_after playlist_id video_id before_set_video_ids rest st1 s1
          end
      end
  end.

(** The part of [handle_insert_video_at_position] after the polling loop. *)
Definition place_inserted (playlist_id video_id : str) (expected_index : Z)
    (st : polled) (s : session) : outcome * session :=
  let after_tracks := after_tracks st in
  let len := Z.of_nat (length after_tracks) in
  match after_tracks with
  | [] => (Done (insert_response playlist_id video_id expected_index false), s)
  | _ :: _ =>
      let '(inserted_set_video_id, inserted_index) := with_fallback (hits st) in
      if negb (truthy inserted_set_video_id)
      then (Done (insert_response playlist_id video_id expected_index false), s)
      else
        let bounded_expected_index := Z.min expected_index (len - 1) in
        if inserted_index =? bounded_expected_index
        then (Done (insert_response playlist_id video_id bounded_expected_index false), s)
        else
          let successor_index := successor_slot inserted_index bounded_expected_index in
          if len <=? successor_index
          then (Done (insert_response playlist_id video_id (len - 1) false), s)
          else
            let successor_set_video_id :=
              successor_scan inserted_set_video_id
                             (drop (Z.to_nat successor_index) after_tracks) in
            if negb (truthy successor_set_video_id)
            then (Done (insert_response playlist_id video_id (len - 1) false), s)
            else
              match invoke (EditPlaylist playlist_id
                              (inserted_set_video_id, successor_set_video_id)) s with
              | (Raises exc, s1) =>
                  (emit_error
                     (py "Video was added but could not be moved to requested position.")
                     (py "playlist_song_move_failed") 502 exc, s1)
              | (Returns _, s1) =>
                  (Done (insert_response playlist_id video_id
                                         bounded_expected_index true), s1)
              end
  end.

Definition handle_insert_video_at_position (payload : dict) (s : session)
    : outcome * session :=
  let playlist_id := safe_str (dict_get payload (py "playlistId")) in
  if negb (truthy playlist_id)
  then (emit_error (py "playlistId is required.") (py "invalid_input") 400 [], s)
  else
    let video_id := safe_str (dict_get payload (py "videoId")) in
    if negb (truthy video_id)
    then (emit_error (py "videoId is required.") (py "invalid_input") 400 [], s)
    else
      match safe_non_negative_int (dict_get payload (py "expectedIndex")) with
      | None =>
          (emit_error (py "expectedIndex must be a non-negative integer.")
                      (py "invalid_input") 400 [], s)
      | Some expected_index =>
          match invoke (GetPlaylist playlist_id 5000) s with
          | (Raises exc, s1) =>
              (emit_error (py "Failed to load playlist songs before insert.")
                          (py "song_load_failed") 502 exc, s1)
          | (Returns before_snapshot, s1) =>
              let before_set_video_ids := before_tokens before_snapshot in
              match invoke (AddPlaylistItems playlist_id [video_id] false) s1 with
              | (Raises exc, s2) =>
                  (emit_error (py "Failed to add video to YouTube Music playlist.")
                              (py "playlist_song_add_failed") 502 exc, s2)
              | (Returns _, s2) =>
                  match poll_after playlist_id video_id before_set_video_ids
                                   [0; 1; 2; 3; 4]
                                   {| after_tracks := []; hits := nothing_found |} s2 with
                  | (inl failure, s3) => (failure, s3)
                  | (inr st, s3) =>
                      place_inserted playlist_id video_id expected_index st s3
                  end
              end
          end
      end.

(** [for _ in range(steps)] of [handle_move_playlist_song]. [inr] is the
    mirror of the order and [final_index] when the loop ends or breaks. *)
Fixpoint move_loop (steps : nat) (direction playlist_id moved_set_video_id : str)
    (tracks : list pyval) (final_index : Z) (s : session)
    : (outcome + list pyval * Z) * session :=
  match steps with
  | O => (inr (tracks, final_index), s)
  | S k =>
      if str_eqb direction (py "up") then
        match getitem tracks (final_index - 1) with
        | None => (inl (Uncaught (py "IndexError")), s)
        | Some predecessor_track =>
            let predecessor_set_video_id := row_token predecessor_track in
            if negb (truthy predecessor_set_video_id)
            then (inr (tracks, final_index), s)
            else
              match invoke (EditPlaylist playlist_id
                              (moved_set_video_id, predecessor_set_video_id)) s with
              | (Raises exc, s1) =>
                  (inl (emit_error (py "Failed to move song in YouTube Music playlist.")
                                   (py "playlist_song_move_failed") 502 exc), s1)
              | (Returns _, s1) =>
                  match swap_items tracks (final_index - 1) final_index with
                  | None => (inl (Uncaught (py "IndexError")), s1)
                  | Some tracks1 =>
                      move_loop k direction playlist_id moved_set_video_id
                                tracks1 (final_index - 1) s1
                  end
              end
        end
      else
        match getitem tracks (final_index + 1) with
        | None => (inl (Uncaught (py "IndexError")), s)
        | Some successor_track =>
            let successor_set_video_id := row_token successor_track in
            if negb (truthy successor_set_video_id)
            then (inr (tracks, final_index), s)
            else
              match invoke (EditPlaylist playlist_id
                              (successor_set_video_id, moved_set_video_id)) s with
              | (Raises exc, s1) =>
                  (inl (emit_error (py "Failed to move song in YouTube Music playlist.")
                                   (py "playlist_song_move_failed") 502 exc), s1)
              | (Returns _, s1) =>
                  match swap_items tracks final_index (final_index + 1) with
                  | None => (inl (Uncaught (py "IndexError")), s1)
                  | Some tracks1 =>
                      move_loop k direction playlist_id moved_set_video_id
                                tracks1 (final_index + 1) s1
                  end
              end
        end
  end.

(** The part of [handle_move_playlist_song] after the row was located. *)
Definition move_located (playlist_id direction : str) (positions : Z)
    (tracks : list pyval) (current_index : Z) (moved_set_video_id : str)
    (s : session) : outcome * session :=
  let steps :=
    if str_eqb direction (py "up") then Z.min positions current_index
    else Z.min positions (Z.of_nat (length tracks) - 1 - current_index) in
  if steps <=? 0
  then (Done (move_response playlist_id false current_index current_index), s)
  else
    let from_index := current_index in
    match move_loop (Z.to_nat steps) direction playlist_id moved_set_video_id
                    tracks current_index s with
    | (inl failure, s1) => (failure, s1)
    | (inr (_, final_index), s1) =>
        (Done (move_response playlist_id (negb (final_index =? from_index))
                             from_index final_index), s1)
    end.

Definition handle_move_playlist_song (payload : dict) (s : session)
    : outcome * session :=
  let playlist_id := safe_str (dict_get payload (py "playlistId")) in
  if negb (truthy playlist_id)
  then (emit_error (py "playlistId is required.") (py "invalid_input") 400 [], s)
  else
    match normalize_playlist_song_ref (dict_get payload (py "song")) with
    | None =>
        (emit_error (py "song must include setVideoId or videoId.")
                    (py "invalid_input") 400 [], s)
    | Some raw_song =>
        let direction := lower (safe_str (dict_get payload (py "direction"))) in
        if negb (str_eqb direction (py "up") || str_eqb direction (py "down"))
        then (emit_error (py "direction must be either 'up' or 'down'.")
                         (py "invalid_input") 400 [], s)
        else
          match safe_non_negative_int (dict_get payload (py "positions")) with
          | None =>
              (emit_error (py "positions must be a positive integer.")
                          (py "invalid_input") 400 [], s)
          | Some positions =>
              if positions <=? 0
              then (emit_error (py "positions must be a positive integer.")
                               (py "invalid_input") 400 [], s)
              else
                match invoke (GetPlaylist playlist_id 5000) s with
                | (Raises exc, s1) =>
                    (emit_error (py "Failed to load playlist songs before move.")
                                (py "song_load_failed") 502 exc, s1)
                | (Returns snapshot, s1) =>
                    match tracks_field snapshot with
                    | PList tracks =>
                        if Z.of_nat (length tracks) <? 2
                        then (Done (move_response playlist_id false 0 0), s1)
                        else
                          let '(current_index, moved_set_video_id) :=
                            locate_playlist_song_index tracks raw_song in
                          if (current_index <? 0) || negb (truthy moved_set_video_id)
                          then (emit_error
                                  (py "Could not find selected song in playlist.")
                                  (py "playlist_song_not_found") 404 [], s1)
                          else move_located playlist_id direction positions tracks
                                            current_index moved_set_video_id s1
                    | _ => (Done (move_response playlist_id false 0 0), s1)
                    end
                end
          end
    end.
(** The payload passes the checks of [handle_move_playlist_song] with
    these values. *)
Definition move_inputs (payload : dict) (playlist_id : str) (raw_song : dict)
    (direction : str) (positions : Z) : Prop :=
  safe_str (dict_get payload (py "playlistId")) = playlist_id
  ∧ playlist_id ≠ []
  ∧ normalize_playlist_song_ref (dict_get payload (py "song")) = Some raw_song
  ∧ lower (safe_str (dict_get payload (py "direction"))) = direction
  ∧ (direction = py "up" ∨ direction = py "down")
  ∧ safe_non_negative_int (dict_get payload (py "positions")) = Some positions
  ∧ 0 < positions.
End Handlers.

(** The referenced row cannot be located, in the words of the
    specification: no row has the reference's position token, and no row
    that carries a token has its external identifier. *)
Definition unlocatable (tracks : list pyval) (song_ref : dict) : Prop :=
  let target_set_video_id := safe_str (dict_get song_ref (py "setVideoId")) in
  let target_video_id := safe_str (dict_get song_ref (py "videoId")) in
  (target_set_video_id ≠ [] →
   ∀ track, track ∈ tracks → row_token track ≠ target_set_video_id)
  ∧ (target_video_id ≠ [] →
     ∀ track, track ∈ tracks →
              row_token track ≠ [] → row_video track ≠ target_video_id).

(** The error a failed reorder call of the relative move ends with. *)
Definition move_failure (o : outcome) : Prop :=
  ∃ exc, o = emit_error (py "Failed to move song in YouTube Music playlist.")
                        (py "playlist_song_move_failed") 502 exc.

(** The number of reorder calls in a log. *)
Definition reorder_count (log : list call) : Z := Z.of_nat (length (reorders log)).

End Load.

(** * Sample runs

    The data of the worked examples: a reference to a row by its token, a
    migration environment in which every check passes, a song that resolves
    to the search result "abc", a song whose title is blank, and the script
    of a client that answers one search and one append. *)
Definition by_token (set_video_id : string) : dict :=
  [(py "setVideoId", PStr (py set_video_id))].

Definition sample_env : Migrate.environment :=
  {| Migrate.import_error := None;
     Migrate.auth_file_var := Some (py "auth.json");
     Migrate.path_exists := fun _ => true;
     Migrate.init_error := None;
     Migrate.debug_var := None |}.

Definition song_a : pyval :=
  PDict [(py "title", PStr (py "Bohemian Rhapsody")); (py "artist", PStr (py "Queen"))].

Definition song_b : dict :=
  [(py "title", PStr (py "  ")); (py "artist", PStr (py "Queen"))].

Definition entry_a : dict :=
  [(py "songKey", PStr (py "song-0")); (py "title", PStr (py "Bohemian Rhapsody"));
   (py "artist", PStr (py "Queen")); (py "album", PStr []);
   (py "expectedIndex", PNone); (py "videoId", PStr (py "abc"));
   (py "matchedTitle", PStr (py "Bohemian Rhapsody"));
   (py "matchedArtists", PStr (py "Queen"))].

Definition batch_fields : dict := [(py "playlistId", PStr (py "PL"))].

Definition batch_script : list reply :=
  [Returns (PList [PDict (Migrate.candidate "Bohemian Rhapsody" "Queen" "abc")]);
   Returns PNone].

Definition batch_calls : list call :=
  [Search (py "Queen Bohemian Rhapsody") (py "songs") 20;
   AddPlaylistItems (py "PL") [py "abc"] false].

(** The script of a client for one insert: the before-snapshot, the append,
    the after-snapshot, the reorder. *)
Definition insert_script (before after : list pyval) : list reply :=
  [Returns (snapshot before); Returns PNone; Returns (snapshot after); Returns PNone].

(** * ytmusic_load.py: the remaining handlers

    The handlers that list, create and delete playlists and remove rows,
    [operation_explicitly_failed], [with_ytmusic] and the dispatch of
    [main]. They call four further methods of the client; these are kept
    apart from the four above, which no handler mixes with them. *)
Module Library.

(** [bool(value)]: what [a or b] and [if value] test. *)
Definition py_truthy (value : pyval) : bool :=
  match value with
  | PNone => false
  | PBool b => b
  | PInt z => negb (z =? 0)
  | PFloat nonzero => nonzero
  | PStr s => truthy s
  | PList l => match l with [] => false | _ :: _ => true end
  | PDict d => match d with [] => false | _ :: _ => true end
  end.

(** [a or b] *)
Definition py_or (a b : pyval) : pyval := if py_truthy a then a else b.

(** [value is False] *)
Definition is_False (value : pyval) : bool :=
  match value with PBool false => true | _ => false end.

(** [remove_playlist_items] is tried with the keyword [videos=] first and
    positionally after a [TypeError]: [by_keyword] tells the two apart. *)
Inductive library_call : Type :=
| GetLibraryPlaylists (limit : Z)
| CreatePlaylist (title description privacy_status : str)
| RemovePlaylistItems (playlist_id : str) (videos : list dict) (by_keyword : bool)
| DeletePlaylist (playlist_id : str).

(** [Throws type_error exc]: the call raises, a [TypeError] or another
    exception, with [str(exc)]. *)
Inductive library_reply : Type :=
| Gives (value : pyval)
| Throws (type_error : bool) (exc : str).

Class Library := {
  shelf : Type;
  answer : library_call -> shelf -> library_reply * shelf;
}.

Record library_session {library : Library} :=
  LibrarySession { held : shelf; asked : list library_call }.

Definition ask {library : Library} (c : library_call) (s : library_session)
    : library_reply * library_session :=
  let '(r, w) := answer c (held s) in
  (r, {| held := w; asked := asked s ++ [c] |}).

(** [json.dumps], total on the values of [pyval]. *)
Class Json := { json_dumps : pyval -> str }.

Section Passthrough.
Context {builtins : Builtins} {library : Library} {json : Json}.

(** The body of the loop of [handle_playlists] on one item. *)
Definition playlist_entry (item : pyval) : option dict :=
  match item with
  | PDict item =>
      let playlist_id :=
        safe_str (py_or (dict_get item (py "playlistId"))
                        (dict_get item (py "browseId"))) in
      if negb (truthy playlist_id) then None
      else
        let title := safe_str (dict_get item (py "title")) in
        let name := if truthy title then title else py "Untitled playlist" in
        Some [(py "id", PStr playlist_id); (py "name", PStr name);
              (py "songs", PList [])]
  | _ => None
  end.

Definition handle_playlists (s : library_session) : outcome * library_session :=
  match ask (GetLibraryPlaylists 500) s with
  | (Throws _ exc, s1) =>
      (emit_error (py "Failed to load YouTube Music playlists.")
                  (py "playlist_load_failed") 502 exc, s1)
  | (Gives raw_playlists, s1) =>
      let playlists :=
        match raw_playlists with
        | PList items => omap playlist_entry items
        | _ => []
        end in
      (Done [(py "ok", PBool true); (py "playlists", PList (map PDict playlists))], s1)
  end.

Definition handle_create_playlist (payload : dict) (s : library_session)
    : outcome * library_session :=
  let name := safe_str (dict_get payload (py "name")) in
  if negb (truthy name)
  then (emit_error (py "name is required.") (py "invalid_input") 400 [], s)
  else
    let description := safe_str (dict_get payload (py "description")) in
    match ask (CreatePlaylist name description (py "PRIVATE")) s with
    | (Throws _ exc, s1) =>
        (emit_error (py "Failed to create YouTube Music playlist.")
                    (py "playlist_create_failed") 502 exc, s1)
    | (Gives playlist_id, s1) =>
        let created_id := safe_str playlist_id in
        if negb (truthy created_id)
        then (emit_error (py "YouTube Music returned an invalid playlist ID.")
                         (py "playlist_create_failed") 502 [], s1)
        else (Done [(py "ok", PBool true);
                    (py "playlist",
                     PDict [(py "id", PStr created_id); (py "name", PStr name);
                            (py "songs", PList [])])], s1)
    end.

Definition operation_explicitly_failed (result : pyval) : bool :=
  if is_False result then true
  else
    match result with
    | PDict d =>
        let status := lower (safe_str (dict_get d (py "status"))) in
        if str_eqb status (py "failed") || str_eqb status (py "error") then true
        else if is_False (dict_get d (py "ok")) then true
        else if is_False (dict_get d (py "success")) then true
        else false
    | _ => false
    end.

(** The references [handle_remove_playlist_items] keeps of its [songs]. *)
Definition usable_refs (raw_songs : list pyval) : list dict :=
  omap Load.normalize_playlist_song_ref raw_songs.

Definition handle_remove_playlist_items (payload : dict) (s : library_session)
    : outcome * library_session :=
  let playlist_id := safe_str (dict_get payload (py "playlistId")) in
  if negb (truthy playlist_id)
  then (emit_error (py "playlistId is required.") (py "invalid_input") 400 [], s)
  else
    match dict_get payload (py "songs") with
    | PList raw_songs =>
        let songs := usable_refs raw_songs in
        match songs with
        | [] =>
            (emit_error
               (py "songs must include at least one item with setVideoId or videoId.")
               (py "invalid_input") 400 [], s)
        | _ :: _ =>
            let failed exc :=
              emit_error (py "Failed to delete songs from YouTube Music playlist.")
                         (py "playlist_song_delete_failed") 502 exc in
            let finish (result : pyval) (s1 : library_session) :=
              if operation_explicitly_failed result
              then (emit_error
                      (py "YouTube Music reported failure when deleting playlist songs.")
                      (py "playlist_song_delete_failed") 502 (json_dumps result), s1)
              else (Done [(py "ok", PBool true); (py "playlistId", PStr playlist_id);
                          (py "deletedCount", PInt (Z.of_nat (length songs)))], s1) in
            match ask (RemovePlaylistItems playlist_id songs true) s with
            | (Gives result, s1) => finish result s1
            | (Throws true _, s1) =>
                match ask (RemovePlaylistItems playlist_id songs false) s1 with
                | (Gives result, s2) => finish result s2
                | (Throws _ exc, s2) => (failed exc, s2)
                end
            | (Throws false exc, s1) => (failed exc, s1)
            end
        end
    | _ => (emit_error (py "songs must be an array.") (py "invalid_input") 400 [], s)
    end.

Definition handle_delete_playlist (payload : dict) (s : library_session)
    : outcome * library_session :=
  let playlist_id := safe_str (dict_get payload (py "playlistId")) in
  if negb (truthy playlist_id)
  then (emit_error (py "playlistId is required.") (py "invalid_input") 400 [], s)
  else
    match ask (DeletePlaylist playlist_id) s with
    | (Throws _ exc, s1) =>
        (emit_error (py "Failed to delete YouTube Music playlist.")
                    (py "playlist_delete_failed") 502 exc, s1)
    | (Gives result, s1) =>
        if operation_explicitly_failed result
        then (emit_error (py "YouTube Music reported failure when deleting playlist.")
                         (py "playlist_delete_failed") 502 (json_dumps result), s1)
        else (Done [(py "ok", PBool true); (py "playlistId", PStr playlist_id)], s1)
    end.
End Passthrough.

(** [with_ytmusic]: [None] when the client is built, the error it emits
    otherwise. The environment is the one [migrate_songs] reads; its
    [debug_var] is not looked at. *)
Definition with_ytmusic (env : Migrate.environment) : option outcome :=
  match Migrate.import_error env with
  | Some exc =>
      Some (emit_error
              (py "ytmusicapi is not installed. Install it with: pip install ytmusicapi")
              (py "missing_dependency") 500 exc)
  | None =>
      let auth_file := strip (default [] (Migrate.auth_file_var env)) in
      if negb (truthy auth_file)
      then Some (emit_error (py "YTMUSIC_AUTH_FILE is not configured.")
                            (py "missing_auth_file") 500 [])
      else if negb (Migrate.path_exists env auth_file)
      then Some (emit_error (py "Auth file does not exist: " ++ auth_file)
                            (py "missing_auth_file") 400 [])
      else
        match Migrate.init_error env with
        | Some exc =>
            Some (emit_error (py "Failed to initialize ytmusicapi. Check your auth file.")
                             (py "auth_init_failed") 400 exc)
        | None => None
        end
  end.

Section Main.
Context {builtins : Builtins} {ytmusic : YTMusic} {library : Library} {json : Json}.

(** [main] after [read_payload]: the payload is the object read from the
    standard input ([{}] when it is blank). The client's state is the pair
    of the two sessions. *)
Definition main (env : Migrate.environment) (payload : dict)
    (s : session) (l : library_session) : outcome * session * library_session :=
  let action :=
    let given := safe_str (dict_get payload (py "action")) in
    if truthy given then given else py "status" in
  match with_ytmusic env with
  | Some failure => (failure, s, l)
  | None =>
      if str_eqb action (py "status")
      then (Done [(py "ok", PBool true); (py "connected", PBool true)], s, l)
      else if str_eqb action (py "playlists")
      then let '(o, l1) := handle_playlists l in (o, s, l1)
      else if str_eqb action (py "playlistSongs")
      then let '(o, s1) := Load.handle_playlist_songs payload s in (o, s1, l)
      else if str_eqb action (py "createPlaylist")
      then let '(o, l1) := handle_create_playlist payload l in (o, s, l1)
      else if str_eqb action (py "removePlaylistItems")
      then let '(o, l1) := handle_remove_playlist_items payload l in (o, s, l1)
      else if str_eqb action (py "deletePlaylist")
      then let '(o, l1) := handle_delete_playlist payload l in (o, s, l1)
      else if str_eqb action (py "insertVideoAtPosition")
      then let '(o, s1) := Load.handle_insert_video_at_position payload s in (o, s1, l)
      else if str_eqb action (py "movePlaylistSong")
      then let '(o, s1) := Load.handle_move_playlist_song payload s in (o, s1, l)
      else (emit_error (py "Unknown ytmusic action.") (py "invalid_input") 400 [], s, l)
  end.
End Main.

End Library.

(** * Words of the further properties *)

(** The row at index [i] is the first row of [rows] with the property [P]. *)
Definition first_row (P : pyval → Prop) (rows : list pyval) (i : nat) : Prop :=
  (∃ row, rows !! i = Some row ∧ P row)
  ∧ ∀ j row, (j < i)%nat → rows !! j = Some row → ¬ P row.

(** The row at index [i] is the last row of [rows] with the property [P]. *)
Definition last_row (P : pyval → Prop) (rows : list pyval) (i : nat) : Prop :=
  (∃ row, rows !! i = Some row ∧ P row)
  ∧ ∀ j row, (i < j)%nat → rows !! j = Some row → ¬ P row.

(** A row that carries the given external identifier and a position token,
    whether it is new or not. *)
Definition carries (video_id : str) (row : pyval) : Prop :=
  row_video row = video_id ∧ row_token row ≠ [].

Definition is_search (c : call) : bool :=
  match c with Search _ _ _ => true | _ => false end.

(** The [code] field of an error payload. *)
Definition error_code (o : outcome) : option str :=
  match o with
  | Failed payload => Some (str_of (dict_get payload (py "code")))
  | _ => None
  end.

(** A client whose every read of the playlist returns a snapshot in which no
    row carries the video together with a token. *)
Definition never_shows {ytmusic : YTMusic} (playlist_id video_id : str) : Prop :=
  ∀ w, ∃ after_snapshot w',
    respond (GetPlaylist playlist_id 5000) w = (Returns after_snapshot, w')
    ∧ ∀ rows row, tracks_field after_snapshot = PList rows → row ∈ rows →
                  ¬ carries video_id row.

(** The reorder call of step [d] of a relative move of the row at index [c]
    with token [moved]: moving up, the row goes before its [d]-th
    predecessor; moving down, its [d]-th successor goes before the row. *)
Definition move_call (up : bool) (playlist_id moved : str) (tracks : list pyval)
    (c : Z) (d : nat) : call :=
  if up then EditPlaylist playlist_id (moved, token_at tracks (c - Z.of_nat d))
  else EditPlaylist playlist_id (token_at tracks (c + Z.of_nat d), moved).

(** The candidates [pick_best_match] takes the maximum of: the results with
    a usable [videoId], narrowed to those that match the artist when an
    artist is given and some do; none when an artist match is required and
    none matches. *)
Definition selection_pool {builtins : Builtins} (results : list pyval)
    (artist : str) (require_artist_match : bool) : list dict :=
  let valid_results := Migrate.valid_results_of results in
  if truthy artist then
    match List.filter (fun result => 0 <? Migrate.artist_match_level result artist)
                      valid_results with
    | [] => if require_artist_match then [] else valid_results
    | artist_filtered => artist_filtered
    end
  else valid_results.

(** The points [score_search_result] gives for the artist, by the level
    [artist_match_level] gives the same result and artist: 5 for an equal
    key, 3 for a contained key, 1 for a shared word. *)
Definition artist_points (level : Z) : Z :=
  if level =? 3 then 5 else if level =? 2 then 3 else if level =? 1 then 1 else 0.

(** The search queries of a song: artist and title, and the same with the
    album when the song has one. *)
Definition queries_of (song : dict) : list str :=
  let title := safe_str (dict_get song (py "title")) in
  let artist := safe_str (dict_get song (py "artist")) in
  let album := safe_str (dict_get song (py "album")) in
  let query := strip (artist ++ py " " ++ title) in
  if truthy album
  then [query; strip (artist ++ py " " ++ title ++ py " " ++ album)]
  else [query].

(** The errors the first loop of [migrate_songs] records for a song. *)
Definition resolution_errors (error : pyval) : Prop :=
  error = PStr (py "Song payload must be an object.")
  ∨ error = PStr (py "Song title is required.")
  ∨ error = PStr (py "No matching song found on YouTube Music.")
  ∨ ∃ exc, error = PStr (py "Search failed: " ++ exc).

(** The merged search results and the set of identifiers seen so far go
    together: the results are objects with pairwise different, non-empty
    identifiers, and the set holds exactly these. *)
Definition merged_ok (merged : list pyval) (seen : gset str) : Prop :=
  NoDup (map row_video merged)
  ∧ (∀ v, v ∈ seen ↔ v ∈ map row_video merged)
  ∧ Forall (fun r => row_video r ≠ [] ∧ ∃ d, r = PDict d) merged.

(** * Further sample instances and data

    A client whose playlist is fixed and whose calls never raise, whatever
    its state: [get_playlist] returns the snapshot of the given rows. Rows
    as [get_playlist] returns them for a read, with a title and artists; a
    playlist in which the appended identifier "abc" occurs on old rows
    only. *)
Definition frozen (rows : list pyval) : YTMusic :=
  {| world := unit;
     respond := fun c w =>
       match c with
       | GetPlaylist _ _ => (Returns (snapshot rows), w)
       | _ => (Returns PNone, w)
       end |}.

Definition titled_row (title artist video_id set_video_id : string) : pyval :=
  PDict [(py "title", PStr (py title));
         (py "artists", PList [PDict [(py "name", PStr (py artist))]]);
         (py "videoId", PStr (py video_id)); (py "setVideoId", PStr (py set_video_id))].

Definition titled_rows : list pyval :=
  [titled_row "Bohemian Rhapsody" "Queen" "abc" "t1";
   titled_row "  " "Queen" "def" "t2";
   PDict [(py "title", PStr (py "Intro"))]].

Definition titled_response : dict :=
  [(py "ok", PBool true);
   (py "songs", PList [PStr (py "Queen - Bohemian Rhapsody"); PStr (py "Intro")]);
   (py "songDetails",
    PList [PDict [(py "title", PStr (py "Bohemian Rhapsody"));
                  (py "artist", PStr (py "Queen")); (py "album", PStr []);
                  (py "videoId", PStr (py "abc")); (py "setVideoId", PStr (py "t1"))];
           PDict [(py "title", PStr (py "Intro")); (py "artist", PStr []);
                  (py "album", PStr []); (py "videoId", PStr []);
                  (py "setVideoId", PStr [])]])].

Definition stale_rows : list pyval := [row "abc" "t1"; row "b" "t2"; row "abc" "t3"].

(** * Properties *)

(** ** Truth values and equality of strings *)
Lemma truthy_true (s : str) : truthy s = true ↔ s ≠ [].
Proof. by destruct s. Qed.

Lemma truthy_false (s : str) : truthy s = false ↔ s = [].
Proof. by destruct s. Qed.

Lemma str_eqb_eq (a b : str) : str_eqb a b = true ↔ a = b.
Proof. unfold str_eqb. apply bool_decide_eq_true. Qed.

Lemma str_eqb_neq (a b : str) : str_eqb a b = false ↔ a ≠ b.
Proof. unfold str_eqb. apply bool_decide_eq_false. Qed.

(** ** The normalizer *)
Section NormalizerFacts.
Context {builtins : Builtins}.
Import Migrate.

Lemma az09_not_space c : is_az09 c = true → isspace c = false.
Proof. unfold is_az09, isspace. intros Hc. lia. Qed.

Lemma az09_lower_at s i c : is_az09 c = true → lower_at s i c = [c].
Proof.
  unfold is_az09, lower_at, ascii_lower, is_upper. intros Hc.
  replace (c <? 128)%N with true by lia.
  replace ((65 <=? c) && (c <=? 90))%N with false by lia. done.
Qed.

Lemma space_lower_at s i : lower_at s i 32%N = [32%N].
Proof. done. Qed.

Lemma concat_imap_id (f : nat → char → list char) (s : str) :
  (∀ i c, s !! i = Some c → f i c = [c]) → concat (imap f s) = s.
Proof.
  revert f. induction s as [|c s IH]; intros f Hf; [done|].
  cbn. rewrite (Hf 0%nat c eq_refl). cbn. f_equal.
  apply IH. intros i d Hd. apply (Hf (S i)). done.
Qed.

Lemma lower_fixed (s : str) :
  Forall (fun c => is_az09 c = true ∨ c = 32%N) s → lower s = s.
Proof.
  intros Hs. unfold lower. apply concat_imap_id. intros i c Hc.
  rewrite Forall_forall in Hs.
  destruct (Hs c) as [Ha | ->].
  - eapply list_elem_of_lookup_2. exact Hc.
  - by apply az09_lower_at.
  - apply space_lower_at.
Qed.

Lemma sub_runs_word_app b w s :
  Forall (fun c => is_az09 c = true) w → w ≠ [] →
  sub_runs b (w ++ s) = w ++ sub_runs false s.
Proof.
  intros Hw. revert b. induction Hw as [|c w Hc Hw IH]; intros b Hne; [done|].
  cbn. rewrite Hc. f_equal.
  destruct w as [|d w]; [done|]. by apply IH.
Qed.

Lemma sub_runs_words b ws :
  Forall word ws → sub_runs b (join (py " ") ws) = join (py " ") ws.
Proof.
  intros Hws. revert b. induction Hws as [|w ws [Hne Hw] Hws IH]; intros b; [done|].
  destruct ws as [|w' ws].
  - cbn. rewrite <- (app_nil_r w) at 1. rewrite sub_runs_word_app by done.
    cbn. by rewrite app_nil_r.
  - change (join (py " ") (w :: w' :: ws))
      with (w ++ py " " ++ join (py " ") (w' :: ws)).
    rewrite sub_runs_word_app by done. f_equal.
    change (py " " ++ join (py " ") (w' :: ws))
      with (32%N :: join (py " ") (w' :: ws)).
    cbn [sub_runs]. change (is_az09 32%N) with false. cbn match.
    f_equal. apply IH.
Qed.

Lemma split_runs_word_app cur w s :
  Forall (fun c => is_az09 c = true) w →
  split_runs cur (w ++ s) = split_runs (cur ++ w) s.
Proof.
  intros Hw. revert cur. induction Hw as [|c w Hc Hw IH]; intros cur.
  - by rewrite app_nil_r.
  - cbn. rewrite (az09_not_space c Hc). rewrite IH. by rewrite <- app_assoc.
Qed.

Lemma split_ws_words ws :
  Forall word ws → split_ws (join (py " ") ws) = ws.
Proof.
  unfold split_ws. intros Hws.
  induction Hws as [|w ws [Hne Hw] Hws IH]; [done|].
  destruct ws as [|w' ws].
  - cbn [join]. rewrite <- (app_nil_r w) at 1.
    rewrite split_runs_word_app by done. cbn. by destruct w.
  - change (join (py " ") (w :: w' :: ws))
      with (w ++ 32%N :: join (py " ") (w' :: ws)).
    rewrite split_runs_word_app by done. cbn [app split_runs].
    change (isspace 32%N) with true. cbn match.
    destruct w; [done|]. by rewrite IH.
Qed.

Lemma join_words_chars ws :
  Forall word ws →
  Forall (fun c => is_az09 c = true ∨ c = 32%N) (join (py " ") ws).
Proof.
  intros Hws. induction Hws as [|w ws [Hne Hw] Hws IH]; [constructor|].
  assert (Forall (fun c => is_az09 c = true ∨ c = 32%N) w) as Hw'.
  { eapply Forall_impl; [exact Hw|]. intros c Hc. by left. }
  destruct ws as [|w' ws]; [done|].
  change (join (py " ") (w :: w' :: ws))
    with (w ++ 32%N :: join (py " ") (w' :: ws)).
  apply Forall_app. split; [done|]. constructor; [by right | done].
Qed.

Lemma normalize_words ws :
  Forall word ws → normalize (join (py " ") ws) = join (py " ") ws.
Proof.
  intros Hws. unfold normalize, re_sub_non_alnum.
  rewrite lower_fixed by by apply join_words_chars.
  rewrite sub_runs_words by done. by rewrite split_ws_words.
Qed.

Lemma sub_runs_chars b s :
  Forall (fun c => is_az09 c = true ∨ c = 32%N) (sub_runs b s).
Proof.
  revert b. induction s as [|c s IH]; intros b; [constructor|].
  cbn. destruct (is_az09 c) eqn:Hc.
  - constructor; [by left | apply IH].
  - destruct b; [apply IH|]. constructor; [by right | apply IH].
Qed.

Lemma split_runs_are_words cur s :
  Forall (fun c => is_az09 c = true) cur →
  Forall (fun c => is_az09 c = true ∨ c = 32%N) s →
  Forall word (split_runs cur s).
Proof.
  intros Hcur Hs. revert cur Hcur.
  induction Hs as [|c s Hc Hs IH]; intros cur Hcur.
  - cbn. destruct cur; [constructor|]. constructor; [|constructor]. by split.
  - cbn. destruct Hc as [Hc | ->].
    + rewrite (az09_not_space c Hc). apply IH.
      apply Forall_app. split; [done|]. by constructor.
    + change (isspace 32%N) with true. cbn match.
      destruct cur as [|d cur]; [by apply IH|].
      constructor; [by split | by apply IH].
Qed.

Lemma normalize_is_words s :
  ∃ ws, Forall word ws ∧ normalize s = join (py " ") ws.
Proof.
  exists (split_ws (re_sub_non_alnum (lower s))). split; [|done].
  apply split_runs_are_words; [constructor | apply sub_runs_chars].
Qed.

(** The substitution followed by the split reads off the runs of [a-z0-9]. *)
Lemma split_sub_runs (b : bool) (cur s : str) :
  (b = true → cur = []) →
  Forall (fun c => is_az09 c = true) cur →
  split_runs cur (sub_runs b s) = runs_from cur s.
Proof.
  revert b cur. induction s as [|c s IH]; intros b cur Hb Hcur; [done|].
  cbn [sub_runs runs_from]. destruct (is_az09 c) eqn:Hc.
  - cbn [split_runs]. rewrite (az09_not_space c Hc). apply IH; [done|].
    apply Forall_app. split; [done | by constructor].
  - destruct b.
    + rewrite (Hb eq_refl). by apply IH.
    + cbn [split_runs]. change (isspace 32%N) with true. cbn match.
      destruct cur; by rewrite (IH true []).
Qed.

Lemma lower_ascii (s : str) :
  Forall (fun c => (c < 128)%N) s → lower s = concat (map (fun c => [ascii_lower c]) s).
Proof.
  intros Hs. unfold lower.
  assert (∀ (f : nat → char → list char) (l : str),
            (∀ i c, l !! i = Some c → f i c = [ascii_lower c]) →
            concat (imap f l) = concat (map (fun c => [ascii_lower c]) l)) as Himap.
  { intros f l. revert f. induction l as [|c l IH]; intros f Hf; [done|].
    cbn. rewrite (Hf 0%nat c eq_refl). cbn. f_equal.
    apply IH. intros i d Hd. by apply (Hf (S i)). }
  apply Himap. intros i c Hc. unfold lower_at.
  rewrite Forall_forall in Hs.
  assert (c < 128)%N as Hlt by (eapply Hs, list_elem_of_lookup_2, Hc).
  by replace (c <? 128)%N with true by lia.
Qed.

(** C6. Normalizing twice gives what normalizing once gives, for every
    string. What [normalize] returns is the maximal runs of characters of
    [a-z0-9] of the lower-cased input joined by single spaces: non-empty
    words over [a-z0-9], every run of other characters collapsed to the one
    space between two words, none at either end. On an ASCII string the
    lower-casing maps A-Z to a-z, so a string and its lower case have the
    same key; and [normalize("Bohemian-Rhapsody!!")] equals
    [normalize("bohemian rhapsody")]. *)
Theorem normalize_idempotent :
  (∀ s : str, normalize (normalize s) = normalize s)
  ∧ (∀ s : str, normalize s = join (py " ") (alnum_runs (lower s)))
  ∧ (∀ s : str, Forall word (alnum_runs (lower s)))
  ∧ (∀ s : str, Forall (fun c => (c < 128)%N) s →
                normalize (map ascii_lower s) = normalize s)
  ∧ normalize (py "Bohemian-Rhapsody!!") = normalize (py "bohemian rhapsody")
  ∧ normalize (py "Bohemian-Rhapsody!!") = py "bohemian rhapsody".
Proof.
  assert (∀ s : str, split_ws (re_sub_non_alnum (lower s)) = alnum_runs (lower s))
    as Hruns.
  { intros s. by apply split_sub_runs. }
  split; [|split; [|split; [|split; [|split; reflexivity]]]].
  - intros s. destruct (normalize_is_words s) as (ws & Hws & ->).
    by apply normalize_words.
  - intros s. unfold normalize. by rewrite Hruns.
  - intros s. rewrite <- Hruns.
    apply split_runs_are_words; [constructor | apply sub_runs_chars].
  - intros s Hs. unfold normalize. f_equal. f_equal. f_equal.
    assert (∀ l : str, concat (map (fun c => [ascii_lower c]) l) = map ascii_lower l)
      as Hmap.
    { induction l as [|c l IH]; [done|]. cbn. by rewrite IH. }
    rewrite !lower_ascii, !Hmap; [|done|].
    + rewrite map_map. apply map_ext. intros c.
      unfold ascii_lower, is_upper.
      destruct ((65 <=? c) && (c <=? 90))%N eqn:Hc; [|by rewrite Hc].
      by replace ((65 <=? c + 32) && (c + 32 <=? 90))%N with false by lia.
    + apply Forall_forall. intros c Hc.
      apply list_elem_of_fmap in Hc as (d & -> & Hd).
      rewrite Forall_forall in Hs. specialize (Hs d Hd).
      unfold ascii_lower, is_upper. destruct ((65 <=? d) && (d <=? 90))%N eqn:Hd'; lia.
Qed.
End NormalizerFacts.

(** ** The match scorer *)
Section ScorerFacts.
Context {builtins : Builtins}.
Import Migrate.

Lemma max_from_spec {A} (key : A → Z) (items : list A) (best : A) :
  let m := max_from key best items in
  (m = best ∨ m ∈ items) ∧ key best ≤ key m ∧ ∀ y, y ∈ items → key y ≤ key m.
Proof.
  revert best. induction items as [|x items IH]; intros best; cbn.
  - split; [by left|]. split; [lia|]. intros y Hy. by apply not_elem_of_nil in Hy.
  - destruct (key best <? key x) eqn:Hlt.
    + destruct (IH x) as (Hin & Hle & Hall). split; [|split].
      * right. destruct Hin as [-> | Hin]; [left | by right].
      * lia.
      * intros y [-> | Hy]%elem_of_cons; [done | by apply Hall].
    + destruct (IH best) as (Hin & Hle & Hall). split; [|split].
      * destruct Hin as [-> | Hin]; [by left | right; by right].
      * done.
      * intros y [-> | Hy]%elem_of_cons; [lia | by apply Hall].
Qed.

(** [max] returns one of the items, and none has a greater key. *)
Lemma py_max_spec {A} (key : A → Z) (items : list A) :
  items ≠ [] →
  ∃ m, py_max key items = Some m ∧ m ∈ items ∧ ∀ y, y ∈ items → key y ≤ key m.
Proof.
  destruct items as [|x items]; [done|]. intros _.
  destruct (max_from_spec key items x) as (Hin & Hle & Hall).
  exists (max_from key x items). split; [done|]. split.
  - destruct Hin as [-> | Hin]; [left | by right].
  - intros y [-> | Hy]%elem_of_cons; [done | by apply Hall].
Qed.

(** C4. Against the target ("Bohemian Rhapsody", "Queen", no album), the
    candidate A ("Bohemian Rhapsody", "Queen", id "abc") scores 15 = 8 + 5 + 2
    and B ("Bohemian Rhapsody (Remastered)", "Queen", id "def") scores
    12 = 5 + 5 + 2; the selector returns A, whichever of the two comes first
    and whether an artist match is required or not. The artist of a
    candidate may be given as a list of named artists or as a text. *)
Theorem bohemian_rhapsody_scores :
  ∀ shape : string → string → string → dict,
    shape = candidate ∨ shape = candidate_text →
    let A := shape "Bohemian Rhapsody"%string "Queen"%string "abc"%string in
    let B := shape "Bohemian Rhapsody (Remastered)"%string "Queen"%string
                   "def"%string in
    let title := py "Bohemian Rhapsody" in
    let artist := py "Queen" in
    score_search_result A title artist = 15
    ∧ score_search_result B title artist = 12
    ∧ total_score title artist [] A = 15
    ∧ total_score title artist [] B = 12
    ∧ ∀ require_artist_match : bool,
        pick_best_match [PDict A; PDict B] title artist [] require_artist_match = Some A
        ∧ pick_best_match [PDict B; PDict A] title artist [] require_artist_match = Some A.
Proof.
  intros shape [-> | ->]; cbv zeta;
    repeat split; try reflexivity; destruct require_artist_match; reflexivity.
Qed.

(** The artist match level: 3 when the two comparison keys are equal, 2 when
    the target's key occurs in the result's, 1 when one of its words does,
    0 otherwise and whenever one of the keys is empty. *)
Lemma artist_match_levels (result : dict) (artist : str) :
  let target := normalize artist in
  let found := normalize (extract_artist_text result) in
  let level := artist_match_level result artist in
  0 ≤ level ≤ 3
  ∧ (level = 3 ↔ target ≠ [] ∧ found = target)
  ∧ (level = 2 ↔ target ≠ [] ∧ found ≠ [] ∧ found ≠ target
                 ∧ contains found target = true)
  ∧ (level = 1 ↔ target ≠ [] ∧ found ≠ [] ∧ found ≠ target
                 ∧ contains found target = false
                 ∧ any_token_in target found = true).
Proof.
  cbv zeta. unfold artist_match_level.
  destruct (normalize artist) as [|a0 a] eqn:Ha; cbn [truthy negb];
    [split; [lia|]; repeat split; intros; destruct_and?; try lia; try done|].
  destruct (normalize (extract_artist_text result)) as [|r0 r] eqn:Hr; cbn [truthy negb];
    [split; [lia|]; repeat split; intros; destruct_and?; try lia; try done|].
  destruct (str_eqb (r0 :: r) (a0 :: a)) eqn:He;
    [apply str_eqb_eq in He | apply str_eqb_neq in He];
    [split; [lia|]; repeat split; intros; destruct_and?; try lia; try done|].
  destruct (contains (r0 :: r) (a0 :: a)) eqn:Hc;
    [split; [lia|]; repeat split; intros; destruct_and?; try lia; try done|].
  destruct (any_token_in (a0 :: a) (r0 :: r)) eqn:Ht;
    split; [lia| |lia|]; repeat split; intros; destruct_and?; try lia; try done.
Qed.

(** C5. For a non-empty target artist: when no result with a usable videoId
    has a positive artist match level (exact 3, substring 2, token overlap 1,
    else 0), the selection that requires an artist match finds nothing, and
    the selection that does not takes a best-scored one of all the results
    with a usable videoId (nothing when there is none); when some such result
    has a positive level, both selections take a best-scored one of those
    with a positive level. *)
Theorem artist_filter_policy
    (results : list pyval) (title artist album : str) :
  artist ≠ [] →
  let valid := valid_results_of results in
  let matching := List.filter (λ r, 0 <? artist_match_level r artist) valid in
  let target := normalize artist in
  (matching = [] →
     pick_best_match results title artist album true = None
     ∧ pick_best_match results title artist album false
       = py_max (total_score title artist album) valid
     ∧ (valid = [] → pick_best_match results title artist album false = None)
     ∧ (valid ≠ [] →
        ∃ r, pick_best_match results title artist album false = Some r
             ∧ r ∈ valid
             ∧ ∀ y, y ∈ valid →
                    total_score title artist album y ≤ total_score title artist album r))
  ∧ (matching ≠ [] →
     ∀ require_artist_match : bool,
       ∃ r, pick_best_match results title artist album require_artist_match = Some r
            ∧ r ∈ valid ∧ 0 < artist_match_level r artist
            ∧ ∀ y, y ∈ valid → 0 < artist_match_level y artist →
                   total_score title artist album y ≤ total_score title artist album r)
  ∧ (∀ r : dict,
       let found := normalize (extract_artist_text r) in
       let level := artist_match_level r artist in
       0 ≤ level ≤ 3
       ∧ (level = 3 ↔ target ≠ [] ∧ found = target)
       ∧ (level = 2 ↔ target ≠ [] ∧ found ≠ [] ∧ found ≠ target
                      ∧ contains found target = true)
       ∧ (level = 1 ↔ target ≠ [] ∧ found ≠ [] ∧ found ≠ target
                      ∧ contains found target = false
                      ∧ any_token_in target found = true)).
Proof.
  intros Hartist valid matching target.
  assert (truthy artist = true) as Ht by by destruct artist.
  split; [|split].
  - intros Hnone. unfold pick_best_match. fold valid. rewrite Ht. fold matching.
    rewrite Hnone. destruct valid as [|v valid'] eqn:Hv.
    + repeat split; done.
    + repeat split; try done. intros _.
      apply (py_max_spec (total_score title artist album) (v :: valid')). done.
  - intros Hsome flag. unfold pick_best_match. fold valid. rewrite Ht. fold matching.
    destruct valid as [|v valid'] eqn:Hv; [done|].
    destruct matching as [|m matching'] eqn:Hm; [done|].
    destruct (py_max_spec (total_score title artist album) (m :: matching'))
      as (r & Hr & Hin & Hmax); [done|].
    exists r. split; [done|].
    rewrite <- Hm in Hin, Hmax. unfold matching in Hin, Hmax.
    apply list_elem_of_In, filter_In in Hin as [Hin Hlvl].
    split; [by apply list_elem_of_In|]. split; [lia|].
    intros y Hy Hy'. apply Hmax. apply list_elem_of_In, filter_In.
    split; [by apply list_elem_of_In | lia].
  - intros r. apply artist_match_levels.
Qed.
End ScorerFacts.

(** ** The reconciler *)
Section ReconcilerFacts.

(** Scanning down over rows none of which is new leaves the inserted pair
    as it was. *)
Lemma scan_down_no_new video_id before after n st :
  (∀ j row, (j < n)%nat → after !! j = Some row → ¬ new_row video_id before row) →
  inserted_set_video_id (scan_down video_id before after n st)
    = inserted_set_video_id st
  ∧ inserted_index (scan_down video_id before after n st) = inserted_index st.
Proof.
  revert st. induction n as [|k IH]; intros st Hnone; [done|].
  assert (∀ st', inserted_set_video_id (scan_down video_id before after k st')
                   = inserted_set_video_id st'
                 ∧ inserted_index (scan_down video_id before after k st')
                   = inserted_index st') as IH'.
  { intros st'. apply IH. intros j row Hj. apply Hnone. lia. }
  cbn [scan_down]. destruct (after !! k) as [row|] eqn:Hk; [|apply IH'].
  destruct row as [| | | | | |track]; try apply IH'.
  destruct (str_eqb (safe_str (dict_get track (py "videoId"))) video_id) eqn:Hv;
    cbn [negb]; [|apply IH'].
  destruct (truthy (safe_str (dict_get track (py "setVideoId")))) eqn:Ht;
    cbn [andb]; [|apply IH'].
  destruct (bool_decide (safe_str (dict_get track (py "setVideoId")) ∈ before)) eqn:Hb;
    cbn [negb].
  - destruct (truthy (fallback_set_video_id st)); cbn [negb]; exact (IH' _).
  - exfalso. apply (Hnone k (PDict track)); [lia | done |].
    split; [by apply str_eqb_eq|]. split; [by apply truthy_true|].
    by apply bool_decide_eq_false in Hb.
Qed.

(** Scanning down from above a new row, with no new row in between, stops
    at that row. *)
Lemma scan_down_new video_id before after n st i row :
  (i < n)%nat → after !! i = Some row → new_row video_id before row →
  (∀ j row', (i < j < n)%nat → after !! j = Some row' →
             ¬ new_row video_id before row') →
  inserted_set_video_id (scan_down video_id before after n st) = row_token row
  ∧ inserted_index (scan_down video_id before after n st) = Z.of_nat i.
Proof.
  intros Hi Hrow (Hvideo & Htoken & Hfresh). revert st.
  induction n as [|k IH]; intros st Hnone; [lia|].
  destruct (decide (i = k)) as [-> | Hne].
  - cbn [scan_down]. rewrite Hrow.
    destruct row as [| | | | | |track]; try done.
    cbn in Hvideo, Htoken, Hfresh.
    apply str_eqb_eq in Hvideo. rewrite Hvideo. cbn [negb].
    apply truthy_true in Htoken. rewrite Htoken.
    apply (bool_decide_eq_false_2 _) in Hfresh. rewrite Hfresh. done.
  - assert (∀ st', inserted_set_video_id (scan_down video_id before after k st')
                     = row_token row
                   ∧ inserted_index (scan_down video_id before after k st')
                     = Z.of_nat i) as IH'.
    { intros st'. apply IH; [lia|]. intros j row' Hj. apply Hnone. lia. }
    cbn [scan_down]. destruct (after !! k) as [row'|] eqn:Hk; [|apply IH'].
    destruct row' as [| | | | | |track]; try apply IH'.
    destruct (str_eqb (safe_str (dict_get track (py "videoId"))) video_id) eqn:Hv;
      cbn [negb]; [|apply IH'].
    destruct (truthy (safe_str (dict_get track (py "setVideoId")))) eqn:Ht;
      cbn [andb]; [|apply IH'].
    destruct (bool_decide (safe_str (dict_get track (py "setVideoId")) ∈ before))
      eqn:Hb; cbn [negb].
    + destruct (truthy (fallback_set_video_id st)); cbn [negb]; exact (IH' _).
    + exfalso. apply (Hnone k (PDict track)); [lia | done |].
      split; [by apply str_eqb_eq|]. split; [by apply truthy_true|].
      by apply bool_decide_eq_false in Hb.
Qed.

(** C1. For every before-set and every after-snapshot, the scan from the
    last row to the first reports as the inserted row the last row of the
    snapshot whose videoId is the appended one and whose setVideoId is
    non-empty and absent from the before-set, and that row is the one the
    reconciler goes on with; if there is no such row, the scan reports no
    inserted row. With before tokens t1, t2, t3 and the after-snapshot
    t1, t2, t3, t4 whose t4 row carries the appended id, the row found is t4
    at index 3, whatever the videoIds of the other three rows are. *)
Theorem reconciler_finds_new_row :
  (∀ (video_id : str) (before : gset str) (after : list pyval) (i : nat) (row : pyval),
     after !! i = Some row →
     new_row video_id before row →
     (∀ j row', (i < j)%nat → after !! j = Some row' →
                ¬ new_row video_id before row') →
     inserted_set_video_id (scan_after video_id before after) = row_token row
     ∧ inserted_index (scan_after video_id before after) = Z.of_nat i
     ∧ with_fallback (scan_after video_id before after)
       = (row_token row, Z.of_nat i))
  ∧ (∀ (video_id : str) (before : gset str) (after : list pyval),
       (∀ j row, after !! j = Some row → ¬ new_row video_id before row) →
       inserted_set_video_id (scan_after video_id before after) = []
       ∧ inserted_index (scan_after video_id before after) = -1)
  ∧ (∀ v1 v2 v3 : pyval,
       let before : gset str := {[ py "t1"; py "t2"; py "t3" ]} in
       let after :=
         [entry v1 (PStr (py "t1")); entry v2 (PStr (py "t2"));
          entry v3 (PStr (py "t3")); entry (PStr (py "abc")) (PStr (py "t4"))] in
       with_fallback (scan_after (py "abc") before after) = (py "t4", 3)).
Proof.
  split; [|split].
  - intros video_id before after i row Hrow Hnew Hlast.
    assert (i < length after)%nat as Hi by (eapply lookup_lt_Some; exact Hrow).
    destruct (scan_down_new video_id before after (length after) nothing_found i row)
      as [Htok Hidx]; try done.
    { intros j row' Hj. apply Hlast. lia. }
    unfold scan_after. split; [done|]. split; [done|].
    unfold with_fallback. rewrite Htok, Hidx.
    destruct Hnew as (_ & Hne & _). apply truthy_true in Hne. by rewrite Hne.
  - intros video_id before after Hnone. unfold scan_after.
    apply (scan_down_no_new video_id before after (length after) nothing_found).
    intros j row _. apply Hnone.
  - intros v1 v2 v3. reflexivity.
Qed.
End ReconcilerFacts.

(** ** Insert at an absolute index *)
Section InsertFacts.
Context {builtins : Builtins} {ytmusic : YTMusic}.

Lemma successor_scan_first inserted rows j row :
  rows !! j = Some row → row_token row ≠ [] → row_token row ≠ inserted →
  (∀ k row', (k < j)%nat → rows !! k = Some row' →
             row_token row' = [] ∨ row_token row' = inserted) →
  successor_scan inserted rows = row_token row.
Proof.
  revert j. induction rows as [|r rows IH]; intros j Hj Hne Hdiff Hskip; [done|].
  destruct j as [|j].
  - injection Hj as ->. destruct row as [| | | | | |t]; try done.
    cbn in *. apply truthy_true in Hne. apply str_eqb_neq in Hdiff.
    by rewrite Hne, Hdiff.
  - assert (successor_scan inserted rows = row_token row) as Hrest.
    { apply (IH j); try done. intros k row' Hk. apply (Hskip (S k)). lia. }
    destruct (Hskip 0%nat r) as [Hr | Hr]; [lia | done | |];
      destruct r as [| | | | | |t]; try done; cbn in *.
    + apply truthy_false in Hr. by rewrite Hr.
    + apply str_eqb_eq in Hr. rewrite Hr. by rewrite andb_false_r.
Qed.

Lemma successor_scan_none inserted rows :
  (∀ k row', rows !! k = Some row' →
             row_token row' = [] ∨ row_token row' = inserted) →
  successor_scan inserted rows = [].
Proof.
  induction rows as [|r rows IH]; intros Hskip; [done|].
  assert (successor_scan inserted rows = []) as Hrest.
  { apply IH. intros k row'. apply (Hskip (S k)). }
  destruct (Hskip 0%nat r) as [Hr | Hr]; [done | |];
    destruct r as [| | | | | |t]; try done; cbn in *.
  - apply truthy_false in Hr. by rewrite Hr.
  - apply str_eqb_eq in Hr. rewrite Hr. by rewrite andb_false_r.
Qed.

Lemma reorders_app (l1 l2 : list call) : reorders (l1 ++ l2) = reorders l1 ++ reorders l2.
Proof. unfold reorders. apply List.filter_app. Qed.

Lemma invoke_calls (c : call) (s : session) : calls (invoke c s).2 = calls s ++ [c].
Proof. unfold invoke. by destruct (respond c (remote s)). Qed.

(** C2, amended. The target is clamped to t = min(e, N-1). If the
    reconciled index i equals t, no call is issued and the response reports
    moved false at t. Otherwise the successor slot is t+1 when i < t and t
    when i > t; the successor token is the token of the first row at or
    after the slot whose token is non-empty and differs from the inserted
    token, exactly one reorder call is issued against it, and when that call
    returns the response reports insertedIndex t and moved true; if no row
    at or after the slot has such a token, no call is issued and the
    response reports moved false. With N = 4, i = 3, e = 1 and a row at
    index 1 carrying a token other than the inserted one, the one reorder
    call is against the token at index 1 and the response reports
    insertedIndex 1 and moved true. *)
Theorem insert_plan
    (playlist_id video_id : str) (expected_index : Z) (after : list pyval)
    (h : found) (inserted : str) (i : Z) (s : session) :
  let N := Z.of_nat (length after) in
  let t := Z.min expected_index (N - 1) in
  let slot := if i <? t then t + 1 else t in
  let run :=
    Load.place_inserted playlist_id video_id expected_index
                        {| after_tracks := after; hits := h |} s in
  let reorder successor := EditPlaylist playlist_id (inserted, successor) in
  1 ≤ N → 0 ≤ expected_index →
  with_fallback h = (inserted, i) → inserted ≠ [] → 0 ≤ i < N →
  (i = t → run = (Done (Load.insert_response playlist_id video_id t false), s))
  ∧ (i ≠ t →
     successor_slot i t = slot
     ∧ (∀ (j : nat) (successor_row : pyval),
          slot ≤ Z.of_nat j → after !! j = Some successor_row →
          row_token successor_row ≠ [] → row_token successor_row ≠ inserted →
          (∀ (k : nat) (skipped : pyval),
             slot ≤ Z.of_nat k → (k < j)%nat → after !! k = Some skipped →
             row_token skipped = [] ∨ row_token skipped = inserted) →
          calls run.2 = calls s ++ [reorder (row_token successor_row)]
          ∧ ∀ v, (invoke (reorder (row_token successor_row)) s).1 = Returns v →
                 run.1 = Done (Load.insert_response playlist_id video_id t true))
     ∧ ((∀ (k : nat) (skipped : pyval),
           slot ≤ Z.of_nat k → after !! k = Some skipped →
           row_token skipped = [] ∨ row_token skipped = inserted) →
        run = (Done (Load.insert_response playlist_id video_id (N - 1) false), s)))
  ∧ (N = 4 → i = 3 → expected_index = 1 →
     ∀ row1, after !! 1%nat = Some row1 →
             row_token row1 ≠ [] → row_token row1 ≠ inserted →
             calls run.2 = calls s ++ [reorder (row_token row1)]
             ∧ ∀ v, (invoke (reorder (row_token row1)) s).1 = Returns v →
                    run.1 = Done (Load.insert_response playlist_id video_id 1 true)).
Proof.
  intros N t slot run reorder HN He Hh Hins Hi.
  assert (truthy inserted = true) as Htr by by apply truthy_true.
  assert (0 ≤ t < N) as Ht by (unfold t; lia).
  assert (∃ r0 rest, after = r0 :: rest) as (r0 & rest & Hafter).
  { destruct after as [|r0 rest]; [cbn in N; lia | by eexists _, _]. }
  assert (successor_slot i t = slot) as Hslot.
  { unfold successor_slot, slot. replace (0 <=? i) with true by lia. done. }
  (* what the code does once the index differs from the target *)
  assert (i ≠ t →
          run = (if N <=? slot
                 then (Done (Load.insert_response playlist_id video_id (N - 1) false), s)
                 else
                   let successor :=
                     successor_scan inserted (drop (Z.to_nat slot) after) in
                   if negb (truthy successor)
                   then (Done (Load.insert_response playlist_id video_id (N - 1) false), s)
                   else
                     match invoke (reorder successor) s with
                     | (Raises exc, s1) =>
                         (emit_error
                            (py "Video was added but could not be moved to requested position.")
                            (py "playlist_song_move_failed") 502 exc, s1)
                     | (Returns _, s1) =>
                         (Done (Load.insert_response playlist_id video_id t true), s1)
                     end)) as Hrun.
  { intros Hne. unfold run, Load.place_inserted. cbn [after_tracks hits].
    rewrite Hh, Htr. cbn [negb]. fold N. fold t.
    replace (i =? t) with false by lia. rewrite Hslot.
    rewrite Hafter at 1. done. }
  assert (∀ (j : nat) (successor_row : pyval),
            slot ≤ Z.of_nat j → after !! j = Some successor_row →
            row_token successor_row ≠ [] → row_token successor_row ≠ inserted →
            (∀ (k : nat) (skipped : pyval),
               slot ≤ Z.of_nat k → (k < j)%nat → after !! k = Some skipped →
               row_token skipped = [] ∨ row_token skipped = inserted) →
            i ≠ t →
            calls run.2 = calls s ++ [reorder (row_token successor_row)]
            ∧ ∀ v, (invoke (reorder (row_token successor_row)) s).1 = Returns v →
                   run.1 = Done (Load.insert_response playlist_id video_id t true))
    as Hfound.
  { intros j successor_row Hj Hrow Hne Hdiff Hskip Hit.
    assert (0 ≤ slot) as Hslot0 by (unfold slot; destruct (i <? t); lia).
    assert (j < length after)%nat as Hjlen by (eapply lookup_lt_Some; exact Hrow).
    assert (successor_scan inserted (drop (Z.to_nat slot) after)
            = row_token successor_row) as Hscan.
    { apply (successor_scan_first _ _ (j - Z.to_nat slot)); try done.
      - rewrite lookup_drop. rewrite <- Hrow. f_equal. lia.
      - intros k row' Hk. rewrite lookup_drop. apply Hskip; lia. }
    rewrite (Hrun Hit). replace (N <=? slot) with false by lia.
    cbv zeta. rewrite Hscan.
    apply truthy_true in Hne. rewrite Hne. cbn [negb].
    pose proof (invoke_calls (reorder (row_token successor_row)) s) as Hcalls.
    destruct (invoke (reorder (row_token successor_row)) s) as [[v|exc] s1] eqn:Hinv;
      cbn [fst snd] in *; split; done. }
  split; [|split].
  - intros ->. unfold run, Load.place_inserted. cbn [after_tracks hits].
    rewrite Hh, Htr. cbn [negb]. fold N. fold t.
    replace (t =? t) with true by lia. rewrite Hafter at 1. done.
  - intros Hit. split; [done|]. split.
    + intros j successor_row Hj Hrow Hne Hdiff Hskip. by eapply Hfound.
    + intros Hskip. rewrite (Hrun Hit).
      destruct (N <=? slot) eqn:Hle; [done|]. cbv zeta.
      rewrite successor_scan_none; [done|].
      intros k row'. rewrite lookup_drop. apply Hskip. lia.
  - intros HN4 -> -> row1 Hrow Hne Hdiff.
    assert (t = 1) as Ht1 by (unfold t; lia).
    assert (slot = 1) as Hs1 by (unfold slot; rewrite Ht1; done).
    destruct (Hfound 1%nat row1) as [Hcalls Hdone]; try done; try lia.
    split; [done|]. intros v Hv. rewrite (Hdone v Hv). by rewrite Ht1.
Qed.
End InsertFacts.

(** ** Relative move *)
Section MoveFacts.
Context {builtins : Builtins} {ytmusic : YTMusic}.
Import Load.

Lemma getitem_in_range {A} (items : list A) (i : Z) :
  0 ≤ i < Z.of_nat (length items) → getitem items i = items !! Z.to_nat i.
Proof.
  intros Hi. unfold getitem.
  replace ((0 <=? i) && (i <? Z.of_nat (length items))) with true by lia. done.
Qed.

Lemma getitem_beyond {A} (items : list A) (i : Z) :
  Z.of_nat (length items) ≤ i → getitem items i = None.
Proof.
  intros Hi. unfold getitem.
  replace ((0 <=? i) && (i <? Z.of_nat (length items))) with false by lia.
  replace ((- Z.of_nat (length items) <=? i) && (i <? 0)) with false by lia. done.
Qed.

Lemma setitem_in_range {A} (items : list A) (i : Z) (x : A) :
  0 ≤ i < Z.of_nat (length items) →
  setitem items i x = Some (<[Z.to_nat i := x]> items).
Proof.
  intros Hi. unfold setitem.
  replace ((0 <=? i) && (i <? Z.of_nat (length items))) with true by lia. done.
Qed.

(** Swapping two adjacent rows keeps the length and every other row. *)
Lemma swap_items_adjacent (items : list pyval) (a : Z) :
  0 ≤ a → a + 1 < Z.of_nat (length items) →
  ∃ items', swap_items items a (a + 1) = Some items'
            ∧ length items' = length items
            ∧ ∀ j, 0 ≤ j → j ≠ a → j ≠ a + 1 → token_at items' j = token_at items j.
Proof.
  intros Ha Hb. unfold swap_items.
  rewrite !getitem_in_range by lia.
  destruct (lookup_lt_is_Some_2 items (Z.to_nat (a + 1))) as [x Hx]; [lia|].
  destruct (lookup_lt_is_Some_2 items (Z.to_nat a)) as [y Hy]; [lia|].
  rewrite Hx, Hy. cbn. rewrite setitem_in_range by lia. cbn.
  rewrite setitem_in_range by (rewrite length_insert; lia).
  eexists. split; [done|]. split; [by rewrite !length_insert|].
  intros j Hj Hja Hjb. unfold token_at.
  destruct (decide (j < Z.of_nat (length items))) as [Hlt | Hge].
  - rewrite !getitem_in_range by (rewrite ?length_insert; lia).
    rewrite !list_lookup_insert_ne by lia. done.
  - rewrite !getitem_beyond by (rewrite ?length_insert; lia). done.
Qed.

Lemma token_at_getitem (tracks : list pyval) (i : Z) :
  0 ≤ i < Z.of_nat (length tracks) →
  ∃ track, getitem tracks i = Some track ∧ token_at tracks i = row_token track.
Proof.
  intros Hi. unfold token_at. rewrite getitem_in_range by done.
  destruct (lookup_lt_is_Some_2 tracks (Z.to_nat i)) as [x Hx]; [lia|].
  rewrite Hx. by exists x.
Qed.

Lemma reorder_count_invoke (c : call) (s : session) :
  is_reorder c = true →
  reorder_count (calls (invoke c s).2) = reorder_count (calls s) + 1.
Proof.
  intros Hc. rewrite invoke_calls. unfold reorder_count.
  rewrite reorders_app, length_app. unfold reorders at 2. cbn. rewrite Hc. cbn. lia.
Qed.

(** The loop, moving up: where it can end and how many calls it issues. *)
Lemma move_loop_up_bounds (playlist_id moved : str) (k : nat) :
  ∀ (tracks : list pyval) (f : Z) (s : session),
    Z.of_nat k ≤ f < Z.of_nat (length tracks) →
    match move_loop k (py "up") playlist_id moved tracks f s with
    | (inr (tracks', f'), s') =>
        length tracks' = length tracks ∧ f - Z.of_nat k ≤ f' ≤ f
        ∧ reorder_count (calls s') = reorder_count (calls s) + (f - f')
    | (inl o, s') =>
        move_failure o
        ∧ reorder_count (calls s) ≤ reorder_count (calls s')
                                  ≤ reorder_count (calls s) + Z.of_nat k
    end.
Proof.
  induction k as [|k IH]; intros tracks f s Hf.
  - cbn. split; [done|]. split; lia.
  - cbn [move_loop]. change (str_eqb (py "up") (py "up")) with true. cbn match.
    destruct (token_at_getitem tracks (f - 1)) as (p & Hp & _); [lia|].
    rewrite Hp. destruct (truthy (row_token p)); cbn [negb].
    + pose proof (reorder_count_invoke
                    (EditPlaylist playlist_id (moved, row_token p)) s eq_refl) as Hcnt.
      destruct (invoke (EditPlaylist playlist_id (moved, row_token p)) s)
        as [[v|exc] s1]; cbn [snd] in Hcnt.
      * destruct (swap_items_adjacent tracks (f - 1)) as (tracks1 & Hsw & Hlen & _);
          [lia | lia |].
        replace (f - 1 + 1) with f in Hsw by lia. rewrite Hsw.
        specialize (IH tracks1 (f - 1) s1).
        destruct (move_loop k (py "up") playlist_id moved tracks1 (f - 1) s1)
          as [[o | [tracks' f']] s'].
        -- destruct IH as [Ho Hc]; [lia|]. split; [done | lia].
        -- destruct IH as (Hl & Hb & Hc); [lia|]. split; [congruence|]. split; lia.
      * split; [by eexists | lia].
    + split; [done|]. split; lia.
Qed.

(** Moving up over [m] rows that carry a token, the next row (if the loop
    gets that far) carrying none, with a client that does not raise. *)
Lemma move_loop_up_exact (playlist_id moved : str) (k : nat) :
  reorder_never_raises →
  ∀ (m : nat) (tracks : list pyval) (f : Z) (s : session),
    (m ≤ k)%nat → Z.of_nat k ≤ f < Z.of_nat (length tracks) →
    (∀ j, f - Z.of_nat m ≤ j < f → token_at tracks j ≠ []) →
    ((m < k)%nat → token_at tracks (f - Z.of_nat m - 1) = []) →
    ∃ tracks' f' s',
      move_loop k (py "up") playlist_id moved tracks f s = (inr (tracks', f'), s')
      ∧ f' = f - Z.of_nat m
      ∧ reorder_count (calls s') = reorder_count (calls s) + Z.of_nat m.
Proof.
  intros Hok. induction k as [|k IH]; intros m tracks f s Hm Hf Htok Hstop.
  - assert (m = 0%nat) as -> by lia. cbn. eexists _, _, _. split; [done|]. split; lia.
  - cbn [move_loop]. change (str_eqb (py "up") (py "up")) with true. cbn match.
    destruct (token_at_getitem tracks (f - 1)) as (p & Hp & Hptok); [lia|].
    rewrite Hp. destruct m as [|m].
    + assert (token_at tracks (f - 1) = []) as Hnil.
      { replace (f - 1) with (f - Z.of_nat 0 - 1) by lia. apply Hstop. lia. }
      rewrite Hptok in Hnil. rewrite Hnil. cbn.
      eexists _, _, _. split; [done|]. split; lia.
    + assert (token_at tracks (f - 1) ≠ []) as Hne by (apply Htok; lia).
      rewrite Hptok in Hne. apply truthy_true in Hne. rewrite Hne. cbn [negb].
      pose proof (reorder_count_invoke
                    (EditPlaylist playlist_id (moved, row_token p)) s eq_refl) as Hcnt.
      unfold invoke in *.
      destruct (Hok playlist_id (moved, row_token p) (remote s)) as (v & w' & Hresp).
      rewrite Hresp in *. cbn [snd] in Hcnt.
      destruct (swap_items_adjacent tracks (f - 1)) as (tracks1 & Hsw & Hlen & Hsame);
        [lia | lia |].
      replace (f - 1 + 1) with f in * by lia. rewrite Hsw.
      destruct (IH m tracks1 (f - 1)
                   {| remote := w';
                      calls := calls s ++ [EditPlaylist playlist_id (moved, row_token p)] |})
        as (tracks' & f' & s' & Hrun & Hf' & Hc).
      * lia.
      * lia.
      * intros j Hj. rewrite Hsame by lia. apply Htok. lia.
      * intros Hmk. rewrite Hsame by lia.
        replace (f - 1 - Z.of_nat m - 1) with (f - Z.of_nat (S m) - 1) by lia.
        apply Hstop. lia.
      * exists tracks', f', s'. rewrite Hrun. split; [done|]. split; lia.
Qed.

(** The same two facts, moving down. *)
Lemma move_loop_down_bounds (playlist_id moved : str) (k : nat) :
  ∀ (tracks : list pyval) (f : Z) (s : session),
    0 ≤ f → f + Z.of_nat k < Z.of_nat (length tracks) →
    match move_loop k (py "down") playlist_id moved tracks f s with
    | (inr (tracks', f'), s') =>
        length tracks' = length tracks ∧ f ≤ f' ≤ f + Z.of_nat k
        ∧ reorder_count (calls s') = reorder_count (calls s) + (f' - f)
    | (inl o, s') =>
        move_failure o
        ∧ reorder_count (calls s) ≤ reorder_count (calls s')
                                  ≤ reorder_count (calls s) + Z.of_nat k
    end.
Proof.
  induction k as [|k IH]; intros tracks f s Hf0 Hf.
  - cbn. split; [done|]. split; lia.
  - cbn [move_loop]. change (str_eqb (py "down") (py "up")) with false. cbn match.
    destruct (token_at_getitem tracks (f + 1)) as (p & Hp & _); [lia|].
    rewrite Hp. destruct (truthy (row_token p)); cbn [negb].
    + pose proof (reorder_count_invoke
                    (EditPlaylist playlist_id (row_token p, moved)) s eq_refl) as Hcnt.
      destruct (invoke (EditPlaylist playlist_id (row_token p, moved)) s)
        as [[v|exc] s1]; cbn [snd] in Hcnt.
      * destruct (swap_items_adjacent tracks f) as (tracks1 & Hsw & Hlen & _);
          [lia | lia |].
        rewrite Hsw. specialize (IH tracks1 (f + 1) s1).
        destruct (move_loop k (py "down") playlist_id moved tracks1 (f + 1) s1)
          as [[o | [tracks' f']] s'].
        -- destruct IH as [Ho Hc]; [lia | lia |]. split; [done | lia].
        -- destruct IH as (Hl & Hb & Hc); [lia | lia |].
           split; [congruence|]. split; lia.
      * split; [by eexists | lia].
    + split; [done|]. split; lia.
Qed.

Lemma move_loop_down_exact (playlist_id moved : str) (k : nat) :
  reorder_never_raises →
  ∀ (m : nat) (tracks : list pyval) (f : Z) (s : session),
    (m ≤ k)%nat → 0 ≤ f → f + Z.of_nat k < Z.of_nat (length tracks) →
    (∀ j, f < j ≤ f + Z.of_nat m → token_at tracks j ≠ []) →
    ((m < k)%nat → token_at tracks (f + Z.of_nat m + 1) = []) →
    ∃ tracks' f' s',
      move_loop k (py "down") playlist_id moved tracks f s = (inr (tracks', f'), s')
      ∧ f' = f + Z.of_nat m
      ∧ reorder_count (calls s') = reorder_count (calls s) + Z.of_nat m.
Proof.
  intros Hok. induction k as [|k IH]; intros m tracks f s Hm Hf0 Hf Htok Hstop.
  - assert (m = 0%nat) as -> by lia. cbn. eexists _, _, _. split; [done|]. split; lia.
  - cbn [move_loop]. change (str_eqb (py "down") (py "up")) with false. cbn match.
    destruct (token_at_getitem tracks (f + 1)) as (p & Hp & Hptok); [lia|].
    rewrite Hp. destruct m as [|m].
    + assert (token_at tracks (f + 1) = []) as Hnil.
      { replace (f + 1) with (f + Z.of_nat 0 + 1) by lia. apply Hstop. lia. }
      rewrite Hptok in Hnil. rewrite Hnil. cbn.
      eexists _, _, _. split; [done|]. split; lia.
    + assert (token_at tracks (f + 1) ≠ []) as Hne by (apply Htok; lia).
      rewrite Hptok in Hne. apply truthy_true in Hne. rewrite Hne. cbn [negb].
      pose proof (reorder_count_invoke
                    (EditPlaylist playlist_id (row_token p, moved)) s eq_refl) as Hcnt.
      unfold invoke in *.
      destruct (Hok playlist_id (row_token p, moved) (remote s)) as (v & w' & Hresp).
      rewrite Hresp in *. cbn [snd] in Hcnt.
      destruct (swap_items_adjacent tracks f) as (tracks1 & Hsw & Hlen & Hsame);
        [lia | lia |].
      rewrite Hsw.
      destruct (IH m tracks1 (f + 1)
                   {| remote := w';
                      calls := calls s ++ [EditPlaylist playlist_id (row_token p, moved)] |})
        as (tracks' & f' & s' & Hrun & Hf' & Hc).
      * lia.
      * lia.
      * lia.
      * intros j Hj. rewrite Hsame by lia. apply Htok. lia.
      * intros Hmk. rewrite Hsame by lia.
        replace (f + 1 + Z.of_nat m + 1) with (f + Z.of_nat (S m) + 1) by lia.
        apply Hstop. lia.
      * exists tracks', f', s'. rewrite Hrun. split; [done|]. split; lia.
Qed.

Lemma locate_by_token_found target index tracks c tok :
  locate_by_token target index tracks = Some (c, tok) →
  index ≤ c < index + Z.of_nat (length tracks)
  ∧ tok = target
  ∧ ∃ track, tracks !! Z.to_nat (c - index) = Some track ∧ row_token track = tok.
Proof.
  revert index. induction tracks as [|r tracks IH]; intros index Hloc; [done|].
  assert (locate_by_token target (index + 1) tracks = Some (c, tok) →
          index ≤ c < index + Z.of_nat (length (r :: tracks))
          ∧ tok = target
          ∧ ∃ track, (r :: tracks) !! Z.to_nat (c - index) = Some track
                     ∧ row_token track = tok) as Hrest.
  { intros Hr. destruct (IH _ Hr) as (Hc & Ht & track & Htrack & Htok).
    split; [cbn [length]; lia|]. split; [done|]. exists track. split; [|done].
    replace (Z.to_nat (c - index)) with (S (Z.to_nat (c - (index + 1)))) by lia.
    done. }
  destruct r as [| | | | | |t]; try (by apply Hrest).
  cbn [locate_by_token] in Hloc.
  destruct (str_eqb (safe_str (dict_get t (py "setVideoId"))) target) eqn:Heq;
    [|by apply Hrest].
  injection Hloc as <- <-. apply str_eqb_eq in Heq.
  split; [cbn [length]; lia|]. split; [done|].
  exists (PDict t). replace (index - index) with 0 by lia. done.
Qed.

Lemma locate_by_video_found target index tracks c tok :
  locate_by_video target index tracks = Some (c, tok) →
  index ≤ c < index + Z.of_nat (length tracks)
  ∧ tok ≠ []
  ∧ ∃ track, tracks !! Z.to_nat (c - index) = Some track ∧ row_token track = tok.
Proof.
  revert index. induction tracks as [|r tracks IH]; intros index Hloc; [done|].
  assert (locate_by_video target (index + 1) tracks = Some (c, tok) →
          index ≤ c < index + Z.of_nat (length (r :: tracks))
          ∧ tok ≠ []
          ∧ ∃ track, (r :: tracks) !! Z.to_nat (c - index) = Some track
                     ∧ row_token track = tok) as Hrest.
  { intros Hr. destruct (IH _ Hr) as (Hc & Ht & track & Htrack & Htok).
    split; [cbn [length]; lia|]. split; [done|]. exists track. split; [|done].
    replace (Z.to_nat (c - index)) with (S (Z.to_nat (c - (index + 1)))) by lia.
    done. }
  destruct r as [| | | | | |t]; try (by apply Hrest).
  cbn [locate_by_video] in Hloc.
  destruct (str_eqb (safe_str (dict_get t (py "videoId"))) target
            && truthy (safe_str (dict_get t (py "setVideoId")))) eqn:Heq;
    [|by apply Hrest].
  injection Hloc as <- <-. apply andb_true_iff in Heq as [_ Heq].
  apply truthy_true in Heq.
  split; [cbn [length]; lia|]. split; [done|].
  exists (PDict t). replace (index - index) with 0 by lia. done.
Qed.

(** A located row is a row of the snapshot and carries the token found. *)
Lemma locate_found tracks song_ref c tok :
  locate_playlist_song_index tracks song_ref = (c, tok) → 0 ≤ c →
  c < Z.of_nat (length tracks) ∧ tok ≠ [] ∧ token_at tracks c = tok.
Proof.
  unfold locate_playlist_song_index. intros Hloc Hc.
  assert (∀ track, tracks !! Z.to_nat (c - 0) = Some track → row_token track = tok →
                   c < Z.of_nat (length tracks) → token_at tracks c = tok) as Htok.
  { intros track Htrack Hrow Hlt. unfold token_at.
    rewrite getitem_in_range by lia.
    replace (c - 0) with c in Htrack by lia. by rewrite Htrack. }
  destruct (truthy (safe_str (dict_get song_ref (py "setVideoId")))) eqn:Ht.
  - destruct (locate_by_token _ 0 tracks) as [[c' tok']|] eqn:Hby.
    + injection Hloc as -> ->.
      destruct (locate_by_token_found _ _ _ _ _ Hby) as (Hr & Heq & track & Htrack & Hrow).
      split; [lia|]. split; [|by eapply Htok; [..|lia]].
      rewrite Heq. by apply truthy_true.
    + destruct (truthy (safe_str (dict_get song_ref (py "videoId")))).
      * destruct (locate_by_video _ 0 tracks) as [[c' tok']|] eqn:Hbv.
        -- injection Hloc as -> ->.
           destruct (locate_by_video_found _ _ _ _ _ Hbv)
             as (Hr & Hne & track & Htrack & Hrow).
           split; [lia|]. split; [done|]. by eapply Htok; [..|lia].
        -- injection Hloc as <- <-. lia.
      * injection Hloc as <- <-. lia.
  - destruct (truthy (safe_str (dict_get song_ref (py "videoId")))).
    + destruct (locate_by_video _ 0 tracks) as [[c' tok']|] eqn:Hbv.
      * injection Hloc as -> ->.
        destruct (locate_by_video_found _ _ _ _ _ Hbv)
          as (Hr & Hne & track & Htrack & Hrow).
        split; [lia|]. split; [done|]. by eapply Htok; [..|lia].
      * injection Hloc as <- <-. lia.
    + injection Hloc as <- <-. lia.
Qed.

(** The handler once its payload has passed the checks. *)
Lemma handle_move_checked payload playlist_id raw_song direction positions s :
  move_inputs payload playlist_id raw_song direction positions →
  handle_move_playlist_song payload s
  = match invoke (GetPlaylist playlist_id 5000) s with
    | (Raises exc, s1) =>
        (emit_error (py "Failed to load playlist songs before move.")
                    (py "song_load_failed") 502 exc, s1)
    | (Returns snapshot, s1) =>
        match tracks_field snapshot with
        | PList tracks =>
            if Z.of_nat (length tracks) <? 2
            then (Done (move_response playlist_id false 0 0), s1)
            else
              let '(current_index, moved_set_video_id) :=
                locate_playlist_song_index tracks raw_song in
              if (current_index <? 0) || negb (truthy moved_set_video_id)
              then (emit_error (py "Could not find selected song in playlist.")
                               (py "playlist_song_not_found") 404 [], s1)
              else move_located playlist_id direction positions tracks
                                current_index moved_set_video_id s1
        | _ => (Done (move_response playlist_id false 0 0), s1)
        end
    end.
Proof.
  intros (Hpid & Hne & Hsong & Hdir & Hud & Hpos & Hp).
  unfold handle_move_playlist_song. cbv zeta.
  rewrite Hpid, Hsong, Hdir, Hpos.
  apply truthy_true in Hne. rewrite Hne. cbn [negb].
  replace (positions <=? 0) with false by lia.
  by destruct Hud as [-> | ->].
Qed.

(** C3. For a snapshot of N >= 2 rows in which the referenced row is located
    at index c, a positive step count p and either direction: the move
    issues at most min(p, c) reorder calls moving up and min(p, N-1-c)
    moving down; every response reports fromIndex c, a toIndex within
    [0, N-1] that is c displaced by the number of calls issued, and moved
    true exactly when toIndex differs from fromIndex; the only failure is a
    raised reorder call. With a client that does not raise, the move
    performs exactly as many steps as neighbours carry a token, up to the
    headroom-bounded count: min(p, c) or min(p, N-1-c) when every traversed
    neighbour carries one, fewer when it meets a neighbour without. *)
Theorem relative_move_steps
    (payload : dict) (playlist_id : str) (raw_song : dict) (direction : str)
    (positions : Z) (snapshot : pyval) (tracks : list pyval)
    (c : Z) (tok : str) (s s1 : session) :
  move_inputs payload playlist_id raw_song direction positions →
  invoke (GetPlaylist playlist_id 5000) s = (Returns snapshot, s1) →
  tracks_field snapshot = PList tracks →
  2 ≤ Z.of_nat (length tracks) →
  locate_playlist_song_index tracks raw_song = (c, tok) → 0 ≤ c →
  let N := Z.of_nat (length tracks) in
  let up := str_eqb direction (py "up") in
  let steps := if up then Z.min positions c else Z.min positions (N - 1 - c) in
  let neighbour (d : Z) := if up then c - d else c + d in
  let run := handle_move_playlist_song payload s in
  let issued := reorder_count (calls run.2) - reorder_count (calls s) in
  (0 ≤ issued ≤ steps
   ∧ match run.1 with
     | Done response =>
         ∃ to_index,
           response = move_response playlist_id (negb (to_index =? c)) c to_index
           ∧ 0 ≤ to_index ≤ N - 1
           ∧ to_index = neighbour issued
     | Failed _ => move_failure run.1
     | Uncaught _ => False
     end)
  ∧ (reorder_never_raises →
     ∀ m : Z,
       0 ≤ m ≤ steps →
       (∀ d, 1 ≤ d ≤ m → token_at tracks (neighbour d) ≠ []) →
       (m < steps → token_at tracks (neighbour (m + 1)) = []) →
       run.1 = Done (move_response playlist_id (negb (neighbour m =? c)) c (neighbour m))
       ∧ issued = m).
Proof.
  intros Hin Hget Htracks HN Hloc Hc.
  destruct (locate_found _ _ _ _ Hloc Hc) as (HcN & Htok & _).
  assert (reorder_count (calls s1) = reorder_count (calls s)) as Hs1.
  { pose proof (invoke_calls (GetPlaylist playlist_id 5000) s) as Hcalls.
    rewrite Hget in Hcalls. cbn [snd] in Hcalls. unfold reorder_count.
    rewrite Hcalls, reorders_app. cbn. by rewrite app_nil_r. }
  assert (handle_move_playlist_song payload s
          = move_located playlist_id direction positions tracks c tok s1) as ->.
  { rewrite (handle_move_checked _ _ _ _ _ _ Hin), Hget, Htracks.
    replace (Z.of_nat (length tracks) <? 2) with false by lia. rewrite Hloc.
    replace (c <? 0) with false by lia. apply truthy_true in Htok. by rewrite Htok. }
  assert (0 < positions) as Hp by apply Hin.
  assert (direction = py "up" ∨ direction = py "down") as Hud by apply Hin.
  unfold move_located. rewrite <- Hs1. clear Hs1 Hget s.
  destruct Hud as [-> | ->].
  - (* up *)
    change (str_eqb (py "up") (py "up")) with true. cbv zeta iota.
    set (steps := Z.min positions c).
    destruct (decide (steps = 0)) as [Hz | Hpos].
    + rewrite Hz. cbn [Z.leb Z.compare fst snd].
      replace (c =? c) with true by lia.
      split.
      * split; [lia|]. exists c. replace (c =? c) with true by lia.
        split; [done|]. split; lia.
      * intros _ m Hm _ _. assert (m = 0) as -> by lia.
        replace (c - 0) with c by lia. replace (c =? c) with true by lia.
        split; [done | lia].
    + replace (steps <=? 0) with false by lia.
      pose proof (move_loop_up_bounds playlist_id tok (Z.to_nat steps) tracks c s1) as Hb.
      split.
      * destruct (move_loop (Z.to_nat steps) (py "up") playlist_id tok tracks c s1)
          as [[o | [tracks' f']] s'] eqn:Hloop; cbn [fst snd].
        -- destruct Hb as [Ho Hcnt]; [lia|]. split; [lia|].
           destruct Ho as [exc ->]. unfold emit_error. by exists exc.
        -- destruct Hb as (Hlen & Hf' & Hcnt); [lia|]. split; [lia|].
           exists f'. split; [done|]. split; lia.
      * intros Hok m Hm Htoks Hstop.
        destruct (move_loop_up_exact playlist_id tok (Z.to_nat steps) Hok
                    (Z.to_nat m) tracks c s1)
          as (tracks' & f' & s' & Hloop & Hf' & Hcnt).
        -- lia.
        -- lia.
        -- intros j Hj. replace j with (c - (c - j)) by lia. apply Htoks. lia.
        -- intros Hlt. replace (c - Z.of_nat (Z.to_nat m) - 1) with (c - (m + 1)) by lia.
           apply Hstop. lia.
        -- rewrite Hloop. cbn [fst snd].
           replace f' with (c - m) by lia. split; [done | lia].
  - (* down *)
    change (str_eqb (py "down") (py "up")) with false. cbv zeta iota.
    set (steps := Z.min positions (Z.of_nat (length tracks) - 1 - c)).
    destruct (decide (steps = 0)) as [Hz | Hpos].
    + rewrite Hz. cbn [Z.leb Z.compare fst snd].
      split.
      * split; [lia|]. exists c. replace (c =? c) with true by lia.
        split; [done|]. split; lia.
      * intros _ m Hm _ _. assert (m = 0) as -> by lia.
        replace (c + 0) with c by lia. replace (c =? c) with true by lia.
        split; [done | lia].
    + replace (steps <=? 0) with false by lia.
      pose proof (move_loop_down_bounds playlist_id tok (Z.to_nat steps) tracks c s1) as Hb.
      split.
      * destruct (move_loop (Z.to_nat steps) (py "down") playlist_id tok tracks c s1)
          as [[o | [tracks' f']] s'] eqn:Hloop; cbn [fst snd].
        -- destruct Hb as [Ho Hcnt]; [lia | lia |]. split; [lia|].
           destruct Ho as [exc ->]. unfold emit_error. by exists exc.
        -- destruct Hb as (Hlen & Hf' & Hcnt); [lia | lia |]. split; [lia|].
           exists f'. split; [done|]. split; lia.
      * intros Hok m Hm Htoks Hstop.
        destruct (move_loop_down_exact playlist_id tok (Z.to_nat steps) Hok
                    (Z.to_nat m) tracks c s1)
          as (tracks' & f' & s' & Hloop & Hf' & Hcnt).
        -- lia.
        -- lia.
        -- lia.
        -- intros j Hj. replace j with (c + (j - c)) by lia. apply Htoks. lia.
        -- intros Hlt. replace (c + Z.of_nat (Z.to_nat m) + 1) with (c + (m + 1)) by lia.
           apply Hstop. lia.
        -- rewrite Hloop. cbn [fst snd].
           replace f' with (c + m) by lia. split; [done | lia].
Qed.
End MoveFacts.

(** ** Reads of a snapshot *)
Section ReadFacts.
Context {builtins : Builtins} {ytmusic : YTMusic}.
Import Load.

Lemma locate_by_token_none target index tracks :
  (∀ track, track ∈ tracks → row_token track ≠ target) →
  locate_by_token target index tracks = None.
Proof.
  revert index. induction tracks as [|r tracks IH]; intros index Hno; [done|].
  assert (locate_by_token target (index + 1) tracks = None) as Hrest.
  { apply IH. intros track Htrack. apply Hno. by right. }
  destruct r as [| | | | | |t]; try done. cbn [locate_by_token].
  assert (row_token (PDict t) ≠ target) as Hr by (apply Hno; left).
  cbn in Hr. apply str_eqb_neq in Hr. by rewrite Hr.
Qed.

Lemma locate_by_video_none target index tracks :
  (∀ track, track ∈ tracks → row_token track ≠ [] → row_video track ≠ target) →
  locate_by_video target index tracks = None.
Proof.
  revert index. induction tracks as [|r tracks IH]; intros index Hno; [done|].
  assert (locate_by_video target (index + 1) tracks = None) as Hrest.
  { apply IH. intros track Htrack. apply Hno. by right. }
  destruct r as [| | | | | |t]; try done. cbn [locate_by_video].
  destruct (truthy (safe_str (dict_get t (py "setVideoId")))) eqn:Ht.
  - assert (row_video (PDict t) ≠ target) as Hr.
    { apply Hno; [left | by apply truthy_true]. }
    cbn in Hr. apply str_eqb_neq in Hr. by rewrite Hr.
  - by rewrite andb_false_r.
Qed.

(** A row that cannot be located is reported as index -1 with no token. *)
Lemma locate_unlocatable tracks song_ref :
  unlocatable tracks song_ref →
  locate_playlist_song_index tracks song_ref = (-1, []).
Proof.
  intros [Htoken Hvideo]. unfold locate_playlist_song_index.
  destruct (truthy (safe_str (dict_get song_ref (py "setVideoId")))) eqn:Ht.
  - rewrite locate_by_token_none by (apply Htoken; by apply truthy_true).
    destruct (truthy (safe_str (dict_get song_ref (py "videoId")))) eqn:Hv; [|done].
    by rewrite locate_by_video_none by (apply Hvideo; by apply truthy_true).
  - destruct (truthy (safe_str (dict_get song_ref (py "videoId")))) eqn:Hv; [|done].
    by rewrite locate_by_video_none by (apply Hvideo; by apply truthy_true).
Qed.

(** C7, amended. For a snapshot of at least two rows, a reference whose row
    cannot be located (no row has its position token, no token-bearing row
    has its external identifier) ends the relative move with the not-found
    error, code playlist_song_not_found, and no reorder call; for a snapshot
    of fewer than two rows the move returns the no-op response (moved false,
    fromIndex 0, toIndex 0) without looking for the row. *)
Theorem move_unlocatable_row
    (payload : dict) (playlist_id : str) (raw_song : dict) (direction : str)
    (positions : Z) (snapshot : pyval) (tracks : list pyval) (s s1 : session) :
  move_inputs payload playlist_id raw_song direction positions →
  invoke (GetPlaylist playlist_id 5000) s = (Returns snapshot, s1) →
  tracks_field snapshot = PList tracks →
  (2 ≤ Z.of_nat (length tracks) → unlocatable tracks raw_song →
   handle_move_playlist_song payload s
   = (emit_error (py "Could not find selected song in playlist.")
                 (py "playlist_song_not_found") 404 [], s1))
  ∧ (Z.of_nat (length tracks) < 2 →
     handle_move_playlist_song payload s
     = (Done (move_response playlist_id false 0 0), s1)).
Proof.
  intros Hin Hget Htracks.
  rewrite (handle_move_checked _ _ _ _ _ _ Hin), Hget, Htracks. split.
  - intros HN Hun. replace (Z.of_nat (length tracks) <? 2) with false by lia.
    by rewrite (locate_unlocatable _ _ Hun).
  - intros HN. by replace (Z.of_nat (length tracks) <? 2) with true by lia.
Qed.

(** C8, amended. A successful reply of [get_playlist] whose tracks field is
    missing or not a list is read as an empty snapshot by the direct reads
    too: the songs read returns ok with no songs, the move returns the
    no-op response, and the polling of the reconciler goes on to its next
    attempt with an empty snapshot. The load error song_load_failed is
    what a raised call gives. *)
Theorem malformed_snapshot_reads_empty
    (payload : dict) (playlist_id : str) (snapshot : pyval) (s s1 : session) :
  safe_str (dict_get payload (py "playlistId")) = playlist_id →
  playlist_id ≠ [] →
  (∀ rows, tracks_field snapshot ≠ PList rows) →
  (invoke (GetPlaylist playlist_id 5000) s = (Returns snapshot, s1) →
   handle_playlist_songs payload s
   = (Done [(py "ok", PBool true); (py "songs", PList []);
            (py "songDetails", PList [])], s1)
   ∧ (∀ raw_song direction positions,
        move_inputs payload playlist_id raw_song direction positions →
        handle_move_playlist_song payload s
        = (Done (move_response playlist_id false 0 0), s1))
   ∧ (∀ video_id before attempt rest st,
        poll_after playlist_id video_id before (attempt :: rest) st s
        = poll_after playlist_id video_id before rest
                     {| after_tracks := []; hits := hits st |} s1))
  ∧ (∀ exc, invoke (GetPlaylist playlist_id 5000) s = (Raises exc, s1) →
     handle_playlist_songs payload s
     = (emit_error (py "Failed to load playlist songs.")
                   (py "song_load_failed") 502 exc, s1)
     ∧ (∀ raw_song direction positions,
          move_inputs payload playlist_id raw_song direction positions →
          handle_move_playlist_song payload s
          = (emit_error (py "Failed to load playlist songs before move.")
                        (py "song_load_failed") 502 exc, s1))).
Proof.
  intros Hpid Hne Hbad. apply truthy_true in Hne. split.
  - intros Hget. split; [|split].
    + unfold handle_playlist_songs. cbv zeta. rewrite Hpid, Hne, Hget. cbn [negb].
      destruct (tracks_field snapshot) as [| | | | |rows|] eqn:Ht; try done.
      by destruct (Hbad rows).
    + intros raw_song direction positions Hin.
      rewrite (handle_move_checked _ _ _ _ _ _ Hin), Hget.
      destruct (tracks_field snapshot) as [| | | | |rows|] eqn:Ht; try done.
      by destruct (Hbad rows).
    + intros video_id before attempt rest st. cbn [poll_after]. rewrite Hget.
      destruct (tracks_field snapshot) as [| | | | |rows|] eqn:Ht; try done.
      by destruct (Hbad rows).
  - intros exc Hget. split.
    + unfold handle_playlist_songs. cbv zeta. by rewrite Hpid, Hne, Hget.
    + intros raw_song direction positions Hin.
      by rewrite (handle_move_checked _ _ _ _ _ _ Hin), Hget.
Qed.
End ReadFacts.

(** ** The migration batch *)
Section BatchFacts.
Context {builtins : Builtins} {ytmusic : YTMusic}.
Import Migrate.

Lemma dict_get_head (key : str) (v : pyval) (rest : dict) :
  dict_get ((key, v) :: rest) key = v.
Proof. cbn [dict_get]. unfold str_eqb. by rewrite bool_decide_eq_true_2. Qed.

Lemma failure_key song_key title artist album error :
  song_key_of (failure song_key title artist album error) = song_key.
Proof. apply dict_get_head. Qed.

(** Whatever becomes of a song in the first loop, the entry it leaves
    carries the song's key. *)
Lemma resolve_song_key debug index song debug_searches s :
  match (resolve_song debug index song debug_searches s).1.1 with
  | Unresolved entry | Resolved entry => song_key_of entry = effective_key index song
  end.
Proof.
  unfold resolve_song.
  destruct song as [| | | | | |song]; try apply dict_get_head.
  cbv zeta.
  destruct (truthy (safe_str (dict_get song (py "title")))); cbn [negb];
    [|apply dict_get_head].
  destruct (search_variants (py "songs") _ [] ∅ s) as [[merged [exc|]] s1];
    [apply dict_get_head|].
  destruct (pick_best_match merged _ _ _ true) as [best|].
  - destruct (truthy (safe_str (dict_get best (py "videoId")))); cbn [negb];
      apply dict_get_head.
  - destruct (search_variants (py "videos") _ [] ∅ s1) as [[video_results raised] s2].
    destruct (pick_best_match video_results _ _ _ false) as [best|];
      [|apply dict_get_head].
    destruct (truthy (safe_str (dict_get best (py "videoId")))); cbn [negb];
      apply dict_get_head.
Qed.

Lemma imap_effective_key_shift index song songs :
  imap (λ i, effective_key (index + i)) (song :: songs)
  = effective_key index song :: imap (λ i, effective_key (S index + i)) songs.
Proof.
  cbn [imap]. f_equal; [by rewrite Nat.add_0_r|].
  apply imap_ext. intros i x _. cbn. f_equal. lia.
Qed.

(** The first loop gives every song one entry, in [pending_migrations] or
    in [failed]. *)
Lemma resolve_songs_keys debug songs :
  ∀ index pending failed debug_searches s,
    let '(pending', failed', _, _) :=
      resolve_songs debug index songs pending failed debug_searches s in
    map song_key_of (pending' ++ failed')
    ≡ₚ map song_key_of (pending ++ failed)
       ++ imap (λ i, effective_key (index + i)) songs.
Proof.
  induction songs as [|song songs IH]; intros index pending failed debug_searches s.
  - cbn. by rewrite app_nil_r.
  - cbn [resolve_songs]. rewrite imap_effective_key_shift.
    pose proof (resolve_song_key debug index song debug_searches s) as Hkey.
    destruct (resolve_song debug index song debug_searches s) as [[[e|e] d1] s1];
      cbn [fst] in Hkey.
    + specialize (IH (S index) pending (failed ++ [e]) d1 s1).
      destruct (resolve_songs debug (S index) songs pending (failed ++ [e]) d1 s1)
        as [[[p' f'] d'] s'].
      rewrite IH, <- Hkey. rewrite !map_app. cbn [map].
      rewrite <- !app_assoc. cbn [app]. done.
    + specialize (IH (S index) (pending ++ [e]) failed d1 s1).
      destruct (resolve_songs debug (S index) songs (pending ++ [e]) failed d1 s1)
        as [[[p' f'] d'] s'].
      rewrite IH, <- Hkey. rewrite !map_app. cbn [map].
      rewrite <- !app_assoc. cbn [app].
      apply Permutation_app_head.
      rewrite (Permutation_middle _ _ (song_key_of e)). done.
Qed.

(** One song of the position-preserving branch: a failure entry with its
    key when the append raises, the song itself when the append returns,
    whatever the repositioning does. *)
Lemma add_in_place_outcome playlist_id song s :
  let s1 := (invoke (GetPlaylist playlist_id 5000) s).2 in
  let added :=
    invoke (AddPlaylistItems playlist_id [str_of (dict_get song (py "videoId"))] false)
           s1 in
  match added.1 with
  | Returns _ => (add_in_place playlist_id song s).1 = inr song
  | Raises exc =>
      add_in_place playlist_id song s
      = (inl (failure (dict_get song (py "songKey")) (dict_get song (py "title"))
                      (dict_get song (py "artist")) (dict_get song (py "album"))
                      (py "Failed to add song to playlist: " ++ exc)), added.2)
  end.
Proof.
  cbv zeta. unfold add_in_place.
  destruct (invoke (GetPlaylist playlist_id 5000) s) as [[before|exc0] s1]; cbn [snd];
    (destruct (invoke (AddPlaylistItems playlist_id _ false) s1) as [[v|exc] s2];
     cbn [fst snd]; [|done];
     by destruct (safe_non_negative_int (dict_get song (py "expectedIndex")))).
Qed.

Lemma add_in_place_key playlist_id song s :
  match (add_in_place playlist_id song s).1 with
  | inl entry => song_key_of entry = song_key_of song
  | inr song' => song' = song
  end.
Proof.
  pose proof (add_in_place_outcome playlist_id song s) as Hout. cbv zeta in Hout.
  destruct (invoke (AddPlaylistItems playlist_id _ false) _) as [[v|exc] s2];
    cbn [fst snd] in Hout.
  - by rewrite Hout.
  - rewrite Hout. cbn [fst]. apply failure_key.
Qed.

Lemma add_each_in_place_keys playlist_id pending :
  ∀ successful failed s,
    let '(successful', failed', _) :=
      add_each_in_place playlist_id pending successful failed s in
    map song_key_of (successful' ++ failed')
    ≡ₚ map song_key_of (pending ++ successful ++ failed).
Proof.
  induction pending as [|song pending IH]; intros successful failed s; [by cbn|].
  cbn [add_each_in_place].
  pose proof (add_in_place_key playlist_id song s) as Hkey.
  destruct (add_in_place playlist_id song s) as [[e|song'] s1]; cbn [fst] in Hkey.
  - specialize (IH successful (failed ++ [e]) s1).
    destruct (add_each_in_place playlist_id pending successful (failed ++ [e]) s1)
      as [[p' f'] s'].
    rewrite IH. rewrite !map_app. cbn [map app]. rewrite Hkey.
    rewrite !app_assoc. by rewrite <- Permutation_cons_append.
  - subst song'. specialize (IH (successful ++ [song]) failed s1).
    destruct (add_each_in_place playlist_id pending (successful ++ [song]) failed s1)
      as [[p' f'] s'].
    rewrite IH. rewrite !map_app. cbn [map app].
    rewrite (Permutation_middle (map song_key_of pending)).
    rewrite <- !app_assoc. cbn [app]. apply Permutation_app_head.
    rewrite <- (Permutation_middle (map song_key_of successful)). done.
Qed.

(** The second half of [migrate_songs] keeps every pending song: each ends
    up in [successful_migrations] or in [failed]. *)
Lemma add_pending_keys playlist_id preserve pending failed s :
  let '(successful, failed', _) :=
    add_pending playlist_id preserve pending failed s in
  map song_key_of (successful ++ failed') ≡ₚ map song_key_of (pending ++ failed).
Proof.
  unfold add_pending. destruct pending as [|song pending]; [done|].
  destruct preserve; cbn [negb].
  - pose proof (add_each_in_place_keys playlist_id (song :: pending) [] failed s) as Hk.
    by destruct (add_each_in_place playlist_id (song :: pending) [] failed s)
      as [[p' f'] s'].
  - destruct (invoke _ s) as [[v|exc] s1]; [done|].
    rewrite !map_app, map_map.
    rewrite (map_ext (λ x : dict, song_key_of (failure _ _ _ _ _)) song_key_of)
      by (intros; apply failure_key).
    apply (Permutation_app_comm (map song_key_of failed)
                                (map song_key_of (song :: pending))).
Qed.

Lemma migrate_batch_fields playlist_id debug preserve songs s :
  let '(pending, failed, _, s1) := resolve_songs debug 0 songs [] [] [] s in
  let '(successful, failed1, s2) :=
    add_pending playlist_id preserve pending failed s1 in
  let '(result, s') := migrate_batch playlist_id debug preserve songs s in
  s' = s2
  ∧ dict_get result (py "ok") = PBool true
  ∧ dict_get result (py "migrated") = PList (map PDict successful)
  ∧ dict_get result (py "failed") = PList (map PDict failed1).
Proof.
  unfold migrate_batch.
  destruct (resolve_songs debug 0 songs [] [] [] s) as [[[pending failed] dbg] s1].
  destruct (add_pending playlist_id preserve pending failed s1)
    as [[successful failed1] s2].
  by destruct debug.
Qed.

(** The batch accounts for every song of its input. *)
Lemma migrate_batch_keys playlist_id debug preserve songs s :
  ∃ migrated failed,
    dict_get (migrate_batch playlist_id debug preserve songs s).1 (py "migrated")
      = PList (map PDict migrated)
    ∧ dict_get (migrate_batch playlist_id debug preserve songs s).1 (py "failed")
      = PList (map PDict failed)
    ∧ map song_key_of (migrated ++ failed) ≡ₚ imap effective_key songs.
Proof.
  pose proof (migrate_batch_fields playlist_id debug preserve songs s) as Hf.
  pose proof (resolve_songs_keys debug songs 0 [] [] [] s) as Hr.
  destruct (resolve_songs debug 0 songs [] [] [] s) as [[[pending failed] dbg] s1].
  pose proof (add_pending_keys playlist_id preserve pending failed s1) as Ha.
  destruct (add_pending playlist_id preserve pending failed s1)
    as [[successful failed1] s2].
  destruct (migrate_batch playlist_id debug preserve songs s) as [result s'].
  destruct Hf as (_ & _ & Hm & Hfl). cbn [fst].
  exists successful, failed1. split; [done|]. split; [done|].
  rewrite Ha, Hr. cbn [app map]. apply Permutation_refl'.
  apply imap_ext. intros i x _. done.
Qed.

Lemma migrate_songs_done env payload s result s' :
  migrate_songs env payload s = (Done result, s') →
  checks_pass env payload
  ∧ ∃ song rest, dict_get payload (py "songs") = PList (song :: rest)
                 ∧ batch_of env payload (song :: rest) s = (result, s').
Proof.
  unfold migrate_songs, checks_pass, batch_of, emit_error.
  destruct (import_error env); [done|].
  destruct (truthy (strip (default [] (auth_file_var env)))); cbn [negb]; [|done].
  destruct (path_exists env _); cbn [negb]; [|done].
  destruct (truthy (safe_str (dict_get payload (py "playlistId")))); cbn [negb]; [|done].
  destruct (dict_get payload (py "songs")) as [| | | | |[|song rest]|]; try done.
  destruct (init_error env); [done|].
  destruct (migrate_batch _ _ _ (song :: rest) s) as [r s2] eqn:Hbatch.
  intros [= -> ->]. repeat split; try done. by exists song, rest.
Qed.

Lemma migrate_songs_passed env payload s song rest :
  checks_pass env payload →
  dict_get payload (py "songs") = PList (song :: rest) →
  migrate_songs env payload s
  = (Done (batch_of env payload (song :: rest) s).1,
     (batch_of env payload (song :: rest) s).2).
Proof.
  intros (Hi & Ha & Hp & Hpid & Hinit) Hsongs.
  unfold migrate_songs, batch_of. rewrite Hi, Ha, Hp, Hpid, Hsongs, Hinit. cbn [negb].
  by destruct (migrate_batch _ _ _ (song :: rest) s).
Qed.

(** C10. Every song of the input leaves exactly one entry, in migrated or in
    failed: the two arrays together have as many entries as there are
    songs, and their keys are the songs' keys, each as often as it occurs in
    the input, in the append-only and in the position-preserving mode. When
    the bulk append raises, migrated is empty and every pending song has a
    failed entry; when a per-song append returns, the song is in migrated
    whatever the repositioning that follows does, and when it raises the
    song is in failed. *)
Theorem every_song_one_outcome :
  (∀ (env : environment) (payload : dict) (s s' : session) (result : dict),
     migrate_songs env payload s = (Done result, s') →
     ∃ songs migrated failed,
       dict_get payload (py "songs") = PList songs
       ∧ dict_get result (py "migrated") = PList (map PDict migrated)
       ∧ dict_get result (py "failed") = PList (map PDict failed)
       ∧ (length migrated + length failed = length songs)%nat
       ∧ map song_key_of (migrated ++ failed) ≡ₚ imap effective_key songs)
  ∧ (∀ (playlist_id : str) (pending failed : list dict) (s s1 : session) (exc : str),
       pending ≠ [] →
       invoke (AddPlaylistItems playlist_id
                 (map (λ song, str_of (dict_get song (py "videoId"))) pending) false) s
         = (Raises exc, s1) →
       add_pending playlist_id false pending failed s
       = ([],
          failed ++ map (λ song,
                           failure (dict_get song (py "songKey"))
                                   (dict_get song (py "title"))
                                   (dict_get song (py "artist"))
                                   (dict_get song (py "album"))
                                   (py "Failed to add songs to playlist: " ++ exc))
                        pending,
          s1))
  ∧ (∀ (playlist_id : str) (song : dict) (s : session),
       let s1 := (invoke (GetPlaylist playlist_id 5000) s).2 in
       let added :=
         invoke (AddPlaylistItems playlist_id
                   [str_of (dict_get song (py "videoId"))] false) s1 in
       match added.1 with
       | Returns _ => (add_in_place playlist_id song s).1 = inr song
       | Raises exc =>
           (add_in_place playlist_id song s).1
           = inl (failure (dict_get song (py "songKey")) (dict_get song (py "title"))
                          (dict_get song (py "artist")) (dict_get song (py "album"))
                          (py "Failed to add song to playlist: " ++ exc))
       end).
Proof.
  split; [|split].
  - intros env payload s s' result Hrun.
    destruct (migrate_songs_done _ _ _ _ _ Hrun) as (_ & song & rest & Hsongs & Hbatch).
    unfold batch_of in Hbatch.
    destruct (migrate_batch_keys
                (safe_str (dict_get payload (py "playlistId")))
                (is_truthy (dict_get payload (py "debug"))
                 || is_truthy (opt_str (debug_var env)))
                (is_truthy (dict_get payload (py "preservePosition")))
                (song :: rest) s) as (migrated & failed & Hm & Hf & Hperm).
    rewrite Hbatch in Hm, Hf. cbn [fst] in Hm, Hf.
    exists (song :: rest), migrated, failed. repeat split; try done.
    apply Permutation_length in Hperm.
    rewrite length_map, length_app, length_imap in Hperm. done.
  - intros playlist_id pending failed s s1 exc Hne Hadd.
    unfold add_pending. destruct pending as [|song pending]; [done|].
    cbn [negb]. by rewrite Hadd.
  - intros playlist_id song s.
    pose proof (add_in_place_outcome playlist_id song s) as Hout. cbv zeta in *.
    destruct (invoke (AddPlaylistItems playlist_id _ false) _) as [[v|exc] s2];
      cbn [fst snd] in *; [done | by rewrite Hout].
Qed.

Lemma resolve_titleless debug index song debug_searches s :
  safe_str (dict_get song (py "title")) = [] →
  resolve_song debug index (PDict song) debug_searches s
  = (Unresolved (title_required index song), debug_searches, s).
Proof.
  intros Htitle. unfold resolve_song, title_required, effective_key.
  cbv zeta. by rewrite Htitle.
Qed.

Lemma add_each_in_place_prefix playlist_id pending :
  ∀ successful failed s,
    add_each_in_place playlist_id pending successful failed s
    = let '(successful', extra, s') :=
        add_each_in_place playlist_id pending successful [] s in
      (successful', failed ++ extra, s').
Proof.
  induction pending as [|song pending IH]; intros successful failed s.
  - cbn. by rewrite app_nil_r.
  - cbn [add_each_in_place].
    destruct (add_in_place playlist_id song s) as [[e|song'] s1].
    + rewrite (IH successful (failed ++ [e])), (IH successful ([] ++ [e])).
      destruct (add_each_in_place playlist_id pending successful [] s1)
        as [[p' f'] s'].
      by rewrite <- app_assoc.
    + apply IH.
Qed.

(** The entries the second half appends to [failed] do not depend on the
    entries that are there already. *)
Lemma add_pending_prefix playlist_id preserve pending failed s :
  add_pending playlist_id preserve pending failed s
  = let '(successful, extra, s') := add_pending playlist_id preserve pending [] s in
    (successful, failed ++ extra, s').
Proof.
  unfold add_pending. destruct pending as [|song pending].
  - by rewrite app_nil_r.
  - destruct preserve; cbn [negb].
    + apply add_each_in_place_prefix.
    + destruct (invoke _ s) as [[v|exc] s1]; [by rewrite app_nil_r | done].
Qed.

(** A song without a title leaves its entry in [failed] and the loop goes
    on with the songs after it, from the same state of the remote service. *)
Lemma resolve_songs_past_titleless debug song pre :
  safe_str (dict_get song (py "title")) = [] →
  ∀ post index pending failed debug_searches s,
    resolve_songs debug index (pre ++ PDict song :: post)
                  pending failed debug_searches s
    = let '(pending1, failed1, debug1, s1) :=
        resolve_songs debug index pre pending failed debug_searches s in
      resolve_songs debug (S (index + length pre)) post pending1
                    (failed1 ++ [title_required (index + length pre) song])
                    debug1 s1.
Proof.
  intros Htitle. induction pre as [|x pre IH];
    intros post index pending failed debug_searches s.
  - cbn [app resolve_songs length]. rewrite resolve_titleless by done.
    by rewrite Nat.add_0_r.
  - cbn [app resolve_songs length].
    destruct (resolve_song debug index x debug_searches s) as [[[e|e] d1] s1];
      rewrite IH; by replace (S index + length pre)%nat with (index + S (length pre))%nat by lia.
Qed.

Lemma batch_with_titleless playlist_id debug preserve A song a s :
  safe_str (dict_get song (py "title")) = [] →
  dict_get (migrate_batch playlist_id debug preserve [A] s).1 (py "migrated")
    = PList [PDict a] →
  dict_get (migrate_batch playlist_id debug preserve [A] s).1 (py "failed")
    = PList [] →
  let run := migrate_batch playlist_id debug preserve [A; PDict song] s in
  run.2 = (migrate_batch playlist_id debug preserve [A] s).2
  ∧ dict_get run.1 (py "ok") = PBool true
  ∧ dict_get run.1 (py "migrated") = PList [PDict a]
  ∧ dict_get run.1 (py "failed") = PList [PDict (title_required 1 song)].
Proof.
  intros Htitle Hm Hf. cbv zeta.
  pose proof (migrate_batch_fields playlist_id debug preserve [A] s) as HA.
  pose proof (migrate_batch_fields playlist_id debug preserve [A; PDict song] s) as HB.
  cbn [resolve_songs app] in HA, HB.
  destruct (resolve_song debug 0 A [] s) as [[[e|e] d1] s1].
  - cbn [add_pending] in HA.
    destruct (migrate_batch playlist_id debug preserve [A] s) as [rA sA].
    destruct HA as (_ & _ & HmA & _). cbn [fst] in Hm. by rewrite Hm in HmA.
  - rewrite resolve_titleless in HB by done. cbn [app] in HB.
    rewrite add_pending_prefix in HB.
    destruct (add_pending playlist_id preserve [e] [] s1) as [[succ extra] s2].
    destruct (migrate_batch playlist_id debug preserve [A] s) as [rA sA].
    destruct (migrate_batch playlist_id debug preserve [A; PDict song] s) as [rB sB].
    cbn [fst snd] in *.
    destruct HA as (-> & _ & HmA & HfA). destruct HB as (-> & Hok & HmB & HfB).
    rewrite Hm in HmA. rewrite Hf in HfA.
    injection HmA as HmA. injection HfA as HfA.
    destruct extra; [|done].
    split; [done|]. split; [done|]. split; [by rewrite HmB, <- HmA | done].
Qed.

(** C9. A batch of two songs, the first resolved and appended (alone it
    gives migrated [a] and failed []), the second without a title and
    without a songKey: the response is ok true, migrated is [a], and
    failed holds the one entry of the second song, songKey "song-1", error
    "Song title is required." (with its title, artist and album). In any
    batch a song without a title leaves its entry in failed and the songs
    after it are processed from the same remote state. *)
Theorem empty_title_is_recorded
    (env : environment) (fields : dict) (A : pyval) (song a : dict)
    (s s' : session) (resultA : dict) :
  safe_str (dict_get song (py "title")) = [] →
  safe_str (dict_get song (py "songKey")) = [] →
  migrate_songs env ((py "songs", PList [A]) :: fields) s = (Done resultA, s') →
  dict_get resultA (py "migrated") = PList [PDict a] →
  dict_get resultA (py "failed") = PList [] →
  (∃ result,
     migrate_songs env ((py "songs", PList [A; PDict song]) :: fields) s
       = (Done result, s')
     ∧ dict_get result (py "ok") = PBool true
     ∧ dict_get result (py "migrated") = PList [PDict a]
     ∧ dict_get result (py "failed") = PList [PDict (title_required 1 song)])
  ∧ song_key_of (title_required 1 song) = PStr (py "song-1")
  ∧ dict_get (title_required 1 song) (py "error") = PStr (py "Song title is required.")
  ∧ (∀ debug pre post index pending failed debug_searches s0,
       resolve_songs debug index (pre ++ PDict song :: post)
                     pending failed debug_searches s0
       = let '(pending1, failed1, debug1, s1) :=
           resolve_songs debug index pre pending failed debug_searches s0 in
         resolve_songs debug (S (index + length pre)) post pending1
                       (failed1 ++ [title_required (index + length pre) song])
                       debug1 s1).
Proof.
  intros Htitle Hkey Hrun Hm Hf. split; [|split; [|split]].
  - destruct (migrate_songs_done _ _ _ _ _ Hrun)
      as (Hchecks & song0 & rest0 & Hsongs & Hbatch).
    rewrite dict_get_head in Hsongs. injection Hsongs as <- <-.
    assert (checks_pass env ((py "songs", PList [A; PDict song]) :: fields)) as Hc'
      by exact Hchecks.
    rewrite (migrate_songs_passed _ _ _ A [PDict song] Hc') by apply dict_get_head.
    change (batch_of env ((py "songs", PList [A; PDict song]) :: fields))
      with (batch_of env ((py "songs", PList [A]) :: fields)).
    unfold batch_of in *.
    set (playlist_id := safe_str (dict_get _ (py "playlistId"))) in *.
    set (debug := is_truthy (dict_get _ (py "debug")) || _) in *.
    set (preserve := is_truthy (dict_get _ (py "preservePosition"))) in *.
    destruct (batch_with_titleless playlist_id debug preserve A song a s Htitle)
      as (Hs & Hok & Hm' & Hf').
    { by rewrite Hbatch. }
    { by rewrite Hbatch. }
    rewrite Hbatch in Hs. cbn [snd] in Hs. rewrite Hs.
    eexists. split; [done|]. done.
  - unfold title_required. rewrite failure_key. unfold effective_key. by rewrite Hkey.
  - done.
  - intros debug pre. by apply resolve_songs_past_titleless.
Qed.
End BatchFacts.

(** * Worked examples

    Each statement below is one of the properties above at a concrete input,
    with the interpreter [plain_builtins] and the clients [replay] and
    [still]; the ones named after a sample input show what the code does
    where a sentence of the specification says otherwise. *)

Lemma still_never_raises : reorder_never_raises (ytmusic := still).
Proof. intros playlist_id moveItem w. by eexists _, _. Qed.

(** C6 at an ASCII string with capitals and punctuation. *)
Lemma normalize_idempotent_witness :
  Forall (fun c => (c < 128)%N) (py "Bohemian-Rhapsody!!")
  ∧ Migrate.normalize (builtins := plain_builtins)
      (map ascii_lower (py "Bohemian-Rhapsody!!"))
    = Migrate.normalize (builtins := plain_builtins) (py "Bohemian-Rhapsody!!").
Proof.
  assert (Forall (fun c => (c < 128)%N) (py "Bohemian-Rhapsody!!")) as Hascii.
  { apply Forall_forall. intros c Hc.
    repeat (apply elem_of_cons in Hc as [-> | Hc]; [reflexivity|]).
    by apply not_elem_of_nil in Hc. }
  split; [exact Hascii|].
  destruct (normalize_idempotent (builtins := plain_builtins))
    as (_ & _ & _ & Hcase & _).
  exact (Hcase _ Hascii).
Defined.

(** C1 at a snapshot in which the appended id occurs three times. *)
Lemma reconciler_finds_new_row_witness :
  [row "abc" "t1"; row "b" "t2"; row "abc" "t3"; row "abc" "t4"] !! 3%nat
    = Some (row "abc" "t4")
  ∧ new_row (py "abc") {[ py "t1"; py "t2"; py "t3" ]} (row "abc" "t4")
  ∧ with_fallback
      (scan_after (py "abc") {[ py "t1"; py "t2"; py "t3" ]}
                  [row "abc" "t1"; row "b" "t2"; row "abc" "t3"; row "abc" "t4"])
    = (py "t4", 3).
Proof.
  assert (new_row (py "abc") {[ py "t1"; py "t2"; py "t3" ]} (row "abc" "t4")) as Hnew.
  { split; [reflexivity|]. split; [discriminate|].
    apply (bool_decide_eq_false_1 _). vm_compute. reflexivity. }
  split; [reflexivity|]. split; [exact Hnew|].
  apply (proj1 reconciler_finds_new_row (py "abc") _ _ 3%nat (row "abc" "t4"));
    [reflexivity | exact Hnew |].
  intros j row' Hj Hrow. apply lookup_lt_Some in Hrow. cbn in Hrow. lia.
Defined.

(** C4 with the artists of the candidates given as lists. *)
Lemma bohemian_rhapsody_scores_witness :
  Migrate.score_search_result (builtins := plain_builtins)
    (Migrate.candidate "Bohemian Rhapsody" "Queen" "abc")
    (py "Bohemian Rhapsody") (py "Queen") = 15
  ∧ Migrate.score_search_result (builtins := plain_builtins)
      (Migrate.candidate "Bohemian Rhapsody (Remastered)" "Queen" "def")
      (py "Bohemian Rhapsody") (py "Queen") = 12
  ∧ Migrate.pick_best_match (builtins := plain_builtins)
      [PDict (Migrate.candidate "Bohemian Rhapsody" "Queen" "abc");
       PDict (Migrate.candidate "Bohemian Rhapsody (Remastered)" "Queen" "def")]
      (py "Bohemian Rhapsody") (py "Queen") [] true
    = Some (Migrate.candidate "Bohemian Rhapsody" "Queen" "abc").
Proof.
  destruct (bohemian_rhapsody_scores (builtins := plain_builtins)
              Migrate.candidate (or_introl eq_refl))
    as (HA & HB & _ & _ & Hpick).
  split; [exact HA|]. split; [exact HB|]. exact (proj1 (Hpick true)).
Defined.

(** C5 with no result of a positive artist level and a title that matches
    exactly. *)
Lemma artist_filter_policy_witness :
  py "Queen" ≠ []
  ∧ Migrate.pick_best_match (builtins := plain_builtins)
      [PDict (Migrate.candidate "Bohemian Rhapsody" "Panic! At The Disco" "xyz")]
      (py "Bohemian Rhapsody") (py "Queen") [] true = None
  ∧ Migrate.pick_best_match (builtins := plain_builtins)
      [PDict (Migrate.candidate "Bohemian Rhapsody" "Panic! At The Disco" "xyz")]
      (py "Bohemian Rhapsody") (py "Queen") [] false
    = Some (Migrate.candidate "Bohemian Rhapsody" "Panic! At The Disco" "xyz").
Proof.
  assert (py "Queen" ≠ []) as Hne by discriminate.
  destruct (artist_filter_policy (builtins := plain_builtins)
              [PDict (Migrate.candidate "Bohemian Rhapsody" "Panic! At The Disco" "xyz")]
              (py "Bohemian Rhapsody") (py "Queen") [] Hne) as [Pnone _].
  destruct (Pnone eq_refl) as (Ptrue & Pfalse & _).
  split; [exact Hne|]. split; [exact Ptrue|]. rewrite Pfalse. reflexivity.
Defined.

(** C2, amended, at the four-row snapshot: inserted at index 3, wanted at
    index 1. *)
Lemma insert_plan_witness :
  with_fallback (scan_after (py "abc") {[ py "t1"; py "t2"; py "t3" ]} four_rows)
    = (py "t4", 3)
  ∧ four_rows !! 1%nat = Some (row "b" "t2")
  ∧ (Load.place_inserted (ytmusic := replay) (py "PL") (py "abc") 1
        {| after_tracks := four_rows;
           hits := scan_after (py "abc") {[ py "t1"; py "t2"; py "t3" ]} four_rows |}
        (start (ytmusic := replay) [Returns PNone])).1
    = Done (Load.insert_response (py "PL") (py "abc") 1 true)
  ∧ calls (Load.place_inserted (ytmusic := replay) (py "PL") (py "abc") 1
             {| after_tracks := four_rows;
                hits := scan_after (py "abc") {[ py "t1"; py "t2"; py "t3" ]} four_rows |}
             (start (ytmusic := replay) [Returns PNone])).2
    = [EditPlaylist (py "PL") (py "t4", py "t2")].
Proof.
  split; [reflexivity|]. split; [reflexivity|].
  destruct (insert_plan (ytmusic := replay) (py "PL") (py "abc") 1 four_rows
              (scan_after (py "abc") {[ py "t1"; py "t2"; py "t3" ]} four_rows)
              (py "t4") 3 (start (ytmusic := replay) [Returns PNone]))
    as (_ & _ & Hexample);
    [cbn; lia | lia | reflexivity | discriminate | cbn; lia |].
  destruct (Hexample eq_refl eq_refl eq_refl (row "b" "t2") eq_refl)
    as [Hcalls Hdone]; [discriminate | discriminate |].
  split; [exact (Hdone PNone eq_refl) | exact Hcalls].
Defined.

(** What the code does where C2 as stated says otherwise: N = 4, the
    inserted row at index 3, the requested index 1, and the row at index 1
    without a token. The token of that row, the empty one, differs from the
    inserted token, and it is the row at the successor slot; the one reorder
    call is against the token at index 2. *)
Lemma successor_skips_tokenless_row :
  with_fallback (scan_after (py "abc") (before_tokens (snapshot gap_rows)) gap_rows_after)
    = (py "t4", 3)
  ∧ length gap_rows_after = 4%nat
  ∧ successor_slot 3 (Z.min 1 (4 - 1)) = 1
  ∧ token_at gap_rows_after 1 = []
  ∧ token_at gap_rows_after 1 ≠ py "t4"
  ∧ token_at gap_rows_after 2 = py "t3"
  ∧ Load.handle_insert_video_at_position (builtins := plain_builtins) (ytmusic := replay)
      (insert_request 1) (start (ytmusic := replay) (insert_script gap_rows gap_rows_after))
    = (Done (Load.insert_response (py "PL") (py "abc") 1 true),
       @Session replay []
               [GetPlaylist (py "PL") 5000;
                AddPlaylistItems (py "PL") [py "abc"] false;
                GetPlaylist (py "PL") 5000;
                EditPlaylist (py "PL") (py "t4", py "t3")]).
Proof.
  split; [reflexivity|]. split; [reflexivity|]. split; [reflexivity|].
  split; [reflexivity|]. split; [discriminate|]. split; reflexivity.
Qed.

(** C3 at the four-row snapshot: the row at index 1 moved up by one. *)
Lemma relative_move_steps_witness :
  Load.move_inputs (builtins := plain_builtins)
    (move_request (by_token "t2") "up" 1) (py "PL") (by_token "t2") (py "up") 1
  ∧ Load.locate_playlist_song_index four_rows (by_token "t2") = (1, py "t2")
  ∧ (Load.handle_move_playlist_song (builtins := plain_builtins) (ytmusic := still)
       (move_request (by_token "t2") "up" 1)
       (start (ytmusic := still) (snapshot four_rows))).1
    = Done (Load.move_response (py "PL") true 1 0)
  ∧ Load.reorder_count
      (calls (Load.handle_move_playlist_song
                (builtins := plain_builtins) (ytmusic := still)
                (move_request (by_token "t2") "up" 1)
                (start (ytmusic := still) (snapshot four_rows))).2) = 1.
Proof.
  assert (Load.move_inputs (builtins := plain_builtins)
            (move_request (by_token "t2") "up" 1) (py "PL") (by_token "t2") (py "up") 1)
    as Hin.
  { repeat split; try reflexivity; try discriminate. by left. }
  split; [exact Hin|]. split; [reflexivity|].
  destruct (relative_move_steps (builtins := plain_builtins) (ytmusic := still)
              (move_request (by_token "t2") "up" 1) (py "PL") (by_token "t2") (py "up") 1
              (snapshot four_rows) four_rows 1 (py "t2")
              (start (ytmusic := still) (snapshot four_rows))
              (@Session still (snapshot four_rows) [GetPlaylist (py "PL") 5000])
              Hin eq_refl eq_refl) as [_ Hexact];
    [cbn; lia | reflexivity | lia |].
  destruct (Hexact still_never_raises 1) as [Hdone Hissued].
  - vm_compute. split; discriminate.
  - intros d Hd. assert (d = 1) as -> by lia. vm_compute. discriminate.
  - vm_compute. discriminate.
  - split; [exact Hdone|].
    change (Load.reorder_count (calls (start (ytmusic := still) (snapshot four_rows))))
      with 0 in Hissued.
    lia.
Defined.

(** C7, amended, at the four-row snapshot: a token no row carries. *)
Lemma move_unlocatable_row_witness :
  Load.move_inputs (builtins := plain_builtins)
    (move_request (by_token "zz") "down" 2) (py "PL") (by_token "zz") (py "down") 2
  ∧ Load.unlocatable four_rows (by_token "zz")
  ∧ Load.handle_move_playlist_song (builtins := plain_builtins) (ytmusic := still)
      (move_request (by_token "zz") "down" 2)
      (start (ytmusic := still) (snapshot four_rows))
    = (emit_error (py "Could not find selected song in playlist.")
                  (py "playlist_song_not_found") 404 [],
       (@Session still (snapshot four_rows) [GetPlaylist (py "PL") 5000])).
Proof.
  assert (Load.move_inputs (builtins := plain_builtins)
            (move_request (by_token "zz") "down" 2) (py "PL") (by_token "zz")
            (py "down") 2) as Hin.
  { repeat split; try reflexivity; try discriminate. by right. }
  assert (Load.unlocatable four_rows (by_token "zz")) as Hun.
  { split; [|by intros Hv].
    intros _ track Htrack.
    repeat (apply elem_of_cons in Htrack as [-> | Htrack]; [discriminate|]).
    by apply not_elem_of_nil in Htrack. }
  split; [exact Hin|]. split; [exact Hun|].
  apply (move_unlocatable_row (builtins := plain_builtins) (ytmusic := still)
           (move_request (by_token "zz") "down" 2) (py "PL") (by_token "zz") (py "down") 2
           (snapshot four_rows) four_rows
           (start (ytmusic := still) (snapshot four_rows)) _ Hin eq_refl eq_refl);
    [cbn; lia | exact Hun].
Defined.

(** What the code does where C7 as stated says otherwise: a snapshot of one
    row, or of none, and a reference to a row that is not there. The move
    returns the no-op response, not the not-found error. *)
Lemma move_on_single_row_is_noop :
  Load.unlocatable [row "a" "t1"] (by_token "zz")
  ∧ Load.handle_move_playlist_song (builtins := plain_builtins) (ytmusic := still)
      (move_request (by_token "zz") "up" 1)
      (start (ytmusic := still) (snapshot [row "a" "t1"]))
    = (Done (Load.move_response (py "PL") false 0 0),
       @Session still (snapshot [row "a" "t1"]) [GetPlaylist (py "PL") 5000])
  ∧ Load.unlocatable [] (by_token "zz")
  ∧ Load.handle_move_playlist_song (builtins := plain_builtins) (ytmusic := still)
      (move_request (by_token "zz") "up" 1)
      (start (ytmusic := still) (snapshot []))
    = (Done (Load.move_response (py "PL") false 0 0),
       @Session still (snapshot []) [GetPlaylist (py "PL") 5000])
  ∧ Done (Load.move_response (py "PL") false 0 0)
    ≠ emit_error (py "Could not find selected song in playlist.")
                 (py "playlist_song_not_found") 404 [].
Proof.
  split; [|split; [reflexivity | split; [|split; [reflexivity | discriminate]]]].
  - split; [|by intros Hv].
    intros _ track Htrack.
    repeat (apply elem_of_cons in Htrack as [-> | Htrack]; [discriminate|]).
    by apply not_elem_of_nil in Htrack.
  - split; intros _ track Htrack; by apply not_elem_of_nil in Htrack.
Qed.

(** C8, amended, at a reply with no tracks field. *)
Lemma malformed_snapshot_reads_empty_witness :
  safe_str (dict_get batch_fields (py "playlistId")) = py "PL"
  ∧ py "PL" ≠ []
  ∧ tracks_field (PDict []) = PNone
  ∧ Load.handle_playlist_songs (ytmusic := still) batch_fields
      (start (ytmusic := still) (PDict []))
    = (Done [(py "ok", PBool true); (py "songs", PList []);
             (py "songDetails", PList [])],
       (@Session still (PDict []) [GetPlaylist (py "PL") 5000])).
Proof.
  split; [reflexivity|]. split; [discriminate|]. split; [reflexivity|].
  destruct (malformed_snapshot_reads_empty (builtins := plain_builtins) (ytmusic := still)
              batch_fields (py "PL") (PDict [])
              (start (ytmusic := still) (PDict []))
              (@Session still (PDict []) [GetPlaylist (py "PL") 5000]))
    as [Hreturned _]; [reflexivity | discriminate | discriminate |].
  destruct (Hreturned eq_refl) as [Hsongs _]. exact Hsongs.
Defined.

(** What the code does where C8 as stated says otherwise: a reply whose
    tracks field is a string, and one that has none. The songs read and the
    move end with their ordinary responses, not with a load error. *)
Lemma malformed_snapshot_is_no_error :
  tracks_field (PDict [(py "tracks", PStr (py "oops"))]) = PStr (py "oops")
  ∧ tracks_field (PDict []) = PNone
  ∧ (Load.handle_playlist_songs (ytmusic := still) batch_fields
       (start (ytmusic := still) (PDict [(py "tracks", PStr (py "oops"))]))).1
    = Done [(py "ok", PBool true); (py "songs", PList []); (py "songDetails", PList [])]
  ∧ (Load.handle_playlist_songs (ytmusic := still) batch_fields
       (start (ytmusic := still) (PDict []))).1
    = Done [(py "ok", PBool true); (py "songs", PList []); (py "songDetails", PList [])]
  ∧ (Load.handle_move_playlist_song (builtins := plain_builtins) (ytmusic := still)
       (move_request (by_token "t2") "up" 1)
       (start (ytmusic := still) (PDict [(py "tracks", PStr (py "oops"))]))).1
    = Done (Load.move_response (py "PL") false 0 0)
  ∧ (Load.handle_move_playlist_song (builtins := plain_builtins) (ytmusic := still)
       (move_request (by_token "t2") "up" 1)
       (start (ytmusic := still) (PDict []))).1
    = Done (Load.move_response (py "PL") false 0 0).
Proof. repeat split; reflexivity. Qed.

(** C9 at the batch of [song_a] and [song_b]. *)
Lemma empty_title_is_recorded_witness :
  safe_str (dict_get song_b (py "title")) = []
  ∧ safe_str (dict_get song_b (py "songKey")) = []
  ∧ Migrate.migrate_songs (builtins := plain_builtins) (ytmusic := replay) sample_env
      ((py "songs", PList [song_a]) :: batch_fields)
      (start (ytmusic := replay) batch_script)
    = (Done [(py "ok", PBool true); (py "playlistId", PStr (py "PL"));
             (py "migrated", PList [PDict entry_a]); (py "failed", PList [])],
       @Session replay [] batch_calls)
  ∧ Migrate.title_required 1 song_b
    = [(py "songKey", PStr (py "song-1")); (py "title", PStr []);
       (py "artist", PStr (py "Queen")); (py "album", PStr []);
       (py "error", PStr (py "Song title is required."))]
  ∧ ∃ result,
      Migrate.migrate_songs (builtins := plain_builtins) (ytmusic := replay) sample_env
        ((py "songs", PList [song_a; PDict song_b]) :: batch_fields)
        (start (ytmusic := replay) batch_script)
      = (Done result, @Session replay [] batch_calls)
      ∧ dict_get result (py "ok") = PBool true
      ∧ dict_get result (py "migrated") = PList [PDict entry_a]
      ∧ dict_get result (py "failed") = PList [PDict (Migrate.title_required 1 song_b)].
Proof.
  split; [reflexivity|]. split; [reflexivity|]. split; [reflexivity|].
  split; [reflexivity|].
  apply (empty_title_is_recorded (builtins := plain_builtins) (ytmusic := replay)
           sample_env batch_fields song_a song_b entry_a
           (start (ytmusic := replay) batch_script)
           (@Session replay [] batch_calls)
           [(py "ok", PBool true); (py "playlistId", PStr (py "PL"));
            (py "migrated", PList [PDict entry_a]); (py "failed", PList [])]
           eq_refl eq_refl eq_refl eq_refl eq_refl).
Defined.

(** C10 at the same batch: two songs, one entry each. *)
Lemma every_song_one_outcome_witness :
  ∃ migrated failed,
    Migrate.migrate_songs (builtins := plain_builtins) (ytmusic := replay) sample_env
      ((py "songs", PList [song_a; PDict song_b]) :: batch_fields)
      (start (ytmusic := replay) batch_script)
    = (Done [(py "ok", PBool true); (py "playlistId", PStr (py "PL"));
             (py "migrated", PList (map PDict migrated));
             (py "failed", PList (map PDict failed))],
       (@Session replay [] batch_calls))
    ∧ (length migrated + length failed = 2)%nat
    ∧ map Migrate.song_key_of (migrated ++ failed)
      ≡ₚ [PStr (py "song-0"); PStr (py "song-1")].
Proof.
  destruct (proj1 (every_song_one_outcome (builtins := plain_builtins) (ytmusic := replay))
              sample_env ((py "songs", PList [song_a; PDict song_b]) :: batch_fields)
              (start (ytmusic := replay) batch_script)
              (@Session replay [] batch_calls)
              [(py "ok", PBool true); (py "playlistId", PStr (py "PL"));
               (py "migrated", PList [PDict entry_a]);
               (py "failed", PList [PDict (Migrate.title_required 1 song_b)])]
              eq_refl)
    as (songs & migrated & failed & Hsongs & Hm & Hf & Hlen & Hperm).
  injection Hsongs as <-. injection Hm as Hm. injection Hf as Hf.
  exists migrated, failed. split; [by rewrite <- Hm, <- Hf|].
  split; [exact Hlen | exact Hperm].
Defined.

(** * Further properties *)

(** ** White space at the ends of a string *)

Lemma lstrip_split (s : str) :
  ∃ p, s = p ++ lstrip s ∧ Forall (fun c => isspace c = true) p.
Proof.
  induction s as [|c s (p & Hs & Hp)]; [by exists []|].
  cbn. destruct (isspace c) eqn:Hc.
  - exists (c :: p). split; [by rewrite Hs at 1 | by constructor].
  - by exists [].
Qed.

Lemma lstrip_head (s : str) (c : char) (r : str) :
  lstrip s = c :: r → isspace c = false.
Proof.
  induction s as [|d s IH]; [done|]. cbn.
  destruct (isspace d) eqn:Hd; [done|]. by intros [= <- _].
Qed.

Lemma lstrip_fixed (s : str) :
  (∀ c r, s = c :: r → isspace c = false) → lstrip s = s.
Proof. destruct s as [|c r]; [done|]. intros Hs. cbn. by rewrite (Hs c r). Qed.

Lemma lstrip_spaces (s : str) :
  Forall (fun c => isspace c = true) s → lstrip s = [].
Proof. induction 1 as [|c s Hc _ IH]; [done|]. cbn. by rewrite Hc. Qed.

Lemma last_rev {A} (l : list A) : last (rev l) = head l.
Proof. destruct l as [|x l]; [done|]. cbn. apply last_snoc. Qed.

Lemma lstrip_keeps_last (s : str) (c : char) :
  isspace c = false → lstrip (s ++ [c]) ≠ [] ∧ last (lstrip (s ++ [c])) = Some c.
Proof.
  intros Hc. induction s as [|d s IH]; cbn.
  - by rewrite Hc.
  - destruct (isspace d); [done|]. split; [done|].
    change (d :: s ++ [c]) with ((d :: s) ++ [c]). apply last_snoc.
Qed.

Lemma strip_shape (s : str) :
  (∃ p q, s = p ++ strip s ++ q
          ∧ Forall (fun c => isspace c = true) p
          ∧ Forall (fun c => isspace c = true) q)
  ∧ (∀ c, head (strip s) = Some c → isspace c = false)
  ∧ (∀ c, last (strip s) = Some c → isspace c = false)
  ∧ strip (strip s) = strip s.
Proof.
  unfold strip.
  destruct (lstrip_split s) as (p & Hs & Hp).
  destruct (lstrip_split (rev (lstrip s))) as (q & Hr & Hq).
  set (t := lstrip s) in *. set (u := lstrip (rev t)) in *.
  assert (t = rev u ++ rev q) as Ht.
  { rewrite <- (rev_involutive t), Hr, rev_app_distr. done. }
  assert (∀ c, last (rev u) = Some c → isspace c = false) as Hlast.
  { intros c Hc. rewrite last_rev in Hc.
    destruct u as [|d u'] eqn:Hu; [done|]. injection Hc as ->.
    by apply (lstrip_head (rev t) c u'). }
  assert (∀ c, head (rev u) = Some c → isspace c = false) as Hhead.
  { intros c Hc. destruct (rev u) as [|d v] eqn:Hv; [done|]. injection Hc as ->.
    apply (lstrip_head s c (v ++ rev q)). fold t. exact Ht. }
  split; [|split; [done|split; [done|]]].
  - exists p, (rev q). split; [by rewrite Hs at 1; rewrite Ht|].
    split; [done|]. by apply Forall_rev.
  - assert (lstrip (rev u) = rev u) as ->.
    { apply lstrip_fixed. intros c r Hc. apply Hhead. by rewrite Hc. }
    rewrite rev_involutive. f_equal. apply lstrip_fixed.
    intros c r Hc. apply Hlast. rewrite last_rev, Hc. done.
Qed.

Lemma strip_strip (s : str) : strip (strip s) = strip s.
Proof. apply strip_shape. Qed.

Lemma safe_str_stripped (s : str) : safe_str (PStr (strip s)) = strip s.
Proof. apply strip_strip. Qed.

(** X1. [strip], and so [safe_str] on a string, removes white space at the
    two ends and nothing else: the string is a run of white space, the
    stripped string, a run of white space; the stripped string neither
    starts nor ends with white space; it is empty exactly when the string is
    all white space; and [safe_str] of its own result is that result. *)
Theorem strip_removes_outer_space (s : str) :
  (∃ p q, s = p ++ safe_str (PStr s) ++ q
          ∧ Forall (fun c => isspace c = true) p
          ∧ Forall (fun c => isspace c = true) q)
  ∧ (∀ c, head (safe_str (PStr s)) = Some c → isspace c = false)
  ∧ (∀ c, last (safe_str (PStr s)) = Some c → isspace c = false)
  ∧ (safe_str (PStr s) = [] ↔ Forall (fun c => isspace c = true) s)
  ∧ safe_str (PStr (safe_str (PStr s))) = safe_str (PStr s).
Proof.
  cbn [safe_str].
  destruct (strip_shape s) as (Hparts & Hhead & Hlast & Hidem).
  split; [done|]. split; [done|]. split; [done|]. split; [|done].
  split.
  - intros Hnil. destruct Hparts as (p & q & Hs & Hp & Hq).
    rewrite Hs, Hnil. cbn. by apply Forall_app.
  - intros Hall. unfold strip. by rewrite (lstrip_spaces s Hall).
Qed.

(** ** References to a playlist row *)
Section ReferenceFacts.
Import Load.

Lemma str_eqb_refl (a : str) : str_eqb a a = true.
Proof. by apply str_eqb_eq. Qed.

(** X2. [normalize_playlist_song_ref] gives nothing exactly for a value that
    carries neither a position token nor an external identifier; what it
    gives is a reference that it maps to itself and that
    [locate_playlist_song_index] resolves to the same row as the value it
    came from. *)
Theorem normalized_reference_is_stable (value : pyval) :
  match normalize_playlist_song_ref value with
  | None => row_token value = [] ∧ row_video value = []
  | Some song_ref =>
      (row_token value ≠ [] ∨ row_video value ≠ [])
      ∧ safe_str (dict_get song_ref (py "setVideoId")) = row_token value
      ∧ safe_str (dict_get song_ref (py "videoId")) = row_video value
      ∧ normalize_playlist_song_ref (PDict song_ref) = Some song_ref
      ∧ ∀ tracks d, value = PDict d →
          locate_playlist_song_index tracks song_ref
          = locate_playlist_song_index tracks d
  end.
Proof.
  destruct value as [| | | | | |d]; try done.
  cbn [normalize_playlist_song_ref row_token row_video].
  set (t := safe_str (dict_get d (py "setVideoId"))).
  set (v := safe_str (dict_get d (py "videoId"))).
  assert (safe_str (PStr t) = t) as Ht.
  { unfold t, safe_str at 1. destruct (dict_get d (py "setVideoId")); try done.
    apply strip_strip. }
  assert (safe_str (PStr v) = v) as Hv.
  { unfold v, safe_str at 1. destruct (dict_get d (py "videoId")); try done.
    apply strip_strip. }
  assert (str_eqb (py "setVideoId") (py "videoId") = false) as Hne1 by done.
  assert (str_eqb (py "videoId") (py "setVideoId") = false) as Hne2 by done.
  destruct (truthy t) eqn:Htt; destruct (truthy v) eqn:Htv; cbn [negb andb app].
  - assert (dict_get [(py "setVideoId", PStr t); (py "videoId", PStr v)]
                     (py "setVideoId") = PStr t) as G1 by apply dict_get_head.
    assert (dict_get [(py "setVideoId", PStr t); (py "videoId", PStr v)]
                     (py "videoId") = PStr v) as G2.
    { cbn [dict_get]. by rewrite Hne1, str_eqb_refl. }
    split; [left; by apply truthy_true|]. rewrite G1, G2, Ht, Hv.
    split; [done|]. split; [done|]. split.
    + cbn [normalize_playlist_song_ref]. rewrite ?G1, ?G2, ?Ht, ?Hv, ?Htt, ?Htv. done.
    + intros tracks d' [= <-]. unfold locate_playlist_song_index.
      rewrite ?G1, ?G2, ?Ht, ?Hv. done.
  - assert (dict_get [(py "setVideoId", PStr t)] (py "setVideoId") = PStr t)
      as G1 by apply dict_get_head.
    assert (dict_get [(py "setVideoId", PStr t)] (py "videoId") = PNone) as G2.
    { cbn [dict_get]. by rewrite Hne1. }
    apply truthy_false in Htv as Hv0.
    split; [left; by apply truthy_true|]. rewrite G1, G2, Ht.
    split; [done|]. split; [done|]. split.
    + cbn [normalize_playlist_song_ref]. rewrite ?G1, ?G2, ?Ht, ?Htt, ?Htv. done.
    + intros tracks d' [= <-]. unfold locate_playlist_song_index.
      rewrite ?G1, ?G2, ?Ht. fold v. rewrite Hv0. done.
  - assert (dict_get [(py "videoId", PStr v)] (py "videoId") = PStr v)
      as G2 by apply dict_get_head.
    assert (dict_get [(py "videoId", PStr v)] (py "setVideoId") = PNone) as G1.
    { cbn [dict_get]. by rewrite Hne2. }
    apply truthy_false in Htt as Ht0.
    split; [right; by apply truthy_true|]. rewrite G1, G2, Hv.
    split; [done|]. split; [done|]. split.
    + cbn [normalize_playlist_song_ref]. rewrite ?G1, ?G2, ?Hv, ?Htv, ?Htt. done.
    + intros tracks d' [= <-]. unfold locate_playlist_song_index.
      rewrite ?G1, ?G2, ?Hv. fold t. rewrite Ht0. done.
  - split; by apply truthy_false.
Qed.

Lemma first_row_here (P : pyval → Prop) (r : pyval) (rows : list pyval) :
  P r → first_row P (r :: rows) 0.
Proof. intros Hr. split; [by exists r|]. intros j row Hj. lia. Qed.

Lemma first_row_later (P : pyval → Prop) (r : pyval) (rows : list pyval) (i : nat) :
  ¬ P r → first_row P rows i → first_row P (r :: rows) (S i).
Proof.
  intros Hr [(row & Hrow & HP) Hbefore]. split; [by exists row|].
  intros [|j] row' Hj Hrow'.
  - by injection Hrow' as <-.
  - apply (Hbefore j); [lia | done].
Qed.

Lemma locate_by_token_first target index tracks :
  target ≠ [] →
  match locate_by_token target index tracks with
  | Some (c, tok) =>
      index ≤ c ∧ tok = target
      ∧ first_row (fun r => row_token r = target) tracks (Z.to_nat (c - index))
  | None => ∀ track, track ∈ tracks → row_token track ≠ target
  end.
Proof.
  intros Htarget. revert index.
  induction tracks as [|r tracks IH]; intros index.
  { cbn. intros track Htrack. by apply not_elem_of_nil in Htrack. }
  assert (row_token r ≠ target →
          match locate_by_token target (index + 1) tracks with
          | Some (c, tok) =>
              index ≤ c ∧ tok = target
              ∧ first_row (fun r => row_token r = target) (r :: tracks)
                          (Z.to_nat (c - index))
          | None => ∀ track, track ∈ r :: tracks → row_token track ≠ target
          end) as Hrest.
  { intros Hr. specialize (IH (index + 1)).
    destruct (locate_by_token target (index + 1) tracks) as [[c tok]|].
    - destruct IH as (Hc & Htok & Hfirst). split; [lia|]. split; [done|].
      replace (Z.to_nat (c - index)) with (S (Z.to_nat (c - (index + 1)))) by lia.
      by apply first_row_later.
    - intros track [-> | Htrack]%elem_of_cons; [done | by apply IH]. }
  destruct r as [| | | | | |t]; try (apply Hrest; cbn; congruence).
  cbn [locate_by_token].
  destruct (str_eqb (safe_str (dict_get t (py "setVideoId"))) target) eqn:Heq.
  - apply str_eqb_eq in Heq. split; [lia|]. split; [done|].
    replace (Z.to_nat (index - index)) with 0%nat by lia. by apply first_row_here.
  - apply Hrest. cbn. by apply str_eqb_neq.
Qed.

Lemma locate_by_video_first target index tracks :
  match locate_by_video target index tracks with
  | Some (c, tok) =>
      index ≤ c
      ∧ first_row (carries target) tracks (Z.to_nat (c - index))
      ∧ ∃ row, tracks !! Z.to_nat (c - index) = Some row ∧ row_token row = tok
  | None => ∀ track, track ∈ tracks → ¬ carries target track
  end.
Proof.
  revert index. induction tracks as [|r tracks IH]; intros index.
  { cbn. intros track Htrack. by apply not_elem_of_nil in Htrack. }
  assert (¬ carries target r →
          match locate_by_video target (index + 1) tracks with
          | Some (c, tok) =>
              index ≤ c
              ∧ first_row (carries target) (r :: tracks) (Z.to_nat (c - index))
              ∧ ∃ row, (r :: tracks) !! Z.to_nat (c - index) = Some row
                       ∧ row_token row = tok
          | None => ∀ track, track ∈ r :: tracks → ¬ carries target track
          end) as Hrest.
  { intros Hr. specialize (IH (index + 1)).
    destruct (locate_by_video target (index + 1) tracks) as [[c tok]|].
    - destruct IH as (Hc & Hfirst & row & Hrow & Htok). split; [lia|].
      replace (Z.to_nat (c - index)) with (S (Z.to_nat (c - (index + 1)))) by lia.
      split; [by apply first_row_later | by exists row].
    - intros track [-> | Htrack]%elem_of_cons; [done | by apply IH]. }
  destruct r as [| | | | | |t]; try (apply Hrest; intros [_ Hr]; by cbn in Hr).
  cbn [locate_by_video].
  destruct (str_eqb (safe_str (dict_get t (py "videoId"))) target) eqn:Heq;
    destruct (truthy (safe_str (dict_get t (py "setVideoId")))) eqn:Htok;
    cbn [andb].
  - apply str_eqb_eq in Heq. apply truthy_true in Htok. split; [lia|].
    replace (Z.to_nat (index - index)) with 0%nat by lia.
    split; [by apply first_row_here | by exists (PDict t)].
  - apply Hrest. intros [_ Hr]. cbn in Hr. by apply truthy_false in Htok.
  - apply Hrest. intros [Hr _]. cbn in Hr. by apply str_eqb_neq in Heq.
  - apply Hrest. intros [Hr _]. cbn in Hr. by apply str_eqb_neq in Heq.
Qed.

(** X3. What [locate_playlist_song_index] returns, for every snapshot and
    reference. A row whose token is the reference's (non-empty) token wins
    over any match by external identifier, and among such rows the first
    one is returned; otherwise the first row that has the reference's
    (non-empty) external identifier and carries a token is returned, with
    that row's token; otherwise the result is (-1, ""), which happens
    exactly when the row cannot be located. *)
Theorem locate_first_match_token_first (tracks : list pyval) (song_ref : dict) :
  let target_token := safe_str (dict_get song_ref (py "setVideoId")) in
  let target_video := safe_str (dict_get song_ref (py "videoId")) in
  let by_token := fun r => row_token r = target_token in
  let hit := locate_playlist_song_index tracks song_ref in
  (target_token ≠ [] ∧ 0 ≤ hit.1 ∧ hit.2 = target_token
   ∧ first_row by_token tracks (Z.to_nat hit.1))
  ∨ ((target_token = [] ∨ ∀ track, track ∈ tracks → ¬ by_token track)
     ∧ target_video ≠ [] ∧ 0 ≤ hit.1
     ∧ first_row (carries target_video) tracks (Z.to_nat hit.1)
     ∧ token_at tracks hit.1 = hit.2)
  ∨ (hit = (-1, []) ∧ unlocatable tracks song_ref).
Proof.
  cbn zeta. unfold locate_playlist_song_index.
  set (tt := safe_str (dict_get song_ref (py "setVideoId"))).
  set (tv := safe_str (dict_get song_ref (py "videoId"))).
  assert (match (if truthy tv then locate_by_video tv 0 tracks else None) with
          | Some h =>
              tv ≠ [] ∧ 0 ≤ h.1
              ∧ first_row (carries tv) tracks (Z.to_nat h.1)
              ∧ token_at tracks h.1 = h.2
          | None =>
              tv ≠ [] → ∀ track, track ∈ tracks →
                row_token track ≠ [] → row_video track ≠ tv
          end) as Hvideo.
  { destruct (truthy tv) eqn:Htv; [|apply truthy_false in Htv; by intros ?].
    pose proof (locate_by_video_first tv 0 tracks) as Hv.
    destruct (locate_by_video tv 0 tracks) as [[c tok]|].
    - destruct Hv as (Hc & Hfirst & row & Hrow & Htok).
      replace (c - 0) with c in * by lia.
      split; [by apply truthy_true|]. split; [done|]. split; [done|].
      cbn [fst snd]. unfold token_at.
      rewrite getitem_in_range; [by rewrite Hrow|].
      apply lookup_lt_Some in Hrow. lia.
    - intros _ track Htrack Htok Hvid. by apply (Hv track Htrack). }
  destruct (truthy tt) eqn:Htt.
  - apply truthy_true in Htt.
    pose proof (locate_by_token_first tt 0 tracks Htt) as Ht.
    destruct (locate_by_token tt 0 tracks) as [[c tok]|].
    + left. destruct Ht as (Hc & Htok & Hfirst).
      replace (c - 0) with c in * by lia. done.
    + destruct (if truthy tv then locate_by_video tv 0 tracks else None)
        as [h|].
      * right; left. destruct Hvideo as (? & ? & ? & ?). split; [by right|]. done.
      * right; right. split; [done|]. split; [by intros _ | done].
  - apply truthy_false in Htt.
    destruct (if truthy tv then locate_by_video tv 0 tracks else None) as [h|].
    + right; left. destruct Hvideo as (? & ? & ? & ?). split; [by left|]. done.
    + right; right. split; [done|]. split; [done | done].
Qed.
End ReferenceFacts.

(** ** Reading a playlist *)
Section SongListFacts.
Context {builtins : Builtins} {ytmusic : YTMusic}.
Import Load.

Lemma build_song_detail_title (track detail : dict) :
  build_song_detail track = Some detail →
  dict_get detail (py "title") = PStr (safe_str (dict_get track (py "title")))
  ∧ safe_str (dict_get track (py "title")) ≠ []
  ∧ dict_get detail (py "artist") = PStr (extract_artist_text track).
Proof.
  unfold build_song_detail.
  destruct (truthy (safe_str (dict_get track (py "title")))) eqn:Ht; [|done].
  intros [= <-]. split; [apply dict_get_head|]. split; [by apply truthy_true|].
  done.
Qed.

(** X4. Whatever [get_playlist] returns, a successful [playlistSongs]
    response lists [songs] and [songDetails] in parallel: there are as many
    lines as details, the line at an index is the one of the detail at that
    index, no detail has an empty title and no line is empty; a line is the
    title alone when the detail has no artist and "artist - title"
    otherwise. The handler issues exactly one call, [get_playlist] with limit
    5000. *)
Theorem playlist_songs_are_parallel (payload : dict) (s : session) (response : dict) :
  (handle_playlist_songs payload s).1 = Done response →
  ∃ details : list dict,
    dict_get response (py "songDetails") = PList (map PDict details)
    ∧ dict_get response (py "songs") = PList (map song_line details)
    ∧ length (map song_line details) = length (map PDict details)
    ∧ (∀ i detail, details !! i = Some detail →
         ∃ title artist,
           dict_get detail (py "title") = PStr title ∧ title ≠ []
           ∧ dict_get detail (py "artist") = PStr artist
           ∧ map song_line details !! i
             = Some (PStr (if truthy artist then artist ++ py " - " ++ title
                           else title))
           ∧ map song_line details !! i ≠ Some (PStr []))
    ∧ calls (handle_playlist_songs payload s).2
      = calls s ++ [GetPlaylist (safe_str (dict_get payload (py "playlistId"))) 5000].
Proof.
  unfold handle_playlist_songs.
  destruct (truthy (safe_str (dict_get payload (py "playlistId")))); [|done].
  cbn [negb].
  pose proof (invoke_calls
                (GetPlaylist (safe_str (dict_get payload (py "playlistId"))) 5000) s)
    as Hcalls.
  destruct (invoke _ s) as [[result | exc] s1]; [|done].
  cbn [fst snd] in *. intros [= <-].
  set (details := match tracks_field result with
                  | PList rows => omap _ rows
                  | _ => []
                  end).
  assert (∀ detail, detail ∈ details →
            ∃ track, build_song_detail track = Some detail) as Hbuilt.
  { unfold details. destruct (tracks_field result) as [| | | | |rows|];
      try (intros detail Hd; by apply not_elem_of_nil in Hd).
    intros detail (row & Hrow & Hd)%list_elem_of_omap.
    destruct row as [| | | | | |track]; try done. by exists track. }
  exists details. split; [done|]. split; [done|].
  split; [by rewrite !length_map|]. split; [|done].
  intros i detail Hi.
  destruct (Hbuilt detail) as (track & Htrack); [by eapply list_elem_of_lookup_2|].
  destruct (build_song_detail_title _ _ Htrack) as (Htitle & Hne & Hartist).
  exists (safe_str (dict_get track (py "title"))), (extract_artist_text track).
  split; [done|]. split; [done|]. split; [done|].
  rewrite list_lookup_fmap, Hi. cbn [fmap option_fmap option_map].
  unfold song_line. rewrite Htitle, Hartist. cbn [str_of].
  destruct (truthy (extract_artist_text track)) eqn:Ha.
  - split; [done|]. apply truthy_true in Ha.
    destruct (extract_artist_text track); [done|]. done.
  - split; [done|]. intros [= Hnil]. done.
Qed.
End SongListFacts.

(** ** The reconciler: the before-set and the fallback row *)
Section FallbackFacts.

Lemma before_fold (tokens : gset str) (rows : list pyval) (t : str) :
  t ∈ foldl (fun acc track =>
               match track with
               | PDict d =>
                   let set_video_id := safe_str (dict_get d (py "setVideoId")) in
                   if truthy set_video_id then {[set_video_id]} ∪ acc else acc
               | _ => acc
               end) tokens rows
  ↔ t ∈ tokens ∨ (t ≠ [] ∧ ∃ row, row ∈ rows ∧ row_token row = t).
Proof.
  revert tokens. induction rows as [|r rows IH]; intros tokens; cbn [foldl].
  - split; [by left|]. intros [? | (_ & row & Hrow & _)]; [done|].
    by apply not_elem_of_nil in Hrow.
  - rewrite IH. split.
    + intros [Hacc | (Ht & row & Hrow & Htok)].
      * destruct r as [| | | | | |d]; try by left.
        cbn zeta in Hacc.
        destruct (truthy (safe_str (dict_get d (py "setVideoId")))) eqn:Htr;
          [|by left].
        apply elem_of_union in Hacc as [->%elem_of_singleton | Hacc]; [|by left].
        right. split; [by apply truthy_true|]. exists (PDict d). split; [left | done].
      * right. split; [done|]. exists row. split; [by right | done].
    + intros [Hacc | (Ht & row & [-> | Hrow]%elem_of_cons & Htok)].
      * left. destruct r as [| | | | | |d]; try done. cbn zeta.
        destruct (truthy _); [|done]. apply elem_of_union. by right.
      * left. destruct r as [| | | | | |d]; try (cbn in Htok; congruence).
        cbn in Htok. cbn zeta. rewrite Htok.
        apply truthy_true in Ht. rewrite Ht. apply elem_of_union. left.
        by apply elem_of_singleton.
      * right. split; [done|]. by exists row.
Qed.

(** X5. The before-set is exactly the set of the non-empty position tokens
    of the rows of the before-snapshot; it is empty when the snapshot has no
    list of rows. *)
Theorem before_set_is_the_tokens (before_snapshot : pyval) (t : str) :
  t ∈ before_tokens before_snapshot
  ↔ t ≠ [] ∧ ∃ rows row, tracks_field before_snapshot = PList rows
                         ∧ row ∈ rows ∧ row_token row = t.
Proof.
  unfold before_tokens.
  destruct (tracks_field before_snapshot) as [| | | | |rows|] eqn:Hf;
    try (split; [by intros ?%not_elem_of_empty | by intros (_ & ? & ? & ? & _)]).
  rewrite before_fold. split.
  - intros [?%not_elem_of_empty | (Ht & row & Hrow & Htok)]; [done|].
    split; [done|]. by exists rows, row.
  - intros (Ht & rows' & row & [= <-] & Hrow & Htok). right.
    split; [done|]. by exists row.
Qed.

(** What one scan leaves behind is read from the rows: a token it reports,
    as the inserted one or as the fallback, is the token of the row at the
    index it reports, and that row carries the appended identifier. *)
Lemma scan_down_sound video_id before after n st :
  let r := scan_down video_id before after n st in
  ((inserted_set_video_id r = inserted_set_video_id st
    ∧ inserted_index r = inserted_index st)
   ∨ ∃ k row, (k < n)%nat ∧ after !! k = Some row ∧ carries video_id row
              ∧ (row_token row ∉ before)
              ∧ inserted_set_video_id r = row_token row
              ∧ inserted_index r = Z.of_nat k)
  ∧ ((fallback_set_video_id r = fallback_set_video_id st
      ∧ fallback_index r = fallback_index st)
     ∨ ∃ k row, (k < n)%nat ∧ after !! k = Some row ∧ carries video_id row
                ∧ fallback_set_video_id r = row_token row
                ∧ fallback_index r = Z.of_nat k).
Proof.
  cbn zeta. revert st. induction n as [|k IH]; intros st; [split; by left|].
  assert (∀ st',
    (inserted_set_video_id st' = inserted_set_video_id st
     ∧ inserted_index st' = inserted_index st) →
    ((fallback_set_video_id st' = fallback_set_video_id st
      ∧ fallback_index st' = fallback_index st)
     ∨ ∃ row, after !! k = Some row ∧ carries video_id row
              ∧ fallback_set_video_id st' = row_token row
              ∧ fallback_index st' = Z.of_nat k) →
    let r := scan_down video_id before after k st' in
    ((inserted_set_video_id r = inserted_set_video_id st
      ∧ inserted_index r = inserted_index st)
     ∨ ∃ j row, (j < S k)%nat ∧ after !! j = Some row ∧ carries video_id row
                ∧ (row_token row ∉ before)
                ∧ inserted_set_video_id r = row_token row
                ∧ inserted_index r = Z.of_nat j)
    ∧ ((fallback_set_video_id r = fallback_set_video_id st
        ∧ fallback_index r = fallback_index st)
       ∨ ∃ j row, (j < S k)%nat ∧ after !! j = Some row ∧ carries video_id row
                  ∧ fallback_set_video_id r = row_token row
                  ∧ fallback_index r = Z.of_nat j)) as Hstep.
  { intros st' [Hi1 Hi2] Hfb. cbn zeta.
    destruct (IH st') as [Hins Hfall]. split.
    - destruct Hins as [[-> ->] | (j & row & Hj & ?)]; [by left|].
      right. exists j, row. split; [lia | done].
    - destruct Hfall as [[-> ->] | (j & row & Hj & ?)].
      + destruct Hfb as [? | (row & ? & ? & ? & ?)]; [by left|].
        right. exists k, row. split; [lia | done].
      + right. exists j, row. split; [lia | done]. }
  cbn [scan_down].
  destruct (after !! k) as [row|] eqn:Hk; [|apply Hstep; [done | by left]].
  destruct row as [| | | | | |track]; try (apply Hstep; [done | by left]).
  destruct (str_eqb (safe_str (dict_get track (py "videoId"))) video_id) eqn:Hv;
    cbn [negb]; [|apply Hstep; [done | by left]].
  apply str_eqb_eq in Hv.
  destruct (truthy (safe_str (dict_get track (py "setVideoId")))) eqn:Ht;
    cbn [andb]; [|apply Hstep; [done | by left]].
  apply truthy_true in Ht.
  destruct (bool_decide (safe_str (dict_get track (py "setVideoId")) ∈ before))
    eqn:Hb; cbn [negb].
  - destruct (truthy (fallback_set_video_id st)) eqn:Hf; cbn [negb];
      [apply Hstep; [done | by left]|].
    apply Hstep; [done|]. right. exists (PDict track). done.
  - apply bool_decide_eq_false in Hb. split; [|by left].
    right. exists k, (PDict track). split; [lia|]. done.
Qed.

Lemma with_fallback_sound (video_id : str) (before : gset str)
    (after : list pyval) :
  let hit := with_fallback (scan_after video_id before after) in
  hit = ([], -1)
  ∨ ∃ k row, hit.2 = Z.of_nat k ∧ after !! k = Some row
             ∧ row_video row = video_id ∧ row_token row = hit.1 ∧ hit.1 ≠ [].
Proof.
  cbn zeta. unfold scan_after, with_fallback.
  destruct (scan_down_sound video_id before after (length after) nothing_found)
    as [Hins Hfall]. cbn zeta in Hins, Hfall.
  set (r := scan_down video_id before after (length after) nothing_found) in *.
  destruct (truthy (inserted_set_video_id r)) eqn:E1; cbn [negb andb].
  - destruct Hins as [[Hi1 Hi2] | (k & row & _ & Hrow & [Hv Ht] & _ & Hi1 & Hi2)].
    + rewrite Hi1 in E1. done.
    + right. exists k, row. cbn [fst snd]. rewrite Hi1. done.
  - destruct (truthy (fallback_set_video_id r)) eqn:E2.
    + destruct Hfall as [[Hf1 Hf2] | (k & row & _ & Hrow & [Hv Ht] & Hf1 & Hf2)].
      * rewrite Hf1 in E2. done.
      * right. exists k, row. cbn [fst snd]. rewrite Hf1. done.
    + apply truthy_false in E1.
      destruct Hins as [[Hi1 Hi2] | (k & row & _ & Hrow & [Hv Ht] & _ & Hi1 & Hi2)].
      * left. rewrite E1, Hi2. done.
      * rewrite E1 in Hi1. done.
Qed.

(** X6. The row the reconciler settles on, new or fallback, is a row of the
    after-snapshot that carries the appended identifier: for every
    after-snapshot and before-set, either nothing is found (token "", index
    -1) or the index is that of a row whose external identifier is the
    appended one and whose token is the reported, non-empty one. *)
Theorem reconciled_row_carries_the_video (video_id : str) (before : gset str)
    (after : list pyval) :
  let hit := with_fallback (scan_after video_id before after) in
  hit = ([], -1)
  ∨ ∃ k row, hit.2 = Z.of_nat k ∧ after !! k = Some row
             ∧ row_video row = video_id ∧ row_token row = hit.1 ∧ hit.1 ≠ [].
Proof. apply with_fallback_sound. Qed.

(** With no new row below [n], the scan keeps a fallback it already has and
    otherwise takes the highest row below [n] that carries the appended
    identifier. *)
Lemma scan_down_fallback video_id before after n st :
  (∀ j row, (j < n)%nat → after !! j = Some row → ¬ new_row video_id before row) →
  let r := scan_down video_id before after n st in
  (fallback_set_video_id st ≠ [] →
   fallback_set_video_id r = fallback_set_video_id st
   ∧ fallback_index r = fallback_index st)
  ∧ (fallback_set_video_id st = [] →
     (∀ i row, (i < n)%nat → after !! i = Some row → carries video_id row →
        (∀ j row', (i < j < n)%nat → after !! j = Some row' →
                   ¬ carries video_id row') →
        fallback_set_video_id r = row_token row ∧ fallback_index r = Z.of_nat i)
     ∧ ((∀ j row, (j < n)%nat → after !! j = Some row → ¬ carries video_id row) →
        fallback_set_video_id r = [] ∧ fallback_index r = fallback_index st)).
Proof.
  cbn zeta. revert st. induction n as [|k IH]; intros st Hnone.
  { cbn. split; [done|]. intros Hst. split; [intros; lia | done]. }
  assert (∀ j row, (j < k)%nat → after !! j = Some row →
                   ¬ new_row video_id before row) as Hnone'.
  { intros j row Hj. apply Hnone. lia. }
  (* the row at k is skipped *)
  assert ((∀ row, after !! k = Some row → ¬ carries video_id row) →
    let r := scan_down video_id before after k st in
    (fallback_set_video_id st ≠ [] →
     fallback_set_video_id r = fallback_set_video_id st
     ∧ fallback_index r = fallback_index st)
    ∧ (fallback_set_video_id st = [] →
       (∀ i row, (i < S k)%nat → after !! i = Some row → carries video_id row →
          (∀ j row', (i < j < S k)%nat → after !! j = Some row' →
                     ¬ carries video_id row') →
          fallback_set_video_id r = row_token row ∧ fallback_index r = Z.of_nat i)
       ∧ ((∀ j row, (j < S k)%nat → after !! j = Some row → ¬ carries video_id row) →
          fallback_set_video_id r = [] ∧ fallback_index r = fallback_index st)))
    as Hskip.
  { intros Hk. cbn zeta. destruct (IH st Hnone') as [Hkeep Hnew].
    split; [done|]. intros Hst. destruct (Hnew Hst) as [Hhigh Hno]. split.
    - intros i row Hi Hrow Hc Hlast.
      destruct (decide (i = k)) as [-> | Hne]; [by destruct (Hk row)|].
      apply Hhigh; [lia | done | done |]. intros j row' Hj. apply Hlast. lia.
    - intros Hall. apply Hno. intros j row Hj. apply Hall. lia. }
  cbn [scan_down].
  destruct (after !! k) as [row|] eqn:Hk; [|by apply Hskip].
  destruct row as [| | | | | |track];
    try (apply Hskip; intros row [= <-] [_ Hc]; by cbn in Hc).
  destruct (str_eqb (safe_str (dict_get track (py "videoId"))) video_id) eqn:Hv;
    cbn [negb].
  2:{ apply Hskip. intros row [= <-] [Hc _]. cbn in Hc. by apply str_eqb_neq in Hv. }
  apply str_eqb_eq in Hv.
  destruct (truthy (safe_str (dict_get track (py "setVideoId")))) eqn:Ht;
    cbn [andb].
  2:{ apply Hskip. intros row [= <-] [_ Hc]. cbn in Hc. by apply truthy_false in Ht. }
  apply truthy_true in Ht.
  destruct (bool_decide (safe_str (dict_get track (py "setVideoId")) ∈ before))
    eqn:Hb; cbn [negb].
  2:{ apply bool_decide_eq_false in Hb.
      destruct (Hnone k (PDict track)); [lia | done | done]. }
  destruct (truthy (fallback_set_video_id st)) eqn:Hf; cbn [negb].
  - apply truthy_true in Hf. destruct (IH st Hnone') as [Hkeep _].
    split; [done|]. intros Hst. done.
  - apply truthy_false in Hf.
    destruct (IH {| inserted_set_video_id := inserted_set_video_id st;
                    inserted_index := inserted_index st;
                    fallback_set_video_id := safe_str (dict_get track (py "setVideoId"));
                    fallback_index := Z.of_nat k |} Hnone') as [Hkeep _].
    cbn [fallback_set_video_id fallback_index] in Hkeep.
    split; [by intros ?|]. intros _. split.
    + intros i row Hi Hrow Hc Hlast.
      destruct (decide (i = k)) as [-> | Hne].
      * rewrite Hk in Hrow. injection Hrow as <-. by apply Hkeep.
      * destruct (Hlast k (PDict track)); [lia | done | done].
    + intros Hall. destruct (Hall k (PDict track)); [lia | done | done].
Qed.

(** X7. When the after-snapshot has no new row, the reconciler falls back to
    the last row that carries the appended identifier and a token, although
    that token was in the before-set; when no row carries the identifier and
    a token, it finds nothing. *)
Theorem fallback_is_last_carrying_row (video_id : str) (before : gset str)
    (after : list pyval) :
  (∀ row, row ∈ after → ¬ new_row video_id before row) →
  (∀ i, last_row (carries video_id) after i →
        with_fallback (scan_after video_id before after)
        = (token_at after (Z.of_nat i), Z.of_nat i))
  ∧ ((∀ row, row ∈ after → ¬ carries video_id row) →
     with_fallback (scan_after video_id before after) = ([], -1)).
Proof.
  intros Hnone.
  assert (∀ j row, (j < length after)%nat → after !! j = Some row →
                   ¬ new_row video_id before row) as Hnone'.
  { intros j row _ Hrow. apply Hnone. by eapply list_elem_of_lookup_2. }
  destruct (scan_down_no_new video_id before after (length after) nothing_found Hnone')
    as [Hi1 Hi2].
  destruct (scan_down_fallback video_id before after (length after) nothing_found Hnone')
    as [_ Hfall].
  destruct (Hfall eq_refl) as [Hhigh Hno].
  unfold scan_after, with_fallback. rewrite Hi1, Hi2.
  cbn [nothing_found inserted_set_video_id inserted_index truthy negb andb].
  split.
  - intros i [(row & Hrow & Hc) Hlast].
    destruct (Hhigh i row) as [Hf1 Hf2]; [by eapply lookup_lt_Some | done | done | |].
    { intros j row' [Hj _]. by apply Hlast. }
    rewrite Hf1, Hf2. destruct Hc as [_ Ht]. apply truthy_true in Ht as ->.
    unfold token_at. rewrite getitem_in_range.
    + by rewrite Nat2Z.id, Hrow.
    + apply lookup_lt_Some in Hrow. lia.
  - intros Hall. destruct Hno as [Hf1 Hf2].
    { intros j row _ Hrow. apply Hall. by eapply list_elem_of_lookup_2. }
    by rewrite Hf1.
Qed.
End FallbackFacts.

(** ** Insert at a position: the calls of a run and how it ends *)
Section InsertRunFacts.
Context {builtins : Builtins} {ytmusic : YTMusic}.
Import Load.

Lemma error_code_emit (message code : str) (status : Z) (details : str) :
  error_code (emit_error message code status details) = Some code.
Proof. unfold emit_error, error_code. by destruct (truthy details). Qed.

Lemma reorders_replicate (k : nat) (c : call) :
  is_reorder c = false → reorders (replicate k c) = [].
Proof. intros Hc. induction k as [|k IH]; [done|]. cbn. by rewrite Hc. Qed.

Lemma successor_scan_token inserted rows :
  successor_scan inserted rows = []
  ∨ (successor_scan inserted rows ≠ inserted
     ∧ ∃ row, row ∈ rows ∧ row_token row = successor_scan inserted rows).
Proof.
  induction rows as [|r rows IH]; [by left|].
  assert (successor_scan inserted rows = []
          ∨ (successor_scan inserted rows ≠ inserted
             ∧ ∃ row, row ∈ r :: rows
                      ∧ row_token row = successor_scan inserted rows)) as Hrest.
  { destruct IH as [? | (? & row & ? & ?)]; [by left|].
    right. split; [done|]. exists row. split; [by right | done]. }
  destruct r as [| | | | | |t]; try done. cbn [successor_scan].
  destruct (truthy (safe_str (dict_get t (py "setVideoId")))) eqn:Ht; [|done].
  destruct (str_eqb (safe_str (dict_get t (py "setVideoId"))) inserted) eqn:He;
    [done|].
  cbn [negb andb]. right. split; [by apply str_eqb_neq|].
  exists (PDict t). split; [left | done].
Qed.

(** The polling loop: it reads the playlist between once and as often as
    there are attempts, and fails only with the reload error. *)
Lemma poll_after_log playlist_id video_id before attempts st s :
  let run := poll_after playlist_id video_id before attempts st s in
  ∃ k, (k ≤ length attempts)%nat ∧ (attempts ≠ [] → (1 ≤ k)%nat)
       ∧ calls run.2 = calls s ++ replicate k (GetPlaylist playlist_id 5000)
       ∧ match run.1 with
         | inl failure =>
             ∃ exc, failure = emit_error (py "Video was added but playlist reload failed.")
                                         (py "song_load_failed") 502 exc
         | inr _ => True
         end.
Proof.
  cbn zeta. revert st s. induction attempts as [|attempt rest IH]; intros st s.
  { exists 0%nat. cbn. by rewrite app_nil_r. }
  assert (∀ st' s1, calls s1 = calls s ++ [GetPlaylist playlist_id 5000] →
    ∃ k, (k ≤ length (attempt :: rest))%nat ∧ (attempt :: rest ≠ [] → (1 ≤ k)%nat)
         ∧ calls (poll_after playlist_id video_id before rest st' s1).2
           = calls s ++ replicate k (GetPlaylist playlist_id 5000)
         ∧ match (poll_after playlist_id video_id before rest st' s1).1 with
           | inl failure =>
               ∃ exc, failure = emit_error (py "Video was added but playlist reload failed.")
                                           (py "song_load_failed") 502 exc
           | inr _ => True
           end) as Hnext.
  { intros st' s1 Hs1. destruct (IH st' s1) as (k & Hk & _ & Hcalls & Hres).
    exists (S k). split; [cbn; lia|]. split; [lia|]. split; [|done].
    rewrite Hcalls, Hs1, <- app_assoc. done. }
  assert (∀ s1, calls s1 = calls s ++ [GetPlaylist playlist_id 5000] →
    ∃ k, (k ≤ length (attempt :: rest))%nat ∧ (attempt :: rest ≠ [] → (1 ≤ k)%nat)
         ∧ calls s1 = calls s ++ replicate k (GetPlaylist playlist_id 5000)) as Hstop.
  { intros s1 Hs1. exists 1%nat. split; [cbn; lia|]. split; [lia | done]. }
  cbn [poll_after].
  pose proof (invoke_calls (GetPlaylist playlist_id 5000) s) as Hcalls.
  destruct (invoke (GetPlaylist playlist_id 5000) s) as [[after_snapshot | exc] s1];
    cbn [snd] in Hcalls.
  - destruct (match tracks_field after_snapshot with
              | PList candidate_tracks => candidate_tracks
              | _ => []
              end) as [|r rows]; [by apply Hnext|].
    destruct (truthy _ || truthy _); [|by apply Hnext].
    destruct (Hstop s1 Hcalls) as (k & ? & ? & ?). by exists k.
  - destruct (attempt <? 4); [by apply Hnext|].
    destruct (Hstop s1 Hcalls) as (k & ? & ? & ?). exists k.
    split; [done|]. split; [done|]. split; [done|]. by exists exc.
Qed.

(** The part after the polling loop: it issues no call and reports moved
    false, or it issues one reorder call, of the reconciled token before
    another, non-empty token, and reports moved true when the call returns. *)
Lemma place_inserted_log playlist_id video_id expected_index st s :
  let run := place_inserted playlist_id video_id expected_index st s in
  0 ≤ expected_index →
  (run.2 = s
   ∧ ∃ index, 0 ≤ index
              ∧ run.1 = Done (insert_response playlist_id video_id index false))
  ∨ ∃ inserted successor,
      inserted ≠ [] ∧ successor ≠ [] ∧ successor ≠ inserted
      ∧ calls run.2 = calls s ++ [EditPlaylist playlist_id (inserted, successor)]
      ∧ ((∃ index, 0 ≤ index
            ∧ run.1 = Done (insert_response playlist_id video_id index true))
         ∨ ∃ exc,
             run.1 = emit_error
                       (py "Video was added but could not be moved to requested position.")
                       (py "playlist_song_move_failed") 502 exc).
Proof.
  cbn zeta. intros He. unfold place_inserted.
  destruct (after_tracks st) as [|r rows] eqn:Hafter.
  { left. split; [done|]. by exists expected_index. }
  destruct (with_fallback (hits st)) as [inserted i].
  destruct (truthy inserted) eqn:Hins; cbn [negb].
  2:{ left. split; [done|]. by exists expected_index. }
  set (len := Z.of_nat (length (r :: rows))).
  assert (1 ≤ len) as Hlen by (unfold len; cbn [length]; lia).
  destruct (i =? Z.min expected_index (len - 1)).
  { left. split; [done|]. exists (Z.min expected_index (len - 1)). split; [lia | done]. }
  destruct (len <=? successor_slot i (Z.min expected_index (len - 1))).
  { left. split; [done|]. exists (len - 1). split; [lia | done]. }
  set (rest := drop _ (r :: rows)).
  destruct (truthy (successor_scan inserted rest)) eqn:Hsucc; cbn [negb].
  2:{ left. split; [done|]. exists (len - 1). split; [lia | done]. }
  right. exists inserted, (successor_scan inserted rest).
  apply truthy_true in Hins. apply truthy_true in Hsucc as Hsucc'.
  split; [done|]. split; [done|]. split.
  { by destruct (successor_scan_token inserted rest) as [? | [? _]]. }
  pose proof (invoke_calls
                (EditPlaylist playlist_id (inserted, successor_scan inserted rest)) s)
    as Hcalls.
  destruct (invoke _ s) as [[v | exc] s1]; cbn [fst snd] in *.
  - split; [done|]. left. exists (Z.min expected_index (len - 1)). split; [lia | done].
  - split; [done|]. right. by exists exc.
Qed.

Lemma safe_non_negative_int_bound (value : pyval) (n : Z) :
  safe_non_negative_int value = Some n → 0 ≤ n.
Proof.
  destruct value as [| |z| |v| |]; try done; cbn.
  - destruct (0 <=? z) eqn:Hz; [|done]. intros [= <-]. lia.
  - destruct (truthy (strip v)); [|done]. cbn.
    destruct (int_of_str (strip v)) as [parsed|]; [|done].
    destruct (0 <=? parsed) eqn:Hz; [|done]. intros [= <-]. lia.
Qed.

(** Every way a run of [handle_insert_video_at_position] can go. *)
Lemma insert_run (payload : dict) (s : session) :
  let playlist_id := safe_str (dict_get payload (py "playlistId")) in
  let video_id := safe_str (dict_get payload (py "videoId")) in
  let read := GetPlaylist playlist_id 5000 in
  let append := AddPlaylistItems playlist_id [video_id] false in
  let run := handle_insert_video_at_position payload s in
  (∃ message, run = (emit_error message (py "invalid_input") 400 [], s))
  ∨ (playlist_id ≠ [] ∧ video_id ≠ []
     ∧ ((∃ exc, run.1 = emit_error (py "Failed to load playlist songs before insert.")
                                   (py "song_load_failed") 502 exc
                ∧ calls run.2 = calls s ++ [read])
        ∨ (∃ exc, run.1 = emit_error (py "Failed to add video to YouTube Music playlist.")
                                     (py "playlist_song_add_failed") 502 exc
                  ∧ calls run.2 = calls s ++ [read; append])
        ∨ ∃ k, (1 ≤ k ≤ 5)%nat
               ∧ ((∃ exc, run.1 = emit_error (py "Video was added but playlist reload failed.")
                                             (py "song_load_failed") 502 exc
                          ∧ calls run.2 = calls s ++ [read; append] ++ replicate k read)
                  ∨ (∃ index, 0 ≤ index
                        ∧ run.1 = Done (insert_response playlist_id video_id index false)
                        ∧ calls run.2 = calls s ++ [read; append] ++ replicate k read)
                  ∨ ∃ inserted successor,
                      inserted ≠ [] ∧ successor ≠ [] ∧ successor ≠ inserted
                      ∧ calls run.2
                        = calls s ++ [read; append] ++ replicate k read
                                  ++ [EditPlaylist playlist_id (inserted, successor)]
                      ∧ ((∃ index, 0 ≤ index
                            ∧ run.1 = Done (insert_response playlist_id video_id
                                                            index true))
                         ∨ ∃ exc,
                             run.1 = emit_error
                                       (py "Video was added but could not be moved to requested position.")
                                       (py "playlist_song_move_failed") 502 exc)))).
Proof.
  cbn zeta. unfold handle_insert_video_at_position.
  set (playlist_id := safe_str (dict_get payload (py "playlistId"))).
  set (video_id := safe_str (dict_get payload (py "videoId"))).
  destruct (truthy playlist_id) eqn:Hp; cbn [negb]; [|left; by eexists].
  destruct (truthy video_id) eqn:Hv; cbn [negb]; [|left; by eexists].
  destruct (safe_non_negative_int (dict_get payload (py "expectedIndex")))
    as [expected_index|] eqn:He; [|left; by eexists].
  apply safe_non_negative_int_bound in He.
  apply truthy_true in Hp. apply truthy_true in Hv.
  right. split; [done|]. split; [done|].
  pose proof (invoke_calls (GetPlaylist playlist_id 5000) s) as Hc1.
  destruct (invoke (GetPlaylist playlist_id 5000) s) as [[before_snapshot | exc] s1];
    cbn [snd] in Hc1; [|left; by exists exc].
  pose proof (invoke_calls (AddPlaylistItems playlist_id [video_id] false) s1) as Hc2.
  destruct (invoke (AddPlaylistItems playlist_id [video_id] false) s1)
    as [[v | exc] s2]; cbn [snd] in Hc2.
  2:{ right; left. exists exc. split; [done|]. cbn [snd].
      by rewrite Hc2, Hc1, <- app_assoc. }
  assert (calls s2 = calls s ++ [GetPlaylist playlist_id 5000;
                                 AddPlaylistItems playlist_id [video_id] false])
    as Hc12 by by rewrite Hc2, Hc1, <- app_assoc.
  right; right.
  destruct (poll_after_log playlist_id video_id (before_tokens before_snapshot)
              [0; 1; 2; 3; 4] {| after_tracks := []; hits := nothing_found |} s2)
    as (k & Hk & Hk1 & Hc3 & Hres).
  exists k. split; [split; [by apply Hk1 | done]|].
  destruct (poll_after _ _ _ _ _ s2) as [[failure | st] s3]; cbn [fst snd] in *.
  { left. destruct Hres as [exc ->]. exists exc. split; [done|].
    by rewrite Hc3, Hc12, <- app_assoc. }
  right.
  destruct (place_inserted_log playlist_id video_id expected_index st s3 He)
    as [[Hs (index & Hi & Hdone)]
       | (inserted & successor & H1 & H2 & H3 & Hc4 & Hend)].
  - left. exists index. split; [done|]. split; [done|].
    by rewrite Hs, Hc3, Hc12, <- app_assoc.
  - right. exists inserted, successor. split; [done|]. split; [done|].
    split; [done|]. split; [|done].
    rewrite Hc4, Hc3, Hc12, <- !app_assoc. done.
Qed.

(** X8. The calls of one insert, for every request and client: none (the
    request is invalid); or the read of the before-snapshot; then the append
    of the one video with [duplicates=False]; then between one and five
    reads; then at most one reorder call, which moves a non-empty token
    before a different non-empty token. No other call is issued and the
    order is this one. *)
Theorem insert_call_sequence (payload : dict) (s : session) :
  let playlist_id := safe_str (dict_get payload (py "playlistId")) in
  let video_id := safe_str (dict_get payload (py "videoId")) in
  let read := GetPlaylist playlist_id 5000 in
  let append := AddPlaylistItems playlist_id [video_id] false in
  let run := handle_insert_video_at_position payload s in
  ∃ log, calls run.2 = calls s ++ log
    ∧ (log = [] ∨ log = [read] ∨ log = [read; append]
       ∨ ∃ k reorder,
           (1 ≤ k ≤ 5)%nat
           ∧ log = [read; append] ++ replicate k read ++ reorder
           ∧ (reorder = []
              ∨ ∃ inserted successor,
                  reorder = [EditPlaylist playlist_id (inserted, successor)]
                  ∧ inserted ≠ [] ∧ successor ≠ [] ∧ successor ≠ inserted)).
Proof.
  cbn zeta.
  destruct (insert_run payload s)
    as [[message ->]
       | (_ & _ & [(exc & _ & Hc) | [(exc & _ & Hc)
          | (k & Hk & [(exc & _ & Hc) | [(index & _ & _ & Hc)
              | (inserted & successor & H1 & H2 & H3 & Hc & _)]])]])].
  - exists []. split; [by rewrite app_nil_r | by left].
  - eexists. split; [exact Hc|]. right; by left.
  - eexists. split; [exact Hc|]. right; right; by left.
  - eexists. split; [exact Hc|]. right; right; right.
    exists k, []. split; [done|]. split; [by rewrite app_nil_r | by left].
  - eexists. split; [exact Hc|]. right; right; right.
    exists k, []. split; [done|]. split; [by rewrite app_nil_r | by left].
  - eexists. split; [exact Hc|]. right; right; right.
    exists k, [EditPlaylist (safe_str (dict_get payload (py "playlistId")))
                            (inserted, successor)].
    split; [done|]. split; [done|]. right. by exists inserted, successor.
Qed.

Lemma reorder_count_app (l1 l2 : list call) :
  reorder_count (l1 ++ l2) = reorder_count l1 + Z.of_nat (length (reorders l2)).
Proof. unfold reorder_count. rewrite reorders_app, length_app. lia. Qed.

(** X9. How an insert ends, for every request and client. It never ends in
    an uncaught exception. A response echoes the stripped playlist and video
    identifiers, both non-empty, reports a non-negative index, and reports
    moved true exactly when the run issued a reorder call (one, which
    returned). An error is invalid_input with no call issued at all, or
    song_load_failed or playlist_song_add_failed after at least one call and
    with no reorder call, or playlist_song_move_failed after the one reorder
    call. *)
Theorem insert_outcomes (payload : dict) (s : session) :
  let playlist_id := safe_str (dict_get payload (py "playlistId")) in
  let video_id := safe_str (dict_get payload (py "videoId")) in
  let run := handle_insert_video_at_position payload s in
  match run.1 with
  | Done response =>
      ∃ index moved,
        response = insert_response playlist_id video_id index moved
        ∧ playlist_id ≠ [] ∧ video_id ≠ [] ∧ 0 ≤ index
        ∧ reorder_count (calls run.2)
          = reorder_count (calls s) + (if moved then 1 else 0)
  | Failed _ =>
      (error_code run.1 = Some (py "invalid_input") ∧ run.2 = s)
      ∨ ((error_code run.1 = Some (py "song_load_failed")
          ∨ error_code run.1 = Some (py "playlist_song_add_failed"))
         ∧ calls run.2 ≠ calls s
         ∧ reorder_count (calls run.2) = reorder_count (calls s))
      ∨ (error_code run.1 = Some (py "playlist_song_move_failed")
         ∧ reorder_count (calls run.2) = reorder_count (calls s) + 1)
  | Uncaught _ => False
  end.
Proof.
  cbn zeta.
  assert (∀ (l : list call) (c : call) (rest : list call), l ++ c :: rest ≠ l)
    as Hgrow.
  { intros l c rest Heq. apply (f_equal length) in Heq.
    rewrite length_app in Heq. cbn in Heq. lia. }
  assert (∀ k pid, reorders (replicate k (GetPlaylist pid 5000)) = []) as Hreads.
  { intros k pid. by apply reorders_replicate. }
  destruct (insert_run payload s)
    as [[message ->]
       | (Hp & Hv & [(exc & -> & Hc) | [(exc & -> & Hc)
          | (k & Hk & [(exc & -> & Hc) | [(index & Hi & -> & Hc)
              | (inserted & successor & H1 & H2 & H3 & Hc & Hend)]])]])].
  - left. cbn [fst snd]. by rewrite error_code_emit.
  - right; left. rewrite error_code_emit, Hc. split; [by left|].
    split; [apply Hgrow|]. rewrite reorder_count_app. cbn. lia.
  - right; left. rewrite error_code_emit, Hc. split; [by right|].
    split; [apply Hgrow|]. rewrite reorder_count_app. cbn. lia.
  - right; left. rewrite error_code_emit, Hc. split; [by left|].
    split; [apply Hgrow|]. rewrite reorder_count_app, reorders_app, Hreads. cbn. lia.
  - exists index, false. split; [done|]. split; [done|]. split; [done|].
    split; [done|]. rewrite Hc, reorder_count_app, reorders_app, Hreads. cbn. lia.
  - assert (reorder_count (calls (handle_insert_video_at_position payload s).2)
            = reorder_count (calls s) + 1) as Hcount.
    { rewrite Hc, reorder_count_app, !reorders_app, Hreads. cbn. lia. }
    destruct Hend as [(index & Hi & ->) | (exc & ->)].
    + exists index, true. done.
    + right; right. by rewrite error_code_emit.
Qed.

(** One scan of a snapshot in which no row carries the appended identifier
    together with a token finds nothing. *)
Lemma scan_after_nothing video_id before after :
  (∀ row, row ∈ after → ¬ carries video_id row) →
  inserted_set_video_id (scan_after video_id before after) = []
  ∧ fallback_set_video_id (scan_after video_id before after) = [].
Proof.
  intros Hall. unfold scan_after.
  assert (∀ j row, (j < length after)%nat → after !! j = Some row →
                   ¬ new_row video_id before row) as Hnone.
  { intros j row _ Hrow (Hv & Ht & _). apply (Hall row); [|done].
    by eapply list_elem_of_lookup_2. }
  destruct (scan_down_no_new video_id before after (length after) nothing_found Hnone)
    as [-> _].
  destruct (scan_down_fallback video_id before after (length after) nothing_found Hnone)
    as [_ Hfall].
  destruct (Hfall eq_refl) as [_ Hno]. destruct Hno as [-> _]; [|done].
  intros j row _ Hrow. apply Hall. by eapply list_elem_of_lookup_2.
Qed.

Lemma poll_after_never_shows playlist_id video_id before attempts st s :
  never_shows playlist_id video_id →
  inserted_set_video_id (hits st) = [] → fallback_set_video_id (hits st) = [] →
  ∃ st' s',
    poll_after playlist_id video_id before attempts st s = (inr st', s')
    ∧ inserted_set_video_id (hits st') = []
    ∧ fallback_set_video_id (hits st') = []
    ∧ calls s' = calls s ++ replicate (length attempts) (GetPlaylist playlist_id 5000).
Proof.
  intros Hnever. revert st s.
  induction attempts as [|attempt rest IH]; intros st s Hi Hf.
  { exists st, s. cbn. by rewrite app_nil_r. }
  cbn [poll_after]. unfold invoke.
  destruct (Hnever (remote s)) as (after_snapshot & w' & -> & Hrows).
  set (s1 := {| remote := w'; calls := calls s ++ [GetPlaylist playlist_id 5000] |}).
  assert (∀ st1, inserted_set_video_id (hits st1) = [] →
                 fallback_set_video_id (hits st1) = [] →
    ∃ st' s',
      poll_after playlist_id video_id before rest st1 s1 = (inr st', s')
      ∧ inserted_set_video_id (hits st') = []
      ∧ fallback_set_video_id (hits st') = []
      ∧ calls s' = calls s ++ replicate (length (attempt :: rest))
                                        (GetPlaylist playlist_id 5000)) as Hnext.
  { intros st1 Hi1 Hf1. destruct (IH st1 s1 Hi1 Hf1) as (st' & s' & -> & ? & ? & Hc).
    exists st', s'. split; [done|]. split; [done|]. split; [done|].
    rewrite Hc. unfold s1. cbn [calls length replicate]. by rewrite <- app_assoc. }
  destruct (tracks_field after_snapshot) as [| | | | |rows|] eqn:Hfield;
    try by apply Hnext.
  destruct rows as [|r rows]; [by apply Hnext|].
  destruct (scan_after_nothing video_id before (r :: rows)) as [Hi1 Hf1].
  { intros row Hrow. by apply (Hrows (r :: rows)). }
  cbn [hits]. rewrite Hi1, Hf1. cbn [truthy orb]. by apply Hnext.
Qed.

(** X10. When the appended video never shows up in the playlist (no read
    returns a row that carries it together with a token) the insert still
    answers ok: after the before-read, the append and five reads it reports
    the requested index as [insertedIndex], moved false, and issues no
    reorder call. *)
Theorem unreconciled_insert_reports_request (payload : dict) (s : session)
    (playlist_id video_id : str) (expected_index : Z) :
  let read := GetPlaylist playlist_id 5000 in
  let append := AddPlaylistItems playlist_id [video_id] false in
  let run := handle_insert_video_at_position payload s in
  safe_str (dict_get payload (py "playlistId")) = playlist_id → playlist_id ≠ [] →
  safe_str (dict_get payload (py "videoId")) = video_id → video_id ≠ [] →
  safe_non_negative_int (dict_get payload (py "expectedIndex")) = Some expected_index →
  never_shows playlist_id video_id →
  (∀ w, ∃ v w', respond append w = (Returns v, w')) →
  run.1 = Done (insert_response playlist_id video_id expected_index false)
  ∧ calls run.2 = calls s ++ [read; append] ++ replicate 5 read.
Proof.
  cbn zeta. intros Hp Hpne Hv Hvne He Hnever Hadd.
  cut (∃ s', handle_insert_video_at_position payload s
             = (Done (insert_response playlist_id video_id expected_index false), s')
             ∧ calls s' = calls s ++ [GetPlaylist playlist_id 5000;
                                      AddPlaylistItems playlist_id [video_id] false]
                                  ++ replicate 5 (GetPlaylist playlist_id 5000)).
  { intros (s' & -> & Hc). done. }
  unfold handle_insert_video_at_position. rewrite Hp, Hv, He.
  apply truthy_true in Hpne as ->. apply truthy_true in Hvne as ->. cbn [negb].
  unfold invoke at 1.
  destruct (Hnever (remote s)) as (before_snapshot & w1 & -> & _).
  unfold invoke at 1. cbn [remote calls].
  destruct (Hadd w1) as (v & w2 & ->).
  destruct (poll_after_never_shows playlist_id video_id (before_tokens before_snapshot)
              [0; 1; 2; 3; 4] {| after_tracks := []; hits := nothing_found |}
              {| remote := w2;
                 calls := (calls s ++ [GetPlaylist playlist_id 5000])
                          ++ [AddPlaylistItems playlist_id [video_id] false] |}
              Hnever eq_refl eq_refl) as (st & s3 & -> & Hi & Hf & Hc).
  cbn [calls] in Hc.
  assert ((place_inserted playlist_id video_id expected_index st s3)
          = (Done (insert_response playlist_id video_id expected_index false), s3))
    as ->.
  { unfold place_inserted, with_fallback. rewrite Hi, Hf.
    by destruct (after_tracks st). }
  exists s3. split; [done|]. rewrite Hc, <- !app_assoc. done.
Qed.

(** What the polling loop leaves behind when it has read a non-empty
    snapshot last: the scan of that snapshot. *)
Lemma poll_after_hits playlist_id video_id before attempts st s st' s' :
  (after_tracks st = [] ∨ hits st = scan_after video_id before (after_tracks st)) →
  poll_after playlist_id video_id before attempts st s = (inr st', s') →
  after_tracks st' = [] ∨ hits st' = scan_after video_id before (after_tracks st').
Proof.
  revert st s. induction attempts as [|attempt rest IH]; intros st s Hst.
  { cbn. by intros [= <- <-]. }
  cbn [poll_after].
  destruct (invoke (GetPlaylist playlist_id 5000) s) as [[after_snapshot | exc] s1].
  - destruct (match tracks_field after_snapshot with
              | PList candidate_tracks => candidate_tracks
              | _ => []
              end) as [|r rows].
    + apply IH. by left.
    + destruct (truthy _ || truthy _).
      * intros [= <- <-]. by right.
      * apply IH. by right.
  - destruct (attempt <? 4); [by apply IH | done].
Qed.

(** X27. The reorder call of an insert moves the appended video and nothing
    else: when the part after the polling loop issues its reorder call, the
    token it moves is the token of a row of the last snapshot read that
    carries the requested video, and the token it is moved before is the
    non-empty token of another row of that snapshot. *)
Theorem reorder_moves_the_inserted_video
    (playlist_id video_id : str) (expected_index : Z) (before : gset str)
    (attempts : list Z) (s2 s3 : session) (st : polled) (inserted successor : str) :
  poll_after playlist_id video_id before attempts
             {| after_tracks := []; hits := nothing_found |} s2 = (inr st, s3) →
  calls (place_inserted playlist_id video_id expected_index st s3).2
  = calls s3 ++ [EditPlaylist playlist_id (inserted, successor)] →
  ∃ row row',
    row ∈ after_tracks st ∧ row_video row = video_id
    ∧ row_token row = inserted ∧ inserted ≠ []
    ∧ row' ∈ after_tracks st ∧ row_token row' = successor
    ∧ successor ≠ [] ∧ successor ≠ inserted.
Proof.
  intros Hpoll Hcalls.
  apply poll_after_hits in Hpoll as Hhits; [|by left].
  assert (∀ l (c : call), l ≠ l ++ [c]) as Hgrow.
  { intros l c Heq. apply (f_equal length) in Heq. rewrite length_app in Heq.
    cbn in Heq. lia. }
  unfold place_inserted in Hcalls.
  destruct (after_tracks st) as [|r rows] eqn:Hafter; [by apply Hgrow in Hcalls|].
  destruct Hhits as [? | Hhits]; [done|]. rewrite ?Hafter in Hhits.
  pose proof (with_fallback_sound video_id before (r :: rows)) as Hsound.
  cbn zeta in Hsound. rewrite <- Hhits in Hsound.
  destruct (with_fallback (hits st)) as [tok i].
  destruct (truthy tok) eqn:Htok; cbn [negb] in Hcalls; [|by apply Hgrow in Hcalls].
  destruct (i =? _); [by apply Hgrow in Hcalls|].
  destruct (_ <=? _); [by apply Hgrow in Hcalls|].
  set (rest := drop _ (r :: rows)) in *.
  destruct (truthy (successor_scan tok rest)) eqn:Hsucc; cbn [negb] in Hcalls;
    [|by apply Hgrow in Hcalls].
  assert (inserted = tok ∧ successor = successor_scan tok rest) as [-> ->].
  { pose proof (invoke_calls (EditPlaylist playlist_id (tok, successor_scan tok rest)) s3)
      as Hinv.
    destruct (invoke (EditPlaylist playlist_id (tok, successor_scan tok rest)) s3)
      as [[v | exc] s4]; cbn [snd] in Hcalls, Hinv;
      rewrite Hinv in Hcalls; apply app_inv_head in Hcalls;
      by injection Hcalls as <- <-. }
  apply truthy_true in Htok. apply truthy_true in Hsucc.
  destruct Hsound as [[= Hnil _] | (k & row & _ & Hrow & Hvideo & Htoken & _)];
    [done|].
  destruct (successor_scan_token tok rest) as [? | (Hdiff & row' & Hrow' & Htoken')];
    [done|].
  exists row, row'. cbn [fst] in Htoken.
  split; [by eapply list_elem_of_lookup_2|]. split; [done|]. split; [done|].
  split; [done|]. split; [|done].
  rewrite <- (take_drop (Z.to_nat (successor_slot i
                 (Z.min expected_index (Z.of_nat (length (r :: rows)) - 1))))
                        (r :: rows)).
  apply elem_of_app. by right.
Qed.
End InsertRunFacts.

(** ** Relative move: the calls of a run *)
Section MoveRunFacts.
Context {builtins : Builtins} {ytmusic : YTMusic}.
Import Load.

Lemma map_seq_shift {A} (g : nat → A) (n : nat) :
  map g (seq 2 n) = map (fun d => g (S d)) (seq 1 n).
Proof. rewrite <- (seq_shift n 1), map_map. done. Qed.

(** Moving up from index [f] of a mirror that agrees with the snapshot
    below [f]: the calls are those of the steps 1, 2, ... of the snapshot. *)
Lemma move_loop_up_calls (playlist_id moved : str) (orig : list pyval) (k : nat) :
  ∀ (tracks : list pyval) (f : Z) (s : session),
    Z.of_nat k ≤ f < Z.of_nat (length tracks) →
    (∀ j, 0 ≤ j < f → token_at tracks j = token_at orig j) →
    ∃ n, (n ≤ k)%nat
         ∧ calls (move_loop k (py "up") playlist_id moved tracks f s).2
           = calls s ++ map (move_call true playlist_id moved orig f) (seq 1 n)
         ∧ ∀ d, (1 ≤ d ≤ n)%nat → token_at orig (f - Z.of_nat d) ≠ [].
Proof.
  induction k as [|k IH]; intros tracks f s Hf Hsame.
  { exists 0%nat. cbn. rewrite app_nil_r. split; [done|]. split; [done|]. lia. }
  cbn [move_loop]. change (str_eqb (py "up") (py "up")) with true. cbn match.
  destruct (token_at_getitem tracks (f - 1)) as (p & Hp & Hptok); [lia|].
  rewrite Hp. rewrite (Hsame (f - 1)) in Hptok by lia.
  destruct (truthy (row_token p)) eqn:Htok; cbn [negb].
  2:{ exists 0%nat. cbn. rewrite app_nil_r. split; [lia|]. split; [done|]. lia. }
  apply truthy_true in Htok.
  pose proof (invoke_calls (EditPlaylist playlist_id (moved, row_token p)) s) as Hc.
  assert (EditPlaylist playlist_id (moved, row_token p)
          = move_call true playlist_id moved orig f 1) as Hcall.
  { unfold move_call. change (Z.of_nat 1) with 1. by rewrite Hptok. }
  assert (∀ d, (1 ≤ d ≤ 1)%nat → token_at orig (f - Z.of_nat d) ≠ []) as Hone.
  { intros d Hd. assert (d = 1%nat) as -> by lia. change (Z.of_nat 1) with 1.
    by rewrite Hptok. }
  destruct (invoke (EditPlaylist playlist_id (moved, row_token p)) s)
    as [[v | exc] s1]; cbn [snd] in Hc.
  2:{ exists 1%nat. split; [lia|]. split; [|done]. cbn [snd seq map].
      by rewrite Hc, Hcall. }
  destruct (swap_items_adjacent tracks (f - 1)) as (tracks1 & Hsw & Hlen & Hkeep);
    [lia | lia |].
  replace (f - 1 + 1) with f in Hsw by lia. rewrite Hsw.
  destruct (IH tracks1 (f - 1) s1) as (n & Hn & Hcalls & Htoks).
  { rewrite Hlen. lia. }
  { intros j Hj. rewrite Hkeep by lia. apply Hsame. lia. }
  exists (S n). split; [lia|]. split.
  - rewrite Hcalls, Hc, <- app_assoc. f_equal. cbn [seq map app]. rewrite Hcall.
    f_equal. rewrite map_seq_shift. apply map_ext. intros d. unfold move_call.
    do 3 f_equal. lia.
  - intros d Hd. destruct (decide (d = 1%nat)) as [-> | Hne]; [by apply Hone|].
    replace (f - Z.of_nat d) with (f - 1 - Z.of_nat (d - 1)) by lia.
    apply Htoks. lia.
Qed.

Lemma move_loop_down_calls (playlist_id moved : str) (orig : list pyval) (k : nat) :
  ∀ (tracks : list pyval) (f : Z) (s : session),
    0 ≤ f → f + Z.of_nat k < Z.of_nat (length tracks) →
    (∀ j, f < j → token_at tracks j = token_at orig j) →
    ∃ n, (n ≤ k)%nat
         ∧ calls (move_loop k (py "down") playlist_id moved tracks f s).2
           = calls s ++ map (move_call false playlist_id moved orig f) (seq 1 n)
         ∧ ∀ d, (1 ≤ d ≤ n)%nat → token_at orig (f + Z.of_nat d) ≠ [].
Proof.
  induction k as [|k IH]; intros tracks f s Hf0 Hf Hsame.
  { exists 0%nat. cbn. rewrite app_nil_r. split; [done|]. split; [done|]. lia. }
  cbn [move_loop]. change (str_eqb (py "down") (py "up")) with false. cbn match.
  destruct (token_at_getitem tracks (f + 1)) as (p & Hp & Hptok); [lia|].
  rewrite Hp. rewrite (Hsame (f + 1)) in Hptok by lia.
  destruct (truthy (row_token p)) eqn:Htok; cbn [negb].
  2:{ exists 0%nat. cbn. rewrite app_nil_r. split; [lia|]. split; [done|]. lia. }
  apply truthy_true in Htok.
  pose proof (invoke_calls (EditPlaylist playlist_id (row_token p, moved)) s) as Hc.
  assert (EditPlaylist playlist_id (row_token p, moved)
          = move_call false playlist_id moved orig f 1) as Hcall.
  { unfold move_call. change (Z.of_nat 1) with 1. by rewrite Hptok. }
  assert (∀ d, (1 ≤ d ≤ 1)%nat → token_at orig (f + Z.of_nat d) ≠ []) as Hone.
  { intros d Hd. assert (d = 1%nat) as -> by lia. change (Z.of_nat 1) with 1.
    by rewrite Hptok. }
  destruct (invoke (EditPlaylist playlist_id (row_token p, moved)) s)
    as [[v | exc] s1]; cbn [snd] in Hc.
  2:{ exists 1%nat. split; [lia|]. split; [|done]. cbn [snd seq map].
      by rewrite Hc, Hcall. }
  destruct (swap_items_adjacent tracks f) as (tracks1 & Hsw & Hlen & Hkeep);
    [lia | lia |].
  rewrite Hsw.
  destruct (IH tracks1 (f + 1) s1) as (n & Hn & Hcalls & Htoks).
  { lia. }
  { rewrite Hlen. lia. }
  { intros j Hj. rewrite Hkeep by lia. apply Hsame. lia. }
  exists (S n). split; [lia|]. split.
  - rewrite Hcalls, Hc, <- app_assoc. f_equal. cbn [seq map app]. rewrite Hcall.
    f_equal. rewrite map_seq_shift. apply map_ext. intros d. unfold move_call.
    do 3 f_equal. lia.
  - intros d Hd. destruct (decide (d = 1%nat)) as [-> | Hne]; [by apply Hone|].
    replace (f + Z.of_nat d) with (f + 1 + Z.of_nat (d - 1)) by lia.
    apply Htoks. lia.
Qed.

(** X11. The calls of a relative move of a located row, for every client:
    the read of the snapshot, then the reorder calls of the steps 1, 2, ...
    in this order and with no gap. Step d moving up puts the moved row's
    token before the token the snapshot has d rows above it; step d moving
    down puts the token the snapshot has d rows below it before the moved
    row's token. Every neighbour token so used is non-empty, and there are
    at most min(p, headroom) steps. *)
Theorem relative_move_calls
    (payload : dict) (playlist_id : str) (raw_song : dict) (direction : str)
    (positions : Z) (snapshot : pyval) (tracks : list pyval)
    (c : Z) (tok : str) (s s1 : session) :
  move_inputs payload playlist_id raw_song direction positions →
  invoke (GetPlaylist playlist_id 5000) s = (Returns snapshot, s1) →
  tracks_field snapshot = PList tracks →
  2 ≤ Z.of_nat (length tracks) →
  locate_playlist_song_index tracks raw_song = (c, tok) → 0 ≤ c →
  let N := Z.of_nat (length tracks) in
  let up := str_eqb direction (py "up") in
  let steps := if up then Z.min positions c else Z.min positions (N - 1 - c) in
  let neighbour (d : nat) := if up then c - Z.of_nat d else c + Z.of_nat d in
  let run := handle_move_playlist_song payload s in
  ∃ n : nat,
    Z.of_nat n ≤ steps
    ∧ calls run.2
      = calls s ++ GetPlaylist playlist_id 5000
                :: map (move_call up playlist_id tok tracks c) (seq 1 n)
    ∧ ∀ d, (1 ≤ d ≤ n)%nat → token_at tracks (neighbour d) ≠ [].
Proof.
  intros Hin Hget Htracks HN Hloc Hc.
  destruct (locate_found _ _ _ _ Hloc Hc) as (HcN & Htok & _).
  assert (calls s1 = calls s ++ [GetPlaylist playlist_id 5000]) as Hs1.
  { pose proof (invoke_calls (GetPlaylist playlist_id 5000) s) as Hcalls.
    by rewrite Hget in Hcalls. }
  cbn zeta.
  assert (handle_move_playlist_song payload s
          = move_located playlist_id direction positions tracks c tok s1) as ->.
  { rewrite (handle_move_checked _ _ _ _ _ _ Hin), Hget, Htracks.
    replace (Z.of_nat (length tracks) <? 2) with false by lia. rewrite Hloc.
    replace (c <? 0) with false by lia. apply truthy_true in Htok. by rewrite Htok. }
  assert (0 < positions) as Hp by apply Hin.
  assert (direction = py "up" ∨ direction = py "down") as Hud by apply Hin.
  assert (∀ l : list call,
            calls s1 ++ l = calls s ++ GetPlaylist playlist_id 5000 :: l) as Hlog.
  { intros l. by rewrite Hs1, <- app_assoc. }
  unfold move_located.
  destruct Hud as [-> | ->].
  - change (str_eqb (py "up") (py "up")) with true. cbv iota.
    set (steps := Z.min positions c).
    destruct (steps <=? 0) eqn:Hsteps.
    { exists 0%nat. cbn [fst snd seq map]. split; [lia|].
      split; [by rewrite <- Hlog, app_nil_r | lia]. }
    destruct (move_loop_up_calls playlist_id tok tracks (Z.to_nat steps) tracks c s1)
      as (n & Hn & Hcalls & Htoks); [lia | done |].
    exists n. split; [lia|]. split; [|done].
    rewrite <- Hlog, <- Hcalls.
    by destruct (move_loop _ _ _ _ _ _ s1) as [[o | [tracks' f']] s'].
  - change (str_eqb (py "down") (py "up")) with false. cbv iota.
    set (steps := Z.min positions (Z.of_nat (length tracks) - 1 - c)).
    destruct (steps <=? 0) eqn:Hsteps.
    { exists 0%nat. cbn [fst snd seq map]. split; [lia|].
      split; [by rewrite <- Hlog, app_nil_r | lia]. }
    destruct (move_loop_down_calls playlist_id tok tracks (Z.to_nat steps) tracks c s1)
      as (n & Hn & Hcalls & Htoks); [lia | lia | done |].
    exists n. split; [lia|]. split; [|done].
    rewrite <- Hlog, <- Hcalls.
    by destruct (move_loop _ _ _ _ _ _ s1) as [[o | [tracks' f']] s'].
Qed.

(** Whatever the loop does, it issues reorder calls only and does not end
    with an invalid_input error. *)
Lemma move_loop_log (k : nat) :
  ∀ (direction playlist_id moved : str) (tracks : list pyval) (f : Z) (s : session),
    let run := move_loop k direction playlist_id moved tracks f s in
    (∃ rest, calls run.2 = calls s ++ rest ∧ Forall (fun c => is_reorder c = true) rest)
    ∧ match run.1 with
      | inl o => error_code o ≠ Some (py "invalid_input")
      | inr _ => True
      end.
Proof.
  induction k as [|k IH]; intros direction playlist_id moved tracks f s; cbn zeta.
  { cbn. split; [|done]. exists []. by rewrite app_nil_r. }
  assert (∀ s0 : session, ∃ rest,
            calls s0 = calls s0 ++ rest ∧ Forall (fun c => is_reorder c = true) rest)
    as Hnil.
  { intros s0. exists []. by rewrite app_nil_r. }
  assert (∀ (c : call) tracks1 f1,
            is_reorder c = true →
            let run := move_loop k direction playlist_id moved tracks1 f1 (invoke c s).2 in
            (∃ rest, calls run.2 = calls s ++ rest
                     ∧ Forall (fun c => is_reorder c = true) rest)
            ∧ match run.1 with
              | inl o => error_code o ≠ Some (py "invalid_input")
              | inr _ => True
              end) as Hnext.
  { intros c tracks1 f1 Hc. cbn zeta.
    destruct (IH direction playlist_id moved tracks1 f1 (invoke c s).2)
      as [(rest & Hcalls & Hall) Hres].
    split; [|done]. exists (c :: rest). split; [|by constructor].
    rewrite Hcalls, invoke_calls, <- app_assoc. done. }
  assert (∀ c : call, is_reorder c = true →
            ∃ rest, calls (invoke c s).2 = calls s ++ rest
                    ∧ Forall (fun c => is_reorder c = true) rest) as Hone.
  { intros c Hc. exists [c]. split; [apply invoke_calls|]. by repeat constructor. }
  cbn [move_loop]. destruct (str_eqb direction (py "up")).
  - destruct (getitem tracks (f - 1)) as [p|]; [|by split; [apply Hnil|]].
    destruct (truthy (row_token p)); cbn [negb]; [|by split; [apply Hnil|]].
    specialize (Hnext (EditPlaylist playlist_id (moved, row_token p))).
    specialize (Hone (EditPlaylist playlist_id (moved, row_token p)) eq_refl).
    destruct (invoke (EditPlaylist playlist_id (moved, row_token p)) s)
      as [[v | exc] s1]; cbn [snd] in *.
    + destruct (swap_items tracks (f - 1) f) as [tracks1|]; [by apply Hnext|].
      split; [done | done].
    + split; [done|]. cbn [fst]. by rewrite error_code_emit.
  - destruct (getitem tracks (f + 1)) as [p|]; [|by split; [apply Hnil|]].
    destruct (truthy (row_token p)); cbn [negb]; [|by split; [apply Hnil|]].
    specialize (Hnext (EditPlaylist playlist_id (row_token p, moved))).
    specialize (Hone (EditPlaylist playlist_id (row_token p, moved)) eq_refl).
    destruct (invoke (EditPlaylist playlist_id (row_token p, moved)) s)
      as [[v | exc] s1]; cbn [snd] in *.
    + destruct (swap_items tracks f (f + 1)) as [tracks1|]; [by apply Hnext|].
      split; [done | done].
    + split; [done|]. cbn [fst]. by rewrite error_code_emit.
Qed.

(** X12. A relative move reads the playlist exactly when the request is
    well-formed (a playlist id, a song with a token or an identifier, a
    direction that is "up" or "down" in any letter case, a positive step
    count). An ill-formed request ends with invalid_input and no call at
    all; a well-formed one never ends with invalid_input, reads the snapshot
    once with limit 5000, and every later call is a reorder call. *)
Theorem move_reads_iff_well_formed (payload : dict) (s : session) :
  let run := handle_move_playlist_song payload s in
  ((∃ playlist_id raw_song direction positions,
      move_inputs payload playlist_id raw_song direction positions
      ∧ ∃ rest, calls run.2 = calls s ++ GetPlaylist playlist_id 5000 :: rest
                ∧ Forall (fun c => is_reorder c = true) rest)
   ∧ error_code run.1 ≠ Some (py "invalid_input"))
  ∨ ((¬ ∃ playlist_id raw_song direction positions,
          move_inputs payload playlist_id raw_song direction positions)
     ∧ error_code run.1 = Some (py "invalid_input") ∧ run.2 = s).
Proof.
  cbn zeta.
  destruct (truthy (safe_str (dict_get payload (py "playlistId")))) eqn:Hp.
  2:{ right. split.
      - intros (pid & raw & dir & pos & Hpid & Hne & _). subst pid.
        apply truthy_true in Hne. congruence.
      - unfold handle_move_playlist_song. rewrite Hp. cbn [negb fst snd].
        by rewrite error_code_emit. }
  destruct (normalize_playlist_song_ref (dict_get payload (py "song")))
    as [raw_song|] eqn:Hsong.
  2:{ right. split.
      - intros (pid & raw & dir & pos & _ & _ & Hraw & _). congruence.
      - unfold handle_move_playlist_song. rewrite Hp, Hsong. cbn [negb fst snd].
        by rewrite error_code_emit. }
  set (direction := lower (safe_str (dict_get payload (py "direction")))).
  destruct (str_eqb direction (py "up") || str_eqb direction (py "down")) eqn:Hd.
  2:{ right. split.
      - intros (pid & raw & dir & pos & _ & _ & _ & Hdir & Hud & _).
        fold direction in Hdir. subst dir.
        destruct Hud as [Hud | Hud]; apply str_eqb_eq in Hud; rewrite Hud in Hd;
          [done | by rewrite orb_true_r in Hd].
      - unfold handle_move_playlist_song. rewrite Hp, Hsong. fold direction.
        rewrite Hd. cbn [negb fst snd]. by rewrite error_code_emit. }
  destruct (safe_non_negative_int (dict_get payload (py "positions")))
    as [positions|] eqn:Hpos.
  2:{ right. split.
      - intros (pid & raw & dir & pos & _ & _ & _ & _ & _ & Hn & _). congruence.
      - unfold handle_move_playlist_song. rewrite Hp, Hsong. fold direction.
        rewrite Hd, Hpos. cbn [negb fst snd]. by rewrite error_code_emit. }
  destruct (positions <=? 0) eqn:Hle.
  { right. split.
    - intros (pid & raw & dir & pos & _ & _ & _ & _ & _ & Hn & Hlt).
      rewrite Hpos in Hn. injection Hn as <-. lia.
    - unfold handle_move_playlist_song. rewrite Hp, Hsong. fold direction.
      rewrite Hd, Hpos, Hle. cbn [negb fst snd]. by rewrite error_code_emit. }
  left.
  assert (move_inputs payload (safe_str (dict_get payload (py "playlistId")))
                      raw_song direction positions) as Hin.
  { split; [done|]. split; [by apply truthy_true|]. split; [done|].
    split; [done|]. split; [|split; [done | lia]].
    apply orb_true_iff in Hd as [Hd | Hd]; apply str_eqb_eq in Hd; [by left | by right]. }
  set (playlist_id := safe_str (dict_get payload (py "playlistId"))) in *.
  rewrite (handle_move_checked _ _ _ _ _ _ Hin).
  assert (∀ s1 : session,
            calls s1 = calls s ++ [GetPlaylist playlist_id 5000] →
            ∃ pid raw dir pos,
              move_inputs payload pid raw dir pos
              ∧ ∃ rest, calls s1 = calls s ++ GetPlaylist pid 5000 :: rest
                        ∧ Forall (fun c => is_reorder c = true) rest) as Hread.
  { intros s1 Hs1. exists playlist_id, raw_song, direction, positions.
    split; [done|]. exists []. split; [done | constructor]. }
  pose proof (invoke_calls (GetPlaylist playlist_id 5000) s) as Hc.
  destruct (invoke (GetPlaylist playlist_id 5000) s) as [[snapshot | exc] s1];
    cbn [snd] in Hc.
  2:{ cbn [fst snd]. split; [by apply Hread | by rewrite error_code_emit]. }
  destruct (tracks_field snapshot) as [| | | | |tracks|];
    try (cbn [fst snd]; split; [by apply Hread | done]).
  destruct (Z.of_nat (length tracks) <? 2);
    [cbn [fst snd]; split; [by apply Hread | done]|].
  destruct (locate_playlist_song_index tracks raw_song) as [c tok].
  destruct ((c <? 0) || negb (truthy tok)).
  { cbn [fst snd]. split; [by apply Hread | by rewrite error_code_emit]. }
  unfold move_located.
  set (steps := if str_eqb direction (py "up") then _ else _).
  destruct (steps <=? 0); [cbn [fst snd]; split; [by apply Hread | done]|].
  destruct (move_loop_log (Z.to_nat steps) direction playlist_id tok tracks c s1)
    as [(rest & Hcalls & Hall) Hres].
  destruct (move_loop _ _ _ _ _ _ s1) as [[o | [tracks' f']] s'];
    cbn [fst snd] in *.
  - split; [|done]. exists playlist_id, raw_song, direction, positions.
    split; [done|]. exists rest. split; [|done].
    by rewrite Hcalls, Hc, <- app_assoc.
  - split; [|done]. exists playlist_id, raw_song, direction, positions.
    split; [done|]. exists rest. split; [|done].
    by rewrite Hcalls, Hc, <- app_assoc.
Qed.
End MoveRunFacts.

(** ** Search results: merging and selection *)
Section SelectionFacts.
Context {builtins : Builtins} {ytmusic : YTMusic}.
Import Migrate.

Lemma merged_ok_empty : merged_ok [] ∅.
Proof.
  split; [constructor|]. split; [|constructor].
  intros v. cbn. split; [by intros ?%not_elem_of_empty | by intros ?%not_elem_of_nil].
Qed.

Lemma merge_results_ok (variant_results merged : list pyval) (seen : gset str) :
  merged_ok merged seen →
  merged_ok (merge_results variant_results merged seen).1
            (merge_results variant_results merged seen).2
  ∧ (∃ added, (merge_results variant_results merged seen).1 = merged ++ added
              ∧ sublist added variant_results)
  ∧ ∀ d, PDict d ∈ variant_results → row_video (PDict d) ≠ [] →
         row_video (PDict d) ∈ (merge_results variant_results merged seen).2.
Proof.
  revert merged seen.
  induction variant_results as [|r rest IH]; intros merged seen Hok.
  { cbn. split; [done|]. split; [exists []; by rewrite app_nil_r|].
    intros d Hd. by apply not_elem_of_nil in Hd. }
  assert (∀ v, v ∈ seen → v ∈ (merge_results rest merged seen).2) as Hgrow.
  { intros v Hv. destruct (IH merged seen Hok) as ((_ & Hseen & _) & (added & Had & _) & _).
    apply Hseen. rewrite Had, map_app. apply elem_of_app. left. by apply Hok. }
  assert (merged_ok (merge_results rest merged seen).1 (merge_results rest merged seen).2
          ∧ (∃ added, (merge_results rest merged seen).1 = merged ++ added
                      ∧ sublist added (r :: rest))
          ∧ ∀ d, PDict d ∈ rest → row_video (PDict d) ≠ [] →
                 row_video (PDict d) ∈ (merge_results rest merged seen).2) as Hskip.
  { destruct (IH merged seen Hok) as (H1 & (added & Had & Hsub) & H3).
    split; [done|]. split; [|done]. exists added. split; [done|].
    by apply sublist_cons. }
  destruct r as [| | | | | |result];
    try (cbn [merge_results]; destruct Hskip as (H1 & H2 & H3);
         split; [done|]; split; [done|];
         intros d [Hd | Hd]%elem_of_cons; [done | by apply H3]).
  cbn [merge_results].
  set (video_id := safe_str (dict_get result (py "videoId"))).
  destruct (truthy video_id) eqn:Hv; cbn [negb orb].
  2:{ destruct Hskip as (H1 & H2 & H3). split; [done|]. split; [done|].
      intros d [[= ->] | Hd]%elem_of_cons Hne; [|by apply H3].
      cbn in Hne. fold video_id in Hne. by apply truthy_false in Hv. }
  apply truthy_true in Hv.
  destruct (bool_decide (video_id ∈ seen)) eqn:Hseen.
  { apply bool_decide_eq_true in Hseen.
    destruct Hskip as (H1 & H2 & H3). split; [done|]. split; [done|].
    intros d [[= ->] | Hd]%elem_of_cons Hne; [|by apply H3].
    cbn. fold video_id. by apply Hgrow. }
  apply bool_decide_eq_false in Hseen.
  assert (merged_ok (merged ++ [PDict result]) ({[video_id]} ∪ seen)) as Hok'.
  { destruct Hok as (Hnd & Hset & Hall). split; [|split].
    - rewrite map_app. apply NoDup_app. split; [done|]. split.
      + intros v Hvin ->%list_elem_of_singleton.
        apply Hseen. by apply Hset.
      + cbn. apply NoDup_singleton.
    - intros v. rewrite map_app, elem_of_app, elem_of_union, elem_of_singleton, Hset.
      cbn. rewrite list_elem_of_singleton. fold video_id. tauto.
    - apply Forall_app. split; [done|]. constructor; [|constructor].
      split; [done | by exists result]. }
  destruct (IH _ _ Hok') as (H1 & (added & Had & Hsub) & H3).
  split; [done|]. split.
  - exists (PDict result :: added). split; [by rewrite Had, <- app_assoc|].
    by apply sublist_skip.
  - intros d [[= ->] | Hd]%elem_of_cons Hne; [|by apply H3].
    destruct H1 as (_ & Hset' & _). apply Hset'. rewrite Had, map_app, map_app.
    apply elem_of_app. left. apply elem_of_app. right. cbn. left.
Qed.

(** The searches of one filter: which calls were issued, and what the merged
    list looks like. *)
Lemma search_variants_log (filter : str) (queries : list str) :
  ∀ (merged : list pyval) (seen : gset str) (s : session),
    merged_ok merged seen →
    let run := search_variants filter queries merged seen s in
    (∃ seen', merged_ok run.1.1 seen')
    ∧ ∃ n, (n ≤ length queries)%nat
           ∧ calls run.2
             = calls s ++ map (fun q => Search q filter 20) (take n queries)
           ∧ (run.1.2 = None → n = length queries)
           ∧ (run.1.2 ≠ None → (1 ≤ n)%nat).
Proof.
  induction queries as [|q rest IH]; intros merged seen s Hok; cbn zeta.
  { cbn. split; [by exists seen|]. exists 0%nat. rewrite app_nil_r. done. }
  cbn [search_variants].
  pose proof (invoke_calls (Search q filter 20) s) as Hc.
  assert (∀ merged1 seen1 s1,
            merged_ok merged1 seen1 → calls s1 = calls s ++ [Search q filter 20] →
            let run := search_variants filter rest merged1 seen1 s1 in
            (∃ seen', merged_ok run.1.1 seen')
            ∧ ∃ n, (n ≤ length (q :: rest))%nat
                   ∧ calls run.2
                     = calls s ++ map (fun q => Search q filter 20) (take n (q :: rest))
                   ∧ (run.1.2 = None → n = length (q :: rest))
                   ∧ (run.1.2 ≠ None → (1 ≤ n)%nat)) as Hnext.
  { intros merged1 seen1 s1 Hok1 Hs1. cbn zeta.
    destruct (IH merged1 seen1 s1 Hok1) as (Hm & n & Hn & Hcalls & Hnone & Hsome).
    split; [done|]. exists (S n). split; [cbn; lia|]. split.
    - rewrite Hcalls, Hs1, <- app_assoc. done.
    - split; [|lia]. intros Hr. cbn. by rewrite (Hnone Hr). }
  destruct (invoke (Search q filter 20) s) as [[v | exc] s1]; cbn [snd] in Hc.
  - destruct v as [| | | | |variant_results|]; try by apply Hnext.
    destruct (merge_results_ok variant_results merged seen Hok) as (Hok1 & _).
    destruct (merge_results variant_results merged seen) as [merged1 seen1].
    by apply Hnext.
  - cbn [fst snd]. split; [by exists seen|]. exists 1%nat.
    split; [cbn; lia|]. split; [done|]. split; [done | lia].
Qed.


Lemma valid_results_usable (results : list pyval) (r : dict) :
  r ∈ valid_results_of results →
  PDict r ∈ results ∧ safe_str (dict_get r (py "videoId")) ≠ [].
Proof.
  unfold valid_results_of. intros (x & Hx & Hr)%list_elem_of_omap.
  destruct x as [| | | | | |d]; try done.
  destruct (truthy (safe_str (dict_get d (py "videoId")))) eqn:Hv; [|done].
  injection Hr as <-. split; [done | by apply truthy_true].
Qed.

Lemma pick_is_max_of_pool (results : list pyval) (title artist album : str)
    (require_artist_match : bool) :
  pick_best_match results title artist album require_artist_match
  = py_max (total_score title artist album)
           (selection_pool results artist require_artist_match).
Proof.
  unfold pick_best_match, selection_pool.
  destruct (valid_results_of results) as [|v0 valid] eqn:Hvalid.
  { cbn. destruct (truthy artist); [by destruct require_artist_match | done]. }
  destruct (truthy artist); [|done].
  destruct (List.filter _ (v0 :: valid)) as [|f0 filtered]; [|done].
  by destruct require_artist_match.
Qed.

Lemma selection_pool_valid (results : list pyval) (artist : str)
    (require_artist_match : bool) (r : dict) :
  r ∈ selection_pool results artist require_artist_match →
  r ∈ valid_results_of results.
Proof.
  unfold selection_pool. destruct (truthy artist); [|done].
  destruct (List.filter _ (valid_results_of results)) as [|f0 filtered] eqn:Hf.
  - destruct require_artist_match; [by intros ?%not_elem_of_nil | done].
  - rewrite <- Hf. intros Hr%list_elem_of_In%filter_In. apply list_elem_of_In. tauto.
Qed.

(** The first of the items with the greatest key. *)
Lemma max_from_first {A} (key : A → Z) (items : list A) (best : A) :
  (max_from key best items = best ∧ ∀ y, y ∈ items → key y ≤ key best)
  ∨ ∃ l1 l2, items = l1 ++ max_from key best items :: l2
             ∧ key best < key (max_from key best items)
             ∧ (∀ y, y ∈ l1 → key y < key (max_from key best items))
             ∧ (∀ y, y ∈ l2 → key y ≤ key (max_from key best items)).
Proof.
  revert best. induction items as [|x items IH]; intros best.
  { left. split; [done|]. intros y Hy. by apply not_elem_of_nil in Hy. }
  cbn [max_from]. destruct (key best <? key x) eqn:Hlt.
  - right. destruct (IH x) as [[Hm Hall] | (l1 & l2 & Hitems & Hx & H1 & H2)].
    + exists [], items. rewrite Hm. split; [done|]. split; [lia|].
      split; [by intros y ?%not_elem_of_nil | done].
    + exists (x :: l1), l2. split; [by rewrite Hitems at 1|]. split; [lia|].
      split; [|done]. intros y [-> | Hy]%elem_of_cons; [lia | by apply H1].
  - destruct (IH best) as [[Hm Hall] | (l1 & l2 & Hitems & Hx & H1 & H2)].
    + left. split; [done|]. intros y [-> | Hy]%elem_of_cons; [lia | by apply Hall].
    + right. exists (x :: l1), l2. split; [by rewrite Hitems at 1|]. split; [lia|].
      split; [|done]. intros y [-> | Hy]%elem_of_cons; [lia | by apply H1].
Qed.

(** X14. [pick_best_match] returns the first of the best-scored candidates
    of its pool: every candidate listed before the selected one has a
    strictly smaller total score, every candidate after it has at most the
    same. The pool keeps the order of the search results, so among equally
    good candidates the one the search listed first is selected. The
    selected candidate is one of the search results and has a usable
    [videoId]. *)
Theorem pick_is_first_of_the_best (results : list pyval) (title artist album : str)
    (require_artist_match : bool) (selected : dict) :
  pick_best_match results title artist album require_artist_match = Some selected →
  (∃ before after,
     selection_pool results artist require_artist_match = before ++ selected :: after
     ∧ (∀ y, y ∈ before →
             total_score title artist album y < total_score title artist album selected)
     ∧ (∀ y, y ∈ after →
             total_score title artist album y ≤ total_score title artist album selected))
  ∧ PDict selected ∈ results
  ∧ safe_str (dict_get selected (py "videoId")) ≠ [].
Proof.
  rewrite pick_is_max_of_pool. intros Hmax.
  assert (∃ before after,
     selection_pool results artist require_artist_match = before ++ selected :: after
     ∧ (∀ y, y ∈ before →
             total_score title artist album y < total_score title artist album selected)
     ∧ (∀ y, y ∈ after →
             total_score title artist album y ≤ total_score title artist album selected))
    as Hsplit.
  { destruct (selection_pool results artist require_artist_match) as [|x items];
      [done|].
    cbn in Hmax. injection Hmax as Hmax.
    destruct (max_from_first (total_score title artist album) items x)
      as [[Hm Hall] | (l1 & l2 & Hitems & Hx & H1 & H2)]; rewrite Hmax in *.
    - subst x. exists [], items. split; [done|].
      split; [by intros y ?%not_elem_of_nil | done].
    - exists (x :: l1), l2. split; [by rewrite Hitems at 1|].
      split; [|done]. intros y [-> | Hy]%elem_of_cons; [lia | by apply H1]. }
  split; [done|]. destruct Hsplit as (before & after & Hpool & _).
  apply valid_results_usable, (selection_pool_valid _ artist require_artist_match).
  rewrite Hpool. apply elem_of_app. right. left.
Qed.

Lemma contains_nil (p : str) : p ≠ [] → contains [] p = false.
Proof. destruct p; [done|]. intros _. reflexivity. Qed.

Lemma any_token_in_nil (artist : str) : any_token_in artist [] = false.
Proof.
  unfold any_token_in. apply not_true_is_false. intros Hex.
  apply existsb_exists in Hex as (token & _ & Htoken).
  apply andb_true_iff in Htoken as [Ht Hc]. apply truthy_true in Ht.
  by rewrite contains_nil in Hc.
Qed.

(** X28. The scorer and the artist filter agree: the artist's share of
    [score_search_result] is fixed by the level [artist_match_level] gives
    the same result and target artist, 5, 3, 1 and 0 points for the levels
    3, 2, 1 and 0; the score is the score without a target artist plus these
    points. In particular a result that passes the artist filter (level
    above 0) scores at least one point for the artist, and a result that
    does not scores none. *)
Theorem artist_score_follows_level (search_result : dict)
    (target_title target_artist : str) :
  score_search_result search_result target_title target_artist
  = score_search_result search_result target_title []
    + artist_points (artist_match_level search_result target_artist)
  ∧ (0 < artist_match_level search_result target_artist
     ↔ score_search_result search_result target_title []
       < score_search_result search_result target_title target_artist).
Proof.
  assert (score_search_result search_result target_title target_artist
          = score_search_result search_result target_title []
            + artist_points (artist_match_level search_result target_artist)
          ∧ (0 < artist_match_level search_result target_artist
             ↔ 0 < artist_points (artist_match_level search_result target_artist)))
    as [Hscore Hlevel].
  2:{ split; [done|]. rewrite Hscore, Hlevel. lia. }
  unfold score_search_result, artist_match_level, artist_points.
  change (normalize []) with (@nil char). cbn [truthy andb].
  set (result_artists := normalize (extract_artist_text search_result)).
  set (artist := normalize target_artist).
  set (title_points :=
         if truthy (normalize target_title)
            && str_eqb (normalize (safe_str (dict_get search_result (py "title"))))
                       (normalize target_title)
         then 0 + 8
         else if truthy (normalize target_title)
                 && contains (normalize (safe_str (dict_get search_result (py "title"))))
                             (normalize target_title)
              then 0 + 5 else 0).
  clearbody title_points.
  destruct (truthy (safe_str (dict_get search_result (py "videoId"))));
    (destruct (truthy artist) eqn:Hartist; cbn [negb andb];
     [|change (0 =? 3) with false; change (0 =? 2) with false;
       change (0 =? 1) with false; cbv iota; split; lia];
     destruct (truthy result_artists) eqn:Hresult; cbn [negb];
     [ destruct (str_eqb result_artists artist);
       [change (3 =? 3) with true; cbv iota; split; lia|];
       destruct (contains result_artists artist);
       [change (2 =? 3) with false; change (2 =? 2) with true; cbv iota; split; lia|];
       destruct (any_token_in artist result_artists);
       [change (1 =? 3) with false; change (1 =? 2) with false;
        change (1 =? 1) with true; cbv iota; split; lia
       |change (0 =? 3) with false; change (0 =? 2) with false;
        change (0 =? 1) with false; cbv iota; split; lia]
     | apply truthy_false in Hresult; rewrite Hresult;
       apply truthy_true in Hartist;
       assert (str_eqb [] artist = false) as -> by (by apply str_eqb_neq);
       rewrite (contains_nil artist Hartist), any_token_in_nil;
       change (0 =? 3) with false; change (0 =? 2) with false;
       change (0 =? 1) with false; cbv iota; split; lia ]).
Qed.
End SelectionFacts.

(** ** The first loop of the migration: one song *)
Section ResolveFacts.
Context {builtins : Builtins} {ytmusic : YTMusic}.
Import Migrate.

Lemma failure_error song_key title artist album error :
  dict_get (failure song_key title artist album error) (py "error") = PStr error.
Proof. reflexivity. Qed.

Lemma queries_of_length (song : dict) : (1 ≤ length (queries_of song) ≤ 2)%nat.
Proof. unfold queries_of. destruct (truthy _); cbn; lia. Qed.

Lemma search_failed_differs (exc : str) :
  PStr (py "Search failed: " ++ exc)
  ≠ PStr (py "Search result did not include a videoId.").
Proof. intros H. by inversion H. Qed.

(** Every way the body of the first loop can go for one song. *)
Lemma resolve_song_run (debug_enabled : bool) (index : nat) (song : pyval)
    (debug_searches : list dict) (s : session) :
  let run := resolve_song debug_enabled index song debug_searches s in
  let queries := match song with PDict d => queries_of d | _ => [] end in
  (∃ n m, (n ≤ length queries)%nat ∧ (m ≤ length queries)%nat
          ∧ calls run.2
            = calls s ++ map (fun q => Search q (py "songs") 20) (take n queries)
                      ++ map (fun q => Search q (py "videos") 20) (take m queries)
          ∧ ((1 ≤ m)%nat → n = length queries)
          ∧ match song with
            | PDict d => safe_str (dict_get d (py "title")) = [] → n = 0%nat ∧ m = 0%nat
            | _ => True
            end)
  ∧ match run.1.1 with
    | Resolved entry =>
        ∃ d video_id, song = PDict d ∧ safe_str (dict_get d (py "title")) ≠ []
                      ∧ dict_get entry (py "videoId") = PStr video_id
                      ∧ video_id ≠ []
    | Unresolved entry => resolution_errors (dict_get entry (py "error"))
    end.
Proof.
  cbn zeta.
  assert (∀ queries : list str, ∃ n m,
            (n ≤ length queries)%nat ∧ (m ≤ length queries)%nat
            ∧ calls s
              = calls s ++ map (fun q => Search q (py "songs") 20) (take n queries)
                        ++ map (fun q => Search q (py "videos") 20) (take m queries)
            ∧ ((1 ≤ m)%nat → n = length queries)
            ∧ n = 0%nat ∧ m = 0%nat) as Hnone.
  { intros queries. exists 0%nat, 0%nat. cbn. rewrite app_nil_r.
    repeat split; try lia. }
  destruct song as [| | | | | |song];
    try (split; [destruct (Hnone []) as (n & m & ? & ? & ? & ? & _); by exists n, m
                | left; reflexivity]).
  unfold resolve_song.
  set (song_key := if truthy (safe_str (dict_get song (py "songKey")))
                   then safe_str (dict_get song (py "songKey"))
                   else py "song-" ++ str_of_nat index).
  set (title := safe_str (dict_get song (py "title"))).
  set (artist := safe_str (dict_get song (py "artist"))).
  set (album := safe_str (dict_get song (py "album"))).
  destruct (truthy title) eqn:Htitle; cbn [negb].
  2:{ cbn [fst snd]. split.
      - destruct (Hnone (queries_of song)) as (n & m & ? & ? & ? & ? & ? & ?).
        exists n, m. done.
      - right; left. reflexivity. }
  apply truthy_true in Htitle.
  assert ((if truthy album
           then [strip (artist ++ py " " ++ title);
                 strip (artist ++ py " " ++ title ++ py " " ++ album)]
           else [strip (artist ++ py " " ++ title)]) = queries_of song) as -> by done.
  set (queries := queries_of song).
  destruct (search_variants_log (py "songs") queries [] ∅ s merged_ok_empty)
    as [_ (n & Hn & Hc1 & Hnone1 & Hsome1)].
  destruct (search_variants (py "songs") queries [] ∅ s)
    as [[merged_results [exc|]] s1]; cbn [fst snd] in *.
  { split.
    - exists n, 0%nat. split; [done|]. split; [lia|]. cbn [take map].
      rewrite app_nil_r. split; [done|]. split; [lia|]. intros Ht. done.
    - right; right; right. exists exc. reflexivity. }
  specialize (Hnone1 eq_refl). subst n.
  destruct (pick_best_match merged_results title artist album true)
    as [best|] eqn:Hpick.
  { destruct (pick_is_first_of_the_best _ _ _ _ _ _ Hpick) as (_ & _ & Hid).
    apply truthy_true in Hid as Hid'. rewrite Hid'. cbn [negb fst snd]. split.
    - exists (length queries), 0%nat. split; [done|]. split; [lia|]. cbn [take map].
      rewrite app_nil_r. split; [done|]. split; [lia|]. intros Ht. done.
    - exists song, (safe_str (dict_get best (py "videoId"))).
      split; [done|]. split; [done|]. split; [reflexivity | done]. }
  destruct (search_variants_log (py "videos") queries [] ∅ s1 merged_ok_empty)
    as [_ (m & Hm & Hc2 & _ & _)].
  destruct (search_variants (py "videos") queries [] ∅ s1)
    as [[video_results raised] s2]; cbn [fst snd] in *.
  assert (∃ n m : nat,
    (n ≤ length queries)%nat ∧ (m ≤ length queries)%nat
    ∧ calls s2
      = calls s ++ map (fun q => Search q (py "songs") 20) (take n queries)
                ++ map (fun q => Search q (py "videos") 20) (take m queries)
    ∧ ((1 ≤ m)%nat → n = length queries)
    ∧ (title = [] → n = 0%nat ∧ m = 0%nat)) as Hlog.
  { exists (length queries), m. split; [done|]. split; [done|].
    split; [by rewrite Hc2, Hc1, <- app_assoc|]. split; [done|]. intros Ht. done. }
  destruct (pick_best_match video_results title artist album false)
    as [best|] eqn:Hpick2.
  - destruct (pick_is_first_of_the_best _ _ _ _ _ _ Hpick2) as (_ & _ & Hid).
    apply truthy_true in Hid as Hid'. rewrite Hid'. cbn [negb fst snd].
    split; [done|].
    exists song, (safe_str (dict_get best (py "videoId"))).
    split; [done|]. split; [done|]. split; [reflexivity | done].
  - cbn [fst snd]. split; [done|]. right; right; left. reflexivity.
Qed.

(** X15. What the first loop makes of one song, for every song and client.
    A song that is resolved is an object with a non-blank title, and its
    entry carries a non-empty [videoId]. A song that is not resolved is
    recorded with one of four errors: it is no object, it has no title, no
    search result matched, or a search of the "songs" filter raised; the
    error "Search result did not include a videoId." is never recorded,
    since a selected candidate always has one. *)
Theorem resolved_song_has_video (debug_enabled : bool) (index : nat) (song : pyval)
    (debug_searches : list dict) (s : session) :
  match (resolve_song debug_enabled index song debug_searches s).1.1 with
  | Resolved entry =>
      ∃ d video_id, song = PDict d ∧ safe_str (dict_get d (py "title")) ≠ []
                    ∧ dict_get entry (py "videoId") = PStr video_id
                    ∧ video_id ≠ []
  | Unresolved entry =>
      resolution_errors (dict_get entry (py "error"))
      ∧ dict_get entry (py "error")
        ≠ PStr (py "Search result did not include a videoId.")
  end.
Proof.
  destruct (resolve_song_run debug_enabled index song debug_searches s) as [_ Hend].
  cbn zeta in Hend.
  destruct (resolve_song debug_enabled index song debug_searches s).1.1 as [entry | entry];
    [|done].
  split; [done|].
  destruct Hend as [-> | [-> | [-> | [exc ->]]]];
    [by intros H; inversion H.. | apply search_failed_differs].
Qed.

End ResolveFacts.

(** ** The migration batch: calls, order, the debug flag *)
Section BatchRunFacts.
Context {builtins : Builtins} {ytmusic : YTMusic}.
Import Migrate.

Lemma searches_are_searches (filter : str) (queries : list str) :
  Forall (fun c => is_search c = true) (map (fun q => Search q filter 20) queries).
Proof. induction queries; by constructor. Qed.

(** The first loop: what it appends to its lists and which calls it issues. *)
Lemma resolve_songs_run (debug_enabled : bool) (songs : list pyval) :
  ∀ index pending failed debug_searches s,
    let run := resolve_songs debug_enabled index songs pending failed debug_searches s in
    ∃ new_pending new_failed log,
      run.1.1.1 = pending ++ new_pending
      ∧ run.1.1.2 = failed ++ new_failed
      ∧ calls run.2 = calls s ++ log
      ∧ Forall (fun c => is_search c = true) log
      ∧ (length log ≤ 4 * length songs)%nat
      ∧ Forall (fun e => str_of (dict_get e (py "videoId")) ≠ []) new_pending
      ∧ sublist (map song_key_of new_pending)
                (imap (λ i, effective_key (index + i)) songs).
Proof.
  induction songs as [|song songs IH]; intros index pending failed debug_searches s;
    cbn zeta.
  { exists [], [], []. cbn. rewrite !app_nil_r. repeat split; try done; constructor. }
  cbn [resolve_songs]. rewrite imap_effective_key_shift.
  destruct (resolve_song_run debug_enabled index song debug_searches s)
    as [(n & m & Hn & Hm & Hc & _ & _) Hend].
  pose proof (resolve_song_key debug_enabled index song debug_searches s) as Hkey.
  cbn zeta in Hend.
  set (queries := match song with PDict d => queries_of d | _ => [] end) in *.
  assert (length queries ≤ 2)%nat as Hq.
  { unfold queries. destruct song; cbn; try lia. apply queries_of_length. }
  set (log1 := map (fun q => Search q (py "songs") 20) (take n queries)
               ++ map (fun q => Search q (py "videos") 20) (take m queries)) in *.
  assert (Forall (fun c => is_search c = true) log1) as Hlog1.
  { apply Forall_app. split; apply searches_are_searches. }
  assert (length log1 ≤ 4)%nat as Hlen1.
  { unfold log1. rewrite length_app, !length_map, !length_take. lia. }
  destruct (resolve_song debug_enabled index song debug_searches s)
    as [[[entry | entry] debug1] s1]; cbn [fst snd] in *.
  - destruct (IH (S index) pending (failed ++ [entry]) debug1 s1)
      as (np & nf & log & H1 & H2 & H3 & H4 & H5 & H6 & H7).
    exists np, (entry :: nf), (log1 ++ log).
    split; [done|]. split; [by rewrite H2, <- app_assoc|].
    split; [by rewrite H3, Hc, <- app_assoc|].
    split; [by apply Forall_app|]. split; [rewrite length_app; cbn [length]; lia|].
    split; [done|]. by apply sublist_cons.
  - destruct (IH (S index) (pending ++ [entry]) failed debug1 s1)
      as (np & nf & log & H1 & H2 & H3 & H4 & H5 & H6 & H7).
    exists (entry :: np), nf, (log1 ++ log).
    split; [by rewrite H1, <- app_assoc|]. split; [done|].
    split; [by rewrite H3, Hc, <- app_assoc|].
    split; [by apply Forall_app|]. split; [rewrite length_app; cbn [length]; lia|].
    split.
    + constructor; [|done].
      destruct Hend as (d & video_id & _ & _ & -> & Hne). done.
    + cbn [map]. rewrite Hkey. by apply sublist_skip.
Qed.

(** X17. The calls of a batch that does not preserve positions, for every
    client: the searches of the songs (at most four per song), then at most
    one append, with [duplicates=False], of the identifiers of all resolved
    songs; the append is issued only when some song was resolved and none of
    its identifiers is empty. Such a batch never reads the playlist and
    never reorders it. *)
Theorem append_only_batch_calls (playlist_id : str) (debug_enabled : bool)
    (songs : list pyval) (s : session) :
  let run := migrate_batch playlist_id debug_enabled false songs s in
  ∃ searches appends,
    calls run.2 = calls s ++ searches ++ appends
    ∧ Forall (fun c => is_search c = true) searches
    ∧ (length searches ≤ 4 * length songs)%nat
    ∧ (appends = []
       ∨ ∃ video_ids,
           appends = [AddPlaylistItems playlist_id video_ids false]
           ∧ video_ids ≠ [] ∧ Forall (fun v => v ≠ []) video_ids
           ∧ (length video_ids ≤ length songs)%nat).
Proof.
  cbn zeta. unfold migrate_batch.
  destruct (resolve_songs_run debug_enabled songs 0 [] [] [] s)
    as (np & nf & log & H1 & H2 & H3 & H4 & H5 & H6 & H7).
  cbn zeta in *.
  destruct (resolve_songs debug_enabled 0 songs [] [] [] s)
    as [[[pending failed] debug_searches] s1]; cbn [fst snd app] in *. subst pending.
  apply sublist_length in H7. rewrite length_map, length_imap in H7.
  unfold add_pending. destruct np as [|song np].
  { exists log, []. rewrite app_nil_r. destruct debug_enabled; cbn [snd]; by repeat split; try left. }
  cbn [negb].
  set (video_ids := map (fun song => str_of (dict_get song (py "videoId"))) (song :: np)).
  pose proof (invoke_calls (AddPlaylistItems playlist_id video_ids false) s1) as Hc.
  assert (Forall (fun v => v ≠ []) video_ids) as Hids.
  { unfold video_ids. clear -H6. induction H6; by constructor. }
  assert (calls (invoke (AddPlaylistItems playlist_id video_ids false) s1).2
          = calls s ++ log ++ [AddPlaylistItems playlist_id video_ids false]) as Hall.
  { by rewrite Hc, H3, <- app_assoc. }
  exists log, [AddPlaylistItems playlist_id video_ids false].
  split.
  { by destruct (invoke (AddPlaylistItems playlist_id video_ids false) s1)
      as [[v | exc] s2]; destruct debug_enabled. }
  split; [done|]. split; [done|]. right. exists video_ids.
  split; [done|]. split; [done|]. split; [done|].
  unfold video_ids. by rewrite length_map.
Qed.

Lemma add_each_in_place_sub (playlist_id : str) (pending : list dict) :
  ∀ successful failed s,
    ∃ added, (add_each_in_place playlist_id pending successful failed s).1.1
             = successful ++ added
             ∧ sublist added pending.
Proof.
  induction pending as [|song pending IH]; intros successful failed s.
  { exists []. cbn. by rewrite app_nil_r. }
  cbn [add_each_in_place].
  pose proof (add_in_place_key playlist_id song s) as Hkey.
  destruct (add_in_place playlist_id song s) as [[e | song'] s1]; cbn [fst] in Hkey.
  - destruct (IH successful (failed ++ [e]) s1) as (added & -> & Hsub).
    exists added. split; [done | by apply sublist_cons].
  - subst song'. destruct (IH (successful ++ [song]) failed s1) as (added & -> & Hsub).
    exists (song :: added). split; [by rewrite <- app_assoc | by apply sublist_skip].
Qed.

Lemma add_pending_sub playlist_id preserve_position pending failed s :
  sublist (add_pending playlist_id preserve_position pending failed s).1.1 pending.
Proof.
  unfold add_pending. destruct pending as [|song pending]; [done|].
  destruct preserve_position; cbn [negb].
  - by destruct (add_each_in_place_sub playlist_id (song :: pending) [] failed s)
      as (added & -> & Hsub).
  - destruct (invoke _ s) as [[v | exc] s1]; cbn [fst]; [done|].
    apply sublist_nil_l.
Qed.

(** X18. The songs of [migrated] keep the order of the input, in either
    mode: their keys are the keys of the input songs with some left out, and
    every one of them carries a non-empty [videoId]. *)
Theorem migrated_keeps_input_order (playlist_id : str)
    (debug_enabled preserve_position : bool) (songs : list pyval) (s : session) :
  let run := migrate_batch playlist_id debug_enabled preserve_position songs s in
  ∃ migrated,
    dict_get run.1 (py "migrated") = PList (map PDict migrated)
    ∧ sublist (map song_key_of migrated) (imap effective_key songs)
    ∧ Forall (fun e => str_of (dict_get e (py "videoId")) ≠ []) migrated.
Proof.
  cbn zeta.
  pose proof (migrate_batch_fields playlist_id debug_enabled preserve_position songs s)
    as Hfields.
  destruct (resolve_songs_run debug_enabled songs 0 [] [] [] s)
    as (np & nf & log & H1 & H2 & H3 & H4 & H5 & H6 & H7).
  cbn zeta in *.
  destruct (resolve_songs debug_enabled 0 songs [] [] [] s)
    as [[[pending failed] debug_searches] s1]; cbn [fst snd app] in *. subst pending.
  pose proof (add_pending_sub playlist_id preserve_position np failed s1) as Hsub.
  destruct (add_pending playlist_id preserve_position np failed s1)
    as [[successful failed1] s2]; cbn [fst] in Hsub.
  destruct (migrate_batch playlist_id debug_enabled preserve_position songs s)
    as [result s']. destruct Hfields as (_ & _ & Hm & _). cbn [fst].
  exists successful. split; [done|]. split.
  - etrans; [|exact H7]. by apply (fmap_sublist song_key_of).
  - rewrite Forall_forall in H6. apply Forall_forall. intros e He. apply H6.
    by eapply elem_of_sublist.
Qed.

(** The first loop does the same to a song with the debug flag on or off,
    apart from the debug log. *)
Lemma resolve_song_debug (debug_enabled : bool) (index : nat) (song : pyval)
    (debug_searches debug_searches' : list dict) (s : session) :
  (resolve_song debug_enabled index song debug_searches s).1.1
  = (resolve_song false index song debug_searches' s).1.1
  ∧ (resolve_song debug_enabled index song debug_searches s).2
    = (resolve_song false index song debug_searches' s).2.
Proof.
  unfold resolve_song. destruct song as [| | | | | |song]; try done. cbv zeta.
  destruct (truthy (safe_str (dict_get song (py "title")))); cbn [negb]; [|done].
  destruct (search_variants (py "songs") _ [] ∅ s) as [[merged [exc|]] s1]; [done|].
  destruct (pick_best_match merged _ _ _ true) as [best|].
  - by destruct (truthy (safe_str (dict_get best (py "videoId")))).
  - destruct (search_variants (py "videos") _ [] ∅ s1) as [[video_results raised] s2].
    destruct (pick_best_match video_results _ _ _ false) as [best|]; [|done].
    by destruct (truthy (safe_str (dict_get best (py "videoId")))).
Qed.

Lemma resolve_songs_debug (debug_enabled : bool) (songs : list pyval) :
  ∀ index pending failed debug_searches debug_searches' s,
    (resolve_songs debug_enabled index songs pending failed debug_searches s).1.1
    = (resolve_songs false index songs pending failed debug_searches' s).1.1
    ∧ (resolve_songs debug_enabled index songs pending failed debug_searches s).2
      = (resolve_songs false index songs pending failed debug_searches' s).2.
Proof.
  induction songs as [|song songs IH];
    intros index pending failed debug_searches debug_searches' s; [done|].
  cbn [resolve_songs].
  destruct (resolve_song_debug debug_enabled index song debug_searches debug_searches' s)
    as [Hres Hs].
  destruct (resolve_song debug_enabled index song debug_searches s)
    as [[r1 d1] s1].
  destruct (resolve_song false index song debug_searches' s) as [[r2 d2] s2].
  cbn [fst snd] in Hres, Hs. subst r2 s2.
  destruct r1 as [entry | entry]; apply IH.
Qed.

(** X19. The debug flag changes nothing but the response's [debug] field:
    with the flag on or off a batch issues the same calls, leaves the remote
    service in the same state and reports the same [ok], [playlistId],
    [migrated] and [failed]; with the flag on the response is the one of the
    flag off followed by a [debug] object. *)
Theorem debug_flag_only_adds_debug_field (playlist_id : str)
    (debug_enabled preserve_position : bool) (songs : list pyval) (s : session) :
  let run := migrate_batch playlist_id debug_enabled preserve_position songs s in
  let plain := migrate_batch playlist_id false preserve_position songs s in
  run.2 = plain.2
  ∧ if debug_enabled
    then ∃ searches,
           run.1 = plain.1 ++ [(py "debug",
                                PDict [(py "enabled", PBool true);
                                       (py "searches", PList searches)])]
    else run.1 = plain.1.
Proof.
  cbn zeta. unfold migrate_batch.
  destruct (resolve_songs_debug debug_enabled songs 0 [] [] [] [] s) as [Hres Hs].
  destruct (resolve_songs debug_enabled 0 songs [] [] [] s)
    as [[[pending failed] debug_searches] s1].
  destruct (resolve_songs false 0 songs [] [] [] s)
    as [[[pending' failed'] debug_searches'] s1'].
  cbn [fst snd] in Hres, Hs. injection Hres as <- <-. subst s1'.
  destruct (add_pending playlist_id preserve_position pending failed s1)
    as [[successful failed1] s2].
  cbn [fst snd]. split; [done|]. destruct debug_enabled; [|done].
  by eexists.
Qed.

(** X20. How [migrate_songs] ends, for every environment, request and
    client. It never ends in an uncaught exception. It fails only before the
    first loop, with no call issued: missing_dependency when the import of
    the client library raised, whatever the request; missing_auth_file when
    the auth file is not configured or does not exist; invalid_input, only
    once dependency and auth file are fine; auth_init_failed, only for a
    request that passed the input checks. Once the first loop starts the
    response is ok true with the stripped playlist id, whatever the client
    does. *)
Theorem migrate_songs_outcomes (env : environment) (payload : dict) (s : session) :
  let run := migrate_songs env payload s in
  let auth_file := strip (default [] (auth_file_var env)) in
  let playlist_id := safe_str (dict_get payload (py "playlistId")) in
  let songs_given := ∃ song rest, dict_get payload (py "songs") = PList (song :: rest) in
  match run.1 with
  | Done result =>
      checks_pass env payload ∧ songs_given
      ∧ dict_get result (py "ok") = PBool true
      ∧ dict_get result (py "playlistId") = PStr playlist_id
  | Failed _ =>
      run.2 = s
      ∧ ((error_code run.1 = Some (py "missing_dependency") ∧ import_error env ≠ None)
         ∨ (error_code run.1 = Some (py "missing_auth_file")
            ∧ import_error env = None
            ∧ (auth_file = [] ∨ path_exists env auth_file = false))
         ∨ (error_code run.1 = Some (py "invalid_input")
            ∧ import_error env = None ∧ auth_file ≠ []
            ∧ path_exists env auth_file = true
            ∧ (playlist_id = [] ∨ ¬ songs_given))
         ∨ (error_code run.1 = Some (py "auth_init_failed")
            ∧ import_error env = None ∧ auth_file ≠ []
            ∧ path_exists env auth_file = true
            ∧ playlist_id ≠ [] ∧ songs_given ∧ init_error env ≠ None))
  | Uncaught _ => False
  end.
Proof.
  cbn zeta. unfold migrate_songs, checks_pass.
  destruct (import_error env) as [exc|] eqn:Himp.
  { cbn [fst snd]. split; [done|]. left. by rewrite error_code_emit. }
  destruct (truthy (strip (default [] (auth_file_var env)))) eqn:Hauth; cbn [negb].
  2:{ cbn [fst snd]. split; [done|]. right; left. rewrite error_code_emit.
      apply truthy_false in Hauth. split; [done|]. split; [done | by left]. }
  destruct (path_exists env _) eqn:Hpath; cbn [negb].
  2:{ cbn [fst snd]. split; [done|]. right; left. rewrite error_code_emit.
      split; [done|]. split; [done | by right]. }
  apply truthy_true in Hauth as Hauth'.
  destruct (truthy (safe_str (dict_get payload (py "playlistId")))) eqn:Hpid;
    cbn [negb].
  2:{ cbn [fst snd]. split; [done|]. right; right; left. rewrite error_code_emit.
      apply truthy_false in Hpid. repeat split; try done. by left. }
  apply truthy_true in Hpid as Hpid'.
  destruct (dict_get payload (py "songs")) as [| | | | |[|song rest]|] eqn:Hsongs;
    try (cbn [fst snd]; split; [done|]; right; right; left; rewrite error_code_emit;
         repeat split; try done; right; by intros (? & ? & ?)).
  destruct (init_error env) as [exc|] eqn:Hinit.
  { cbn [fst snd]. split; [done|]. right; right; right. rewrite error_code_emit.
    repeat split; try done. by exists song, rest. }
  pose proof (migrate_batch_fields
                (safe_str (dict_get payload (py "playlistId")))
                (is_truthy (dict_get payload (py "debug"))
                 || is_truthy (opt_str (debug_var env)))
                (is_truthy (dict_get payload (py "preservePosition")))
                (song :: rest) s) as Hfields.
  assert (∀ debug preserve,
            dict_get (migrate_batch (safe_str (dict_get payload (py "playlistId")))
                                    debug preserve (song :: rest) s).1
                     (py "playlistId")
            = PStr (safe_str (dict_get payload (py "playlistId")))) as Hecho.
  { intros debug preserve. unfold migrate_batch.
    destruct (resolve_songs debug 0 (song :: rest) [] [] [] s)
      as [[[pending failed] debug_searches] s1].
    destruct (add_pending _ preserve pending failed s1) as [[successful failed1] s2].
    by destruct debug. }
  specialize (Hecho (is_truthy (dict_get payload (py "debug"))
                     || is_truthy (opt_str (debug_var env)))
                    (is_truthy (dict_get payload (py "preservePosition")))).
  destruct (resolve_songs _ 0 (song :: rest) [] [] [] s)
    as [[[pending failed] debug_searches] s1].
  destruct (add_pending _ _ pending failed s1) as [[successful failed1] s2].
  destruct (migrate_batch _ _ _ (song :: rest) s) as [result s'].
  cbn [fst snd] in *. destruct Hfields as (_ & Hok & _).
  split; [done|]. split; [by exists song, rest|]. done.
Qed.
End BatchRunFacts.

(** ** The position-preserving branch: one pending song *)
Section InPlaceFacts.
Context {builtins : Builtins} {ytmusic : YTMusic}.
Import Migrate.

Lemma migrate_poll_after_log playlist_id video_id before attempts st s :
  ∃ k, (k ≤ length attempts)%nat
       ∧ calls (poll_after playlist_id video_id before attempts st s).2
         = calls s ++ replicate k (GetPlaylist playlist_id 5000).
Proof.
  revert st s. induction attempts as [|attempt rest IH]; intros st s.
  { exists 0%nat. cbn. by rewrite app_nil_r. }
  assert (∀ st' s1, calls s1 = calls s ++ [GetPlaylist playlist_id 5000] →
    ∃ k, (k ≤ length (attempt :: rest))%nat
         ∧ calls (poll_after playlist_id video_id before rest st' s1).2
           = calls s ++ replicate k (GetPlaylist playlist_id 5000)) as Hnext.
  { intros st' s1 Hs1. destruct (IH st' s1) as (k & Hk & Hcalls).
    exists (S k). split; [cbn; lia|]. rewrite Hcalls, Hs1, <- app_assoc. done. }
  cbn [poll_after].
  pose proof (invoke_calls (GetPlaylist playlist_id 5000) s) as Hcalls.
  destruct (invoke (GetPlaylist playlist_id 5000) s) as [[after_snapshot | exc] s1];
    cbn [snd] in Hcalls.
  - destruct (match tracks_field after_snapshot with
              | PList candidate_tracks => candidate_tracks
              | _ => []
              end) as [|r rows]; [by apply Hnext|].
    destruct (truthy _ || truthy _); [|by apply Hnext].
    exists 1%nat. split; [cbn; lia | done].
  - exists 1%nat. split; [cbn; lia | done].
Qed.

Lemma reposition_log playlist_id video_id expected_index before s :
  ∃ k reorder,
    (k ≤ 5)%nat
    ∧ calls (reposition playlist_id video_id expected_index before s)
      = calls s ++ replicate k (GetPlaylist playlist_id 5000) ++ reorder
    ∧ (reorder = []
       ∨ ∃ inserted successor,
           reorder = [EditPlaylist playlist_id (inserted, successor)]
           ∧ inserted ≠ [] ∧ successor ≠ [] ∧ successor ≠ inserted).
Proof.
  unfold reposition.
  destruct (migrate_poll_after_log playlist_id video_id before [0; 1; 2; 3; 4]
              {| after_tracks := []; hits := nothing_found |} s) as (k & Hk & Hc).
  cbn [length] in Hk.
  assert (∀ s1, calls s1 = calls s ++ replicate k (GetPlaylist playlist_id 5000) →
    ∃ k reorder,
      (k ≤ 5)%nat
      ∧ calls s1 = calls s ++ replicate k (GetPlaylist playlist_id 5000) ++ reorder
      ∧ (reorder = []
         ∨ ∃ inserted successor,
             reorder = [EditPlaylist playlist_id (inserted, successor)]
             ∧ inserted ≠ [] ∧ successor ≠ [] ∧ successor ≠ inserted)) as Hstop.
  { intros s1 Hs1. exists k, []. rewrite app_nil_r. split; [done|]. split; [done | by left]. }
  destruct (poll_after _ _ _ _ _ s) as [[st|] s1]; cbn [snd] in Hc; [|by apply Hstop].
  destruct (after_tracks st) as [|r rows]; [by apply Hstop|].
  destruct (with_fallback (hits st)) as [inserted i].
  destruct (truthy inserted) eqn:Hins; cbn [negb]; [|by apply Hstop].
  destruct (i =? _); [by apply Hstop|].
  destruct (_ <=? _); [by apply Hstop|].
  set (rest := drop _ (r :: rows)).
  destruct (truthy (successor_scan inserted rest)) eqn:Hsucc; cbn [negb];
    [|by apply Hstop].
  apply truthy_true in Hins. apply truthy_true in Hsucc.
  exists k, [EditPlaylist playlist_id (inserted, successor_scan inserted rest)].
  split; [done|]. split; [by rewrite invoke_calls, Hc, <- app_assoc|].
  right. exists inserted, (successor_scan inserted rest).
  split; [done|]. split; [done|]. split; [done|].
  by destruct (successor_scan_token inserted rest) as [? | [? _]].
Qed.

(** X21. The calls for one pending song of a position-preserving batch, for
    every client: a read of the playlist, then the append of exactly that
    song's identifier with [duplicates=False] (issued also when the read
    raised), then at most five reads and at most one reorder call, of a
    non-empty token before a different non-empty token. Nothing follows the
    append when it raised or when the song has no usable [expectedIndex]. *)
Theorem in_place_song_calls (playlist_id : str) (song : dict) (s : session) :
  let run := add_in_place playlist_id song s in
  let read := GetPlaylist playlist_id 5000 in
  let append :=
    AddPlaylistItems playlist_id [str_of (dict_get song (py "videoId"))] false in
  ∃ k reorder,
    (k ≤ 5)%nat
    ∧ calls run.2 = calls s ++ [read; append] ++ replicate k read ++ reorder
    ∧ (reorder = []
       ∨ ∃ inserted successor,
           reorder = [EditPlaylist playlist_id (inserted, successor)]
           ∧ inserted ≠ [] ∧ successor ≠ [] ∧ successor ≠ inserted)
    ∧ (safe_non_negative_int (dict_get song (py "expectedIndex")) = None →
       k = 0%nat ∧ reorder = [])
    ∧ match run.1 with
      | inl _ => k = 0%nat ∧ reorder = []
      | inr migrated => migrated = song
      end.
Proof.
  cbn zeta. unfold add_in_place.
  set (video_id := str_of (dict_get song (py "videoId"))).
  pose proof (invoke_calls (GetPlaylist playlist_id 5000) s) as Hc1.
  set (first := match invoke (GetPlaylist playlist_id 5000) s with
                | (Returns before_snapshot, s1) => (before_tokens before_snapshot, s1)
                | (Raises _, s1) => (∅, s1)
                end).
  assert (calls first.2 = calls s ++ [GetPlaylist playlist_id 5000]) as Hfirst.
  { unfold first. by destruct (invoke (GetPlaylist playlist_id 5000) s) as [[v | exc] s1]. }
  clearbody first. clear Hc1. destruct first as [before s1]. cbn [snd] in Hfirst.
  pose proof (invoke_calls (AddPlaylistItems playlist_id [video_id] false) s1) as Hc2.
  assert (∀ s2, calls s2 = calls s1 ++ [AddPlaylistItems playlist_id [video_id] false] →
            calls s2 = calls s ++ [GetPlaylist playlist_id 5000;
                                   AddPlaylistItems playlist_id [video_id] false]
                               ++ replicate 0 (GetPlaylist playlist_id 5000) ++ [])
    as Hstop.
  { intros s2 ->. rewrite Hfirst, <- app_assoc. done. }
  destruct (invoke (AddPlaylistItems playlist_id [video_id] false) s1)
    as [[v | exc] s2]; cbn [snd] in Hc2.
  2:{ exists 0%nat, []. cbn [fst snd]. split; [lia|]. split; [by apply Hstop|].
      split; [by left|]. done. }
  destruct (safe_non_negative_int (dict_get song (py "expectedIndex")))
    as [expected_index|].
  2:{ exists 0%nat, []. cbn [fst snd]. split; [lia|]. split; [by apply Hstop|].
      split; [by left|]. done. }
  destruct (reposition_log playlist_id video_id expected_index before s2)
    as (k & reorder & Hk & Hc3 & Hre).
  exists k, reorder. cbn [fst snd]. split; [done|]. split.
  { rewrite Hc3, Hc2, Hfirst, <- !app_assoc. done. }
  split; [done|]. split; [done | done].
Qed.
End InPlaceFacts.

(** ** Listing, creating and deleting playlists, removing rows *)
Section LibraryFacts.
Context {builtins : Builtins} {library : Library.Library} {json : Library.Json}.
Import Library.

Lemma ask_asked (c : library_call) (l : library_session) :
  asked (ask c l).2 = asked l ++ [c].
Proof. unfold ask. by destruct (answer c (held l)). Qed.

Lemma omap_length_le {A B} (f : A → option B) (items : list A) :
  (length (omap f items) ≤ length items)%nat.
Proof.
  induction items as [|x items IH]; [done|]. cbn. destruct (f x); cbn; lia.
Qed.

Lemma playlist_entry_shape (item : pyval) (entry : dict) :
  playlist_entry item = Some entry →
  ∃ playlist_id name,
    entry = [(py "id", PStr playlist_id); (py "name", PStr name); (py "songs", PList [])]
    ∧ playlist_id ≠ [] ∧ name ≠ [].
Proof.
  destruct item as [| | | | | |item]; try done. cbn [playlist_entry].
  set (playlist_id := safe_str _).
  destruct (truthy playlist_id) eqn:Hid; cbn [negb]; [|done].
  intros [= <-]. eexists _, _. split; [done|]. split; [by apply truthy_true|].
  destruct (truthy (safe_str (dict_get item (py "title")))) eqn:Ht;
    [by apply truthy_true | done].
Qed.

(** X22. [handle_playlists], for every client: it issues one call,
    [get_library_playlists] with limit 500; when the call raises it fails
    with playlist_load_failed; otherwise it answers ok, and every playlist it
    lists has a non-empty id, a non-empty name and an empty list of songs,
    and there are no more playlists than items in the reply (none when the
    reply is no list). *)
Theorem listed_playlists_are_named (l : library_session) :
  let run := handle_playlists l in
  asked run.2 = asked l ++ [GetLibraryPlaylists 500]
  ∧ match (ask (GetLibraryPlaylists 500) l).1 with
    | Throws _ _ => error_code run.1 = Some (py "playlist_load_failed")
    | Gives raw_playlists =>
        ∃ playlists,
          run.1 = Done [(py "ok", PBool true);
                        (py "playlists", PList (map PDict playlists))]
          ∧ Forall (fun entry =>
                      ∃ playlist_id name,
                        entry = [(py "id", PStr playlist_id); (py "name", PStr name);
                                 (py "songs", PList [])]
                        ∧ playlist_id ≠ [] ∧ name ≠ []) playlists
          ∧ match raw_playlists with
            | PList items => (length playlists ≤ length items)%nat
            | _ => playlists = []
            end
    end.
Proof.
  cbn zeta. unfold handle_playlists.
  pose proof (ask_asked (GetLibraryPlaylists 500) l) as Hc.
  destruct (ask (GetLibraryPlaylists 500) l) as [[raw | te exc] l1]; cbn [fst snd] in *.
  2:{ split; [done|]. by rewrite error_code_emit. }
  split; [done|].
  destruct raw as [| | | | |items|]; try (exists []; by repeat split).
  exists (omap playlist_entry items). split; [done|]. split.
  - apply Forall_forall. intros entry (item & _ & Hentry)%list_elem_of_omap.
    by apply (playlist_entry_shape item).
  - apply omap_length_le.
Qed.

(** X23. [handle_create_playlist], for every request and client. A request
    without a name fails with invalid_input and no call. Otherwise the one
    call creates a playlist with the stripped name and description that is
    always PRIVATE; the response is ok exactly when the call returns a
    string that is not blank, and then it carries the stripped id and the
    stripped name; any other reply, and a raised call, gives
    playlist_create_failed. *)
Theorem created_playlist_is_private (payload : dict) (l : library_session) :
  let name := safe_str (dict_get payload (py "name")) in
  let description := safe_str (dict_get payload (py "description")) in
  let create := CreatePlaylist name description (py "PRIVATE") in
  let run := handle_create_playlist payload l in
  (name = [] ∧ error_code run.1 = Some (py "invalid_input") ∧ run.2 = l)
  ∨ (name ≠ [] ∧ asked run.2 = asked l ++ [create]
     ∧ match (ask create l).1 with
       | Gives (PStr playlist_id) =>
           if truthy (strip playlist_id)
           then run.1 = Done [(py "ok", PBool true);
                              (py "playlist",
                               PDict [(py "id", PStr (strip playlist_id));
                                      (py "name", PStr name);
                                      (py "songs", PList [])])]
           else error_code run.1 = Some (py "playlist_create_failed")
       | _ => error_code run.1 = Some (py "playlist_create_failed")
       end).
Proof.
  cbn zeta. unfold handle_create_playlist.
  set (name := safe_str (dict_get payload (py "name"))).
  set (description := safe_str (dict_get payload (py "description"))).
  destruct (truthy name) eqn:Hname; cbn [negb].
  2:{ left. apply truthy_false in Hname. cbn [fst snd]. by rewrite error_code_emit. }
  right. apply truthy_true in Hname. split; [done|].
  pose proof (ask_asked (CreatePlaylist name description (py "PRIVATE")) l) as Hc.
  destruct (ask (CreatePlaylist name description (py "PRIVATE")) l)
    as [[playlist_id | te exc] l1]; cbn [fst snd] in *.
  2:{ split; [done|]. by rewrite error_code_emit. }
  destruct playlist_id as [| | | |playlist_id| |]; cbn [safe_str truthy negb fst snd];
    try (split; [done|]; by rewrite error_code_emit).
  destruct (truthy (strip playlist_id)); cbn [negb fst snd]; [done|].
  split; [done|]. by rewrite error_code_emit.
Qed.



Lemma not_flagged (result : pyval) :
  operation_explicitly_failed result = false
  ↔ result ≠ PBool false
    ∧ ∀ d, result = PDict d →
           lower (safe_str (dict_get d (py "status"))) ≠ py "failed"
           ∧ lower (safe_str (dict_get d (py "status"))) ≠ py "error"
           ∧ dict_get d (py "ok") ≠ PBool false
           ∧ dict_get d (py "success") ≠ PBool false.
Proof.
  assert (∀ v, is_False v = false ↔ v ≠ PBool false) as Hfalse.
  { intros v. destruct v as [|[|]| | | | |]; cbn; split; try done. }
  unfold operation_explicitly_failed.
  destruct (is_False result) eqn:Hr.
  { split; [done|]. intros [Hne _]. apply Hfalse in Hne. congruence. }
  apply Hfalse in Hr.
  destruct result as [| | | | | |d]; try (split; [by intros _ | done]).
  destruct (str_eqb (lower (safe_str (dict_get d (py "status")))) (py "failed")) eqn:H1.
  { apply str_eqb_eq in H1. cbn [orb]. split; [done|].
    intros [_ Hd]. by destruct (Hd d eq_refl) as (? & _). }
  destruct (str_eqb (lower (safe_str (dict_get d (py "status")))) (py "error")) eqn:H2.
  { apply str_eqb_eq in H2. cbn [orb]. split; [done|].
    intros [_ Hd]. by destruct (Hd d eq_refl) as (_ & ? & _). }
  apply str_eqb_neq in H1. apply str_eqb_neq in H2. cbn [orb].
  destruct (is_False (dict_get d (py "ok"))) eqn:H3.
  { split; [done|]. intros [_ Hd]. destruct (Hd d eq_refl) as (_ & _ & Hok & _).
    apply Hfalse in Hok. congruence. }
  destruct (is_False (dict_get d (py "success"))) eqn:H4.
  { split; [done|]. intros [_ Hd]. destruct (Hd d eq_refl) as (_ & _ & _ & Hok).
    apply Hfalse in Hok. congruence. }
  apply Hfalse in H3. apply Hfalse in H4.
  split; [|done]. intros _. split; [done|]. by intros d' [= <-].
Qed.

(** X25. [handle_delete_playlist] takes a reply as success unless it says
    otherwise: for a request with a playlist id, the response is ok exactly
    when the call returns a value that is not [False] and, if it is an
    object, has no [status] that reads "failed" or "error" in any letter
    case and neither [ok] nor [success] equal to [False]. So a reply of
    [None], of [True], of a number, a string or a list, and of an object
    without these fields, is a success. A request without a playlist id
    issues no call. *)
Theorem delete_succeeds_unless_told (payload : dict) (l : library_session) :
  let playlist_id := safe_str (dict_get payload (py "playlistId")) in
  let run := handle_delete_playlist payload l in
  (run.1 = Done [(py "ok", PBool true); (py "playlistId", PStr playlist_id)]
   ↔ playlist_id ≠ []
     ∧ ∃ result,
         (ask (DeletePlaylist playlist_id) l).1 = Gives result
         ∧ result ≠ PBool false
         ∧ ∀ d, result = PDict d →
                lower (safe_str (dict_get d (py "status"))) ≠ py "failed"
                ∧ lower (safe_str (dict_get d (py "status"))) ≠ py "error"
                ∧ dict_get d (py "ok") ≠ PBool false
                ∧ dict_get d (py "success") ≠ PBool false)
  ∧ (playlist_id = [] → run.2 = l ∧ error_code run.1 = Some (py "invalid_input"))
  ∧ (playlist_id ≠ [] → asked run.2 = asked l ++ [DeletePlaylist playlist_id]).
Proof.
  cbn zeta. unfold handle_delete_playlist.
  set (playlist_id := safe_str (dict_get payload (py "playlistId"))).
  destruct (truthy playlist_id) eqn:Hp; cbn [negb].
  2:{ apply truthy_false in Hp. cbn [fst snd]. rewrite error_code_emit.
      split; [|split; [done | by intros ?]].
      split; [by destruct (truthy []) | by intros [? _]]. }
  apply truthy_true in Hp.
  pose proof (ask_asked (DeletePlaylist playlist_id) l) as Hc.
  destruct (ask (DeletePlaylist playlist_id) l) as [[result | te exc] l1];
    cbn [fst snd] in *.
  2:{ split; [|split; [done | by intros _]].
      split; [by unfold emit_error; destruct (truthy exc) | by intros [_ (? & ? & _)]]. }
  pose proof (not_flagged result) as Hflag.
  destruct (operation_explicitly_failed result); cbn [fst snd].
  - split; [|split; [done | by intros _]]. split.
    + unfold emit_error. by destruct (truthy (json_dumps result)).
    + intros [_ (result' & [= <-] & Hne & Hd)].
      assert (true = false) by (apply Hflag; done). done.
  - split; [|split; [done | by intros _]]. split; [|done].
    intros _. split; [done|]. exists result. split; [done|]. by apply Hflag.
Qed.
End LibraryFacts.

(** ** The dispatch of [main] *)
Section DispatchFacts.
Context {builtins : Builtins} {ytmusic : YTMusic}
        {library : Library.Library} {json : Library.Json}.
Import Library.

(** X26. [main], for every environment, request and pair of clients. When
    the client cannot be built, the error of [with_ytmusic] is the outcome
    for every action, known or not, and no call is issued. Otherwise a
    missing or blank action is the action "status", which answers connected
    without a call; a run leaves at least one of the two groups of client
    methods untouched; insertVideoAtPosition and movePlaylistSong run their
    handlers; and an action that is none of the eight known names (compared
    after stripping, letter case kept) ends with invalid_input and no
    call. *)
Theorem main_dispatch (env : Migrate.environment) (payload : dict)
    (s : session) (l : library_session) :
  let given := safe_str (dict_get payload (py "action")) in
  let action := if truthy given then given else py "status" in
  let run := main env payload s l in
  match with_ytmusic env with
  | Some failure => run = (failure, s, l)
  | None =>
      (run.1.2 = s ∨ run.2 = l)
      ∧ (action = py "status" →
         run = (Done [(py "ok", PBool true); (py "connected", PBool true)], s, l))
      ∧ (action ∉ [py "status"; py "playlists"; py "playlistSongs";
                   py "createPlaylist"; py "removePlaylistItems";
                   py "deletePlaylist"; py "insertVideoAtPosition";
                   py "movePlaylistSong"] →
         run = (emit_error (py "Unknown ytmusic action.") (py "invalid_input") 400 [],
                s, l))
      ∧ (action = py "insertVideoAtPosition" →
         run = ((Load.handle_insert_video_at_position payload s).1,
                (Load.handle_insert_video_at_position payload s).2, l))
      ∧ (action = py "movePlaylistSong" →
         run = ((Load.handle_move_playlist_song payload s).1,
                (Load.handle_move_playlist_song payload s).2, l))
  end.
Proof.
  cbn zeta. unfold main. destruct (with_ytmusic env) as [failure|]; [done|].
  set (action := if truthy (safe_str (dict_get payload (py "action")))
                 then safe_str (dict_get payload (py "action")) else py "status").
  assert (∀ name : str, str_eqb action name = false → action ≠ name) as Hne.
  { intros name. apply str_eqb_neq. }
  destruct (str_eqb action (py "status")) eqn:E1.
  { apply str_eqb_eq in E1. rewrite E1. cbn [fst snd].
    split; [by left|]. split; [done|]. split.
    - intros Hnot. exfalso. apply Hnot. left.
    - split; intros Heq; by inversion Heq. }
  destruct (str_eqb action (py "playlists")) eqn:E2.
  { apply str_eqb_eq in E2. rewrite E2. destruct (handle_playlists l) as [o l1].
    cbn [fst snd]. split; [by left|]. split; [intros Heq; by inversion Heq|]. split.
    - intros Hnot. exfalso. apply Hnot. right; left.
    - split; intros Heq; by inversion Heq. }
  destruct (str_eqb action (py "playlistSongs")) eqn:E3.
  { apply str_eqb_eq in E3. rewrite E3.
    destruct (Load.handle_playlist_songs payload s) as [o s1].
    cbn [fst snd]. split; [by right|]. split; [intros Heq; by inversion Heq|]. split.
    - intros Hnot. exfalso. apply Hnot. right; right; left.
    - split; intros Heq; by inversion Heq. }
  destruct (str_eqb action (py "createPlaylist")) eqn:E4.
  { apply str_eqb_eq in E4. rewrite E4.
    destruct (handle_create_playlist payload l) as [o l1].
    cbn [fst snd]. split; [by left|]. split; [intros Heq; by inversion Heq|]. split.
    - intros Hnot. exfalso. apply Hnot. do 3 right; left.
    - split; intros Heq; by inversion Heq. }
  destruct (str_eqb action (py "removePlaylistItems")) eqn:E5.
  { apply str_eqb_eq in E5. rewrite E5.
    destruct (handle_remove_playlist_items payload l) as [o l1].
    cbn [fst snd]. split; [by left|]. split; [intros Heq; by inversion Heq|]. split.
    - intros Hnot. exfalso. apply Hnot. do 4 right; left.
    - split; intros Heq; by inversion Heq. }
  destruct (str_eqb action (py "deletePlaylist")) eqn:E6.
  { apply str_eqb_eq in E6. rewrite E6.
    destruct (handle_delete_playlist payload l) as [o l1].
    cbn [fst snd]. split; [by left|]. split; [intros Heq; by inversion Heq|]. split.
    - intros Hnot. exfalso. apply Hnot. do 5 right; left.
    - split; intros Heq; by inversion Heq. }
  destruct (str_eqb action (py "insertVideoAtPosition")) eqn:E7.
  { apply str_eqb_eq in E7. rewrite E7.
    destruct (Load.handle_insert_video_at_position payload s) as [o s1].
    cbn [fst snd]. split; [by right|]. split; [intros Heq; by inversion Heq|]. split.
    - intros Hnot. exfalso. apply Hnot. do 6 right; left.
    - split; [done | intros Heq; by inversion Heq]. }
  destruct (str_eqb action (py "movePlaylistSong")) eqn:E8.
  { apply str_eqb_eq in E8. rewrite E8.
    destruct (Load.handle_move_playlist_song payload s) as [o s1].
    cbn [fst snd]. split; [by right|]. split; [intros Heq; by inversion Heq|]. split.
    - intros Hnot. exfalso. apply Hnot. do 7 right; left.
    - split; [intros Heq; by inversion Heq | done]. }
  cbn [fst snd]. split; [by left|].
  split; [intros Heq; by apply Hne in E1|]. split; [done|].
  split; intros Heq; [by apply Hne in E7 | by apply Hne in E8].
Qed.
End DispatchFacts.

(** * Further worked examples *)

(** X4 at a playlist of three rows, one of them without a title. *)
Lemma playlist_songs_are_parallel_witness :
  (Load.handle_playlist_songs (ytmusic := still)
     batch_fields (start (ytmusic := still) (snapshot titled_rows))).1
  = Done titled_response
  ∧ ∃ details : list dict,
      dict_get titled_response (py "songDetails") = PList (map PDict details)
      ∧ dict_get titled_response (py "songs") = PList (map Load.song_line details)
      ∧ length (map Load.song_line details) = length (map PDict details).
Proof.
  assert ((Load.handle_playlist_songs (ytmusic := still)
             batch_fields (start (ytmusic := still) (snapshot titled_rows))).1
          = Done titled_response) as Hrun by (vm_compute; reflexivity).
  split; [exact Hrun|].
  destruct (playlist_songs_are_parallel (ytmusic := still)
              batch_fields (start (ytmusic := still) (snapshot titled_rows))
              titled_response Hrun) as (details & Hd & Hs & Hlen & _).
  exists details. split; [exact Hd|]. split; [exact Hs | exact Hlen].
Defined.

(** X7 at a playlist whose rows were all there before the append. *)
Lemma fallback_is_last_carrying_row_witness :
  last_row (carries (py "abc")) stale_rows 2
  ∧ with_fallback (scan_after (py "abc") {[ py "t1"; py "t2"; py "t3" ]} stale_rows)
    = (token_at stale_rows 2, 2).
Proof.
  assert (∀ row, row ∈ stale_rows →
                 ¬ new_row (py "abc") {[ py "t1"; py "t2"; py "t3" ]} row) as Hnone.
  { intros row Hrow (_ & _ & Hfresh). apply Hfresh. unfold stale_rows in Hrow.
    rewrite !elem_of_cons in Hrow.
    destruct Hrow as [-> | [-> | [-> | Hrow]]];
      [| | | by apply not_elem_of_nil in Hrow];
      apply (bool_decide_eq_true_1 _); vm_compute; reflexivity. }
  assert (last_row (carries (py "abc")) stale_rows 2) as Hlast.
  { split.
    - exists (row "abc" "t3"). split; [reflexivity|]. split; [reflexivity | discriminate].
    - intros j row' Hj Hrow. apply lookup_lt_Some in Hrow. cbn in Hrow. lia. }
  split; [exact Hlast|].
  exact (proj1 (fallback_is_last_carrying_row (py "abc") _ stale_rows Hnone) 2%nat Hlast).
Defined.

(** X10 at a playlist that never shows the appended video. *)
Lemma unreconciled_insert_reports_request_witness :
  never_shows (ytmusic := frozen three_rows) (py "PL") (py "abc")
  ∧ (Load.handle_insert_video_at_position
       (builtins := plain_builtins) (ytmusic := frozen three_rows)
       (insert_request 1) (start (ytmusic := frozen three_rows) tt)).1
    = Done (Load.insert_response (py "PL") (py "abc") 1 false).
Proof.
  assert (never_shows (ytmusic := frozen three_rows) (py "PL") (py "abc")) as Hnever.
  { intros w. exists (snapshot three_rows), w. split; [reflexivity|].
    intros rows row' [= <-] Hrow [Hvideo _]. unfold three_rows in Hrow.
    rewrite !elem_of_cons in Hrow.
    destruct Hrow as [-> | [-> | [-> | Hrow]]];
      [| | | by apply not_elem_of_nil in Hrow]; vm_compute in Hvideo; discriminate. }
  split; [exact Hnever|].
  apply (unreconciled_insert_reports_request
           (builtins := plain_builtins) (ytmusic := frozen three_rows)
           (insert_request 1) (start (ytmusic := frozen three_rows) tt)
           (py "PL") (py "abc") 1);
    [reflexivity | discriminate | reflexivity | discriminate | reflexivity
    | exact Hnever | intros w; by eexists _, _].
Defined.

(** X11 at the four-row snapshot: the second row moved up by one. *)
Lemma relative_move_calls_witness :
  Load.move_inputs (builtins := plain_builtins)
    (move_request (by_token "t2") "up" 1) (py "PL") (by_token "t2") (py "up") 1
  ∧ ∃ n : nat,
      Z.of_nat n ≤ 1
      ∧ calls (Load.handle_move_playlist_song
                 (builtins := plain_builtins) (ytmusic := still)
                 (move_request (by_token "t2") "up" 1)
                 (start (ytmusic := still) (snapshot four_rows))).2
        = GetPlaylist (py "PL") 5000
          :: map (move_call true (py "PL") (py "t2") four_rows 1) (seq 1 n).
Proof.
  assert (Load.move_inputs (builtins := plain_builtins)
            (move_request (by_token "t2") "up" 1) (py "PL") (by_token "t2") (py "up") 1)
    as Hin.
  { repeat split; try reflexivity; try discriminate. by left. }
  split; [exact Hin|].
  destruct (relative_move_calls (builtins := plain_builtins) (ytmusic := still)
              (move_request (by_token "t2") "up" 1) (py "PL") (by_token "t2") (py "up") 1
              (snapshot four_rows) four_rows 1 (py "t2")
              (start (ytmusic := still) (snapshot four_rows))
              (@Session still (snapshot four_rows) [GetPlaylist (py "PL") 5000])
              Hin eq_refl eq_refl) as (n & Hn & Hcalls & _);
    [cbn; lia | reflexivity | lia |].
  exists n. split; [exact Hn | exact Hcalls].
Defined.

(** X14 at the two candidates of the worked example of the scorer. *)
Lemma pick_is_first_of_the_best_witness :
  Migrate.pick_best_match (builtins := plain_builtins)
    [PDict (Migrate.candidate "Bohemian Rhapsody" "Queen" "abc");
     PDict (Migrate.candidate "Bohemian Rhapsody (Remastered)" "Queen" "def")]
    (py "Bohemian Rhapsody") (py "Queen") [] true
  = Some (Migrate.candidate "Bohemian Rhapsody" "Queen" "abc")
  ∧ PDict (Migrate.candidate "Bohemian Rhapsody" "Queen" "abc")
    ∈ [PDict (Migrate.candidate "Bohemian Rhapsody" "Queen" "abc");
       PDict (Migrate.candidate "Bohemian Rhapsody (Remastered)" "Queen" "def")]
  ∧ safe_str (dict_get (Migrate.candidate "Bohemian Rhapsody" "Queen" "abc")
                       (py "videoId")) ≠ [].
Proof.
  assert (Migrate.pick_best_match (builtins := plain_builtins)
            [PDict (Migrate.candidate "Bohemian Rhapsody" "Queen" "abc");
             PDict (Migrate.candidate "Bohemian Rhapsody (Remastered)" "Queen" "def")]
            (py "Bohemian Rhapsody") (py "Queen") [] true
          = Some (Migrate.candidate "Bohemian Rhapsody" "Queen" "abc")) as Hpick
    by (vm_compute; reflexivity).
  split; [exact Hpick|].
  destruct (pick_is_first_of_the_best (builtins := plain_builtins) _ _ _ _ _ _ Hpick)
    as (_ & Hin & Hid).
  split; [exact Hin | exact Hid].
Defined.

(** X27 at the four-row snapshot: the row "abc" appended last, wanted at
    index 1. *)
Lemma reorder_moves_the_inserted_video_witness :
  Load.poll_after (ytmusic := replay) (py "PL") (py "abc")
    {[ py "t1"; py "t2"; py "t3" ]} [0; 1; 2; 3; 4]
    {| after_tracks := []; hits := nothing_found |}
    (start (ytmusic := replay) [Returns (snapshot four_rows); Returns PNone])
  = (inr {| after_tracks := four_rows;
            hits := scan_after (py "abc") {[ py "t1"; py "t2"; py "t3" ]} four_rows |},
     @Session replay [Returns PNone] [GetPlaylist (py "PL") 5000])
  ∧ ∃ row row',
      row ∈ four_rows ∧ row_video row = py "abc" ∧ row_token row = py "t4"
      ∧ py "t4" ≠ []
      ∧ row' ∈ four_rows ∧ row_token row' = py "t2"
      ∧ py "t2" ≠ [] ∧ py "t2" ≠ py "t4".
Proof.
  assert (Load.poll_after (ytmusic := replay) (py "PL") (py "abc")
            {[ py "t1"; py "t2"; py "t3" ]} [0; 1; 2; 3; 4]
            {| after_tracks := []; hits := nothing_found |}
            (start (ytmusic := replay) [Returns (snapshot four_rows); Returns PNone])
          = (inr {| after_tracks := four_rows;
                    hits := scan_after (py "abc") {[ py "t1"; py "t2"; py "t3" ]}
                                       four_rows |},
             @Session replay [Returns PNone] [GetPlaylist (py "PL") 5000])) as Hpoll
    by reflexivity.
  split; [exact Hpoll|].
  apply (reorder_moves_the_inserted_video (ytmusic := replay)
           (py "PL") (py "abc") 1 _ _ _ _ _ (py "t4") (py "t2") Hpoll).
  reflexivity.
Defined.
